(** * berserk.utils: time conversion, functional wrappers and the
      path-based adapter

    A shallow embedding of [src/berserk/utils.py].

    - Python floats are IEEE-754 binary64 values, modelled with the
      Z-based [spec_float] of the standard library (precision 53,
      exponent bound 1024), so every float operation below is the
      correctly rounded one and evaluates inside the kernel.
    - Python objects live in a heap: a value is a scalar or a reference
      to a [dict] or a [list]; a dict is an association list in insertion
      order.  Code runs in a state-and-exception monad over that heap.
    - Strings are 8-bit character strings (code points 0..255). *)

From Stdlib Require Import ZArith List String Ascii Bool Lia DecimalString.
From Stdlib Require Import Floats.SpecFloat.
From stdpp Require Import base option list strings gmap fin_maps.

Local Open Scope Z_scope.

(* ===================================================================== *)
(** ** Exceptions and results *)
(* ===================================================================== *)

(** The exception classes that the modelled code can raise.
    [SystemError] stands for a read through a reference that is not
    allocated; it cannot arise on a closed heap.  [NotImplementedError]
    marks arguments of a built-in that lie outside the modelled
    fragment. *)
Inductive exn :=
  | KeyError | TypeError | ValueError | AttributeError
  | OverflowError | ZeroDivisionError | SystemError | NotImplementedError.

Inductive result (A : Type) :=
  | Ok (a : A)
  | Raise (e : exn).
Arguments Ok {A} a.
Arguments Raise {A} e.

Definition rbind {A B} (r : result A) (f : A -> result B) : result B :=
  match r with
  | Ok a => f a
  | Raise e => Raise e
  end.

Definition is_Ok {A} (r : result A) : Prop :=
  match r with Ok _ => True | Raise _ => False end.

Definition exn_eqb (a b : exn) : bool :=
  match a, b with
  | KeyError, KeyError | TypeError, TypeError | ValueError, ValueError
  | AttributeError, AttributeError | OverflowError, OverflowError
  | ZeroDivisionError, ZeroDivisionError | SystemError, SystemError
  | NotImplementedError, NotImplementedError => true
  | _, _ => false
  end.

(* ===================================================================== *)
(** ** binary64 arithmetic *)
(* ===================================================================== *)

Module F64.

Definition prec : Z := 53.
Definition emax : Z := 1024.

Definition float := spec_float.

(** [float(n)] for a Python int: the nearest binary64 value. *)
Definition of_Z (n : Z) : float := binary_normalize prec emax n 0 false.

Definition mul (x y : float) : float := SFmul prec emax x y.
Definition add (x y : float) : float := SFadd prec emax x y.
Definition sub (x y : float) : float := SFsub prec emax x y.
Definition div (x y : float) : float := SFdiv prec emax x y.

(** [a / b] on Python ints: the correctly rounded quotient
    ([long_true_divide]).  [SFdiv] divides the two integer mantissas
    exactly and rounds once, whatever their size. *)
Definition int_truediv (a b : Z) : result float :=
  match a, b with
  | _, Z0 => Raise ZeroDivisionError
  | Z0, Zpos _ => Ok (S754_zero false)
  | Z0, Zneg _ => Ok (S754_zero true)
  | Zpos p, Zpos q =>
      match div (S754_finite false p 0) (S754_finite false q 0) with
      | S754_infinity _ => Raise OverflowError
      | r => Ok r
      end
  | Zpos p, Zneg q | Zneg p, Zpos q =>
      match div (S754_finite true p 0) (S754_finite false q 0) with
      | S754_infinity _ => Raise OverflowError
      | r => Ok r
      end
  | Zneg p, Zneg q =>
      match div (S754_finite false p 0) (S754_finite false q 0) with
      | S754_infinity _ => Raise OverflowError
      | r => Ok r
      end
  end.

(** The integer part of a finite float's magnitude [m * 2^e]. *)
Definition mag_floor (m : positive) (e : Z) : Z :=
  match e with
  | Zneg p => Z.shiftr (Zpos m) (Zpos p)
  | _ => Z.shiftl (Zpos m) e
  end.

(** The fractional part of the magnitude, in units of [2^e]. *)
Definition mag_frac (m : positive) (e : Z) : Z :=
  match e with
  | Zneg p => Z.land (Zpos m) (Z.ones (Zpos p))
  | _ => 0
  end.

(** [int(x)]: truncation toward zero. *)
Definition trunc (x : float) : result Z :=
  match x with
  | S754_zero _ => Ok 0
  | S754_finite s m e => Ok (cond_Zopp s (mag_floor m e))
  | S754_infinity _ => Raise OverflowError
  | S754_nan => Raise ValueError
  end.

(** [round(x)]: the nearest integer, ties to even. *)
Definition round (x : float) : result Z :=
  match x with
  | S754_zero _ => Ok 0
  | S754_finite s m e =>
      let q := mag_floor m e in
      let r := mag_frac m e in
      let half := match e with Zneg p => Z.shiftl 1 (Zpos p - 1) | _ => 1 end in
      let q' := match Z.compare r half with
                | Lt => q
                | Gt => q + 1
                | Eq => if Z.even q then q else q + 1
                end in
      Ok (cond_Zopp s q')
  | S754_infinity _ => Raise OverflowError
  | S754_nan => Raise ValueError
  end.

(** [math.modf(x)]: fractional and integral parts, both carrying the
    sign of [x]. *)
Definition modf (x : float) : float * float :=
  match x with
  | S754_zero _ => (x, x)
  | S754_infinity s => (S754_zero s, x)
  | S754_nan => (S754_nan, S754_nan)
  | S754_finite s m e =>
      (binary_normalize prec emax (cond_Zopp s (mag_frac m e)) e s,
       binary_normalize prec emax (cond_Zopp s (mag_floor m e)) 0 s)
  end.

End F64.

(* ===================================================================== *)
(** ** Calendar arithmetic and [datetime] *)
(* ===================================================================== *)

(** The only [tzinfo] the module uses is [timezone.utc]. *)
Inductive tz := UTC.

Record datetime := mk_datetime {
  year : Z; month : Z; day : Z;
  hour : Z; minute : Z; second : Z; microsecond : Z;
  tzinfo : option tz
}.

Definition MINYEAR : Z := 1.
Definition MAXYEAR : Z := 9999.

Definition _DAYS_IN_MONTH : list Z :=
  [-1; 31; 28; 31; 30; 31; 30; 31; 31; 30; 31; 30; 31].
Definition _DAYS_BEFORE_MONTH : list Z :=
  [-1; 0; 31; 59; 90; 120; 151; 181; 212; 243; 273; 304; 334].

Definition _is_leap (y : Z) : bool :=
  (y mod 4 =? 0) && (negb (y mod 100 =? 0) || (y mod 400 =? 0)).

Definition _days_before_year (yr : Z) : Z :=
  let y := yr - 1 in y * 365 + y / 4 - y / 100 + y / 400.

Definition _days_in_month (y m : Z) : Z :=
  if (m =? 2) && _is_leap y then 29
  else nth (Z.to_nat m) _DAYS_IN_MONTH 0.

Definition _days_before_month (y m : Z) : Z :=
  nth (Z.to_nat m) _DAYS_BEFORE_MONTH 0
  + (if (2 <? m) && _is_leap y then 1 else 0).

Definition _ymd2ord (y m d : Z) : Z :=
  _days_before_year y + _days_before_month y m + d.

Definition _DI400Y : Z := 146097.
Definition _DI100Y : Z := 36524.
Definition _DI4Y : Z := 1461.

Definition _ord2ymd (n0 : Z) : Z * Z * Z :=
  let n := n0 - 1 in
  let n400 := n / _DI400Y in
  let n := n mod _DI400Y in
  let yr := n400 * 400 + 1 in
  let n100 := n / _DI100Y in
  let n := n mod _DI100Y in
  let n4 := n / _DI4Y in
  let n := n mod _DI4Y in
  let n1 := n / 365 in
  let n := n mod 365 in
  let yr := yr + n100 * 100 + n4 * 4 + n1 in
  if (n1 =? 4) || (n100 =? 4) then (yr - 1, 12, 31)
  else
    let leapyear := (n1 =? 3) && (negb (n4 =? 24) || (n100 =? 3)) in
    let mo := Z.shiftr (n + 50) 5 in
    let preceding := nth (Z.to_nat mo) _DAYS_BEFORE_MONTH 0
                     + (if (2 <? mo) && leapyear then 1 else 0) in
    if n <? preceding then
      let mo := mo - 1 in
      let preceding := preceding
                       - (nth (Z.to_nat mo) _DAYS_IN_MONTH 0
                          + (if (mo =? 2) && leapyear then 1 else 0)) in
      (yr, mo, n - preceding + 1)
    else (yr, mo, n - preceding + 1).

(** [datetime(y, m, d, hh, mm, ss, us, tzinfo)] with the range checks of
    [_check_date_fields] and [_check_time_fields]. *)
Definition datetime_new (y m d hh mm ss us : Z) (t : option tz)
  : result datetime :=
  if negb ((MINYEAR <=? y) && (y <=? MAXYEAR)) then Raise ValueError
  else if negb ((1 <=? m) && (m <=? 12)) then Raise ValueError
  else if negb ((1 <=? d) && (d <=? _days_in_month y m)) then Raise ValueError
  else if negb ((0 <=? hh) && (hh <=? 23)) then Raise ValueError
  else if negb ((0 <=? mm) && (mm <=? 59)) then Raise ValueError
  else if negb ((0 <=? ss) && (ss <=? 59)) then Raise ValueError
  else if negb ((0 <=? us) && (us <=? 999999)) then Raise ValueError
  else Ok (mk_datetime y m d hh mm ss us t).

(** [dt.replace(tzinfo=t)]. *)
Definition replace_tzinfo (dt : datetime) (t : option tz) : datetime :=
  mk_datetime (year dt) (month dt) (day dt)
              (hour dt) (minute dt) (second dt) (microsecond dt) t.

Definition toordinal (dt : datetime) : Z :=
  _ymd2ord (year dt) (month dt) (day dt).

(** [_EPOCH = datetime(1970, 1, 1, tzinfo=timezone.utc)]. *)
Definition _EPOCH : datetime := mk_datetime 1970 1 1 0 0 0 0 (Some UTC).

(** The microseconds in the [timedelta] [dt - _EPOCH]. *)
Definition micros_since_epoch (dt : datetime) : Z :=
  ((toordinal dt - toordinal _EPOCH) * 86400
   + (second dt + minute dt * 60 + hour dt * 3600)
   - (second _EPOCH + minute _EPOCH * 60 + hour _EPOCH * 3600)) * 1000000
  + (microsecond dt - microsecond _EPOCH).

(** [dt.timestamp()].  For an aware datetime it is
    [(dt - _EPOCH).total_seconds()], an int-by-int true division.  A
    naive datetime is read in the local time zone, which is outside the
    model. *)
Definition timestamp (dt : datetime) : result F64.float :=
  match tzinfo dt with
  | Some UTC => F64.int_truediv (micros_since_epoch dt) 1000000
  | None => Raise NotImplementedError
  end.

(** [time.gmtime(t)] for an integral number of seconds. *)
Definition gmtime (t : Z) : Z * Z * Z * Z * Z * Z :=
  let days := t / 86400 in
  let rem := t mod 86400 in
  let '(y, m, d) := _ord2ymd (toordinal _EPOCH + days) in
  (y, m, d, rem / 3600, (rem mod 3600) / 60, rem mod 60).

(** [datetime.fromtimestamp(t, timezone.utc)]. *)
Definition fromtimestamp_utc (t : F64.float) : result datetime :=
  let '(frac, t) := F64.modf t in
  rbind (F64.round (F64.mul frac (F64.of_Z 1000000))) (fun us =>
  let '(t, us) :=
    if 1000000 <=? us then (F64.add t (F64.of_Z 1), us - 1000000)
    else if us <? 0 then (F64.sub t (F64.of_Z 1), us + 1000000)
    else (t, us) in
  rbind (F64.trunc t) (fun secs =>
  let '(y, m, d, hh, mm, ss) := gmtime secs in
  datetime_new y m d hh mm (Z.min ss 59) us (Some UTC))).

(** A Python number: [int] or [float]. *)
Inductive number :=
  | NInt (n : Z)
  | NFloat (x : F64.float).

(* ===================================================================== *)
(** ** Time conversion (utils.py, lines 7-36) *)
(* ===================================================================== *)

(** [int(dt.timestamp() * 1000)] *)
Definition to_millis (dt : datetime) : result Z :=
  rbind (timestamp dt) (fun ts => F64.trunc (F64.mul ts (F64.of_Z 1000))).

(** [datetime.fromtimestamp(ts, timezone.utc)] *)
Definition datetime_from_seconds (ts : F64.float) : result datetime :=
  fromtimestamp_utc ts.

(** [datetime_from_seconds(millis / 1000)] *)
Definition datetime_from_millis (millis : number) : result datetime :=
  match millis with
  | NInt n => rbind (F64.int_truediv n 1000) datetime_from_seconds
  | NFloat x => datetime_from_seconds (F64.div x (F64.of_Z 1000))
  end.

(* ===================================================================== *)
(** ** [datetime.strptime]: the regular expression of a format *)
(* ===================================================================== *)

(** Regular expressions as [_strptime.TimeRE] builds them: literals,
    character ranges [[lo-hi]], sequence, ordered alternative and named groups.
    There is no unbounded repetition; [{m,n}] is unfolded by [rep]. *)
Inductive re :=
  | Eps
  | Lit (c : ascii)
  | Cls (lo hi : ascii)
  | Seq (r1 r2 : re)
  | Alt (r1 r2 : re)
  | Grp (name : string) (r : re).

Definition code (c : ascii) : N := N_of_ascii c.

Definition in_range (lo hi : ascii) (c : ascii) : bool :=
  ((code lo <=? code c) && (code c <=? code hi))%N.

(** [\d] and [[0-9]] *)
Definition is_digit : ascii -> bool := in_range "0" "9".

(** The compiled pattern carries [re.IGNORECASE]: a literal letter matches
    in either case. *)
Definition lower (c : ascii) : ascii :=
  if in_range "A" "Z" c then ascii_of_N (code c + 32) else c.

Definition lit_matches (c x : ascii) : bool :=
  (code (lower c) =? code (lower x))%N.

(** Greedy bounded repetition: [r{0,n}] and [r{lo,lo+extra}]. *)
Fixpoint rep_upto (r : re) (n : nat) : re :=
  match n with
  | S n' => Alt (Seq r (rep_upto r n')) Eps
  | O => Eps
  end.

Fixpoint rep (r : re) (lo extra : nat) : re :=
  match lo with
  | S lo' => Seq r (rep r lo' extra)
  | O => rep_upto r extra
  end.

Definition captures := list (string * list ascii).

(** Backtracking matcher, anchored at the start of [s].  The continuation
    [k] receives the groups captured so far and the unread input; an
    alternative is retried when the continuation fails, as in [re.match]. *)
Fixpoint re_match {A} (r : re) (s : list ascii)
    (k : captures -> list ascii -> option A) : option A :=
  match r with
  | Eps => k [] s
  | Lit c => match s with
             | x :: s' => if lit_matches c x then k [] s' else None
             | [] => None
             end
  | Cls lo hi => match s with
             | x :: s' => if in_range lo hi x then k [] s' else None
             | [] => None
             end
  | Seq r1 r2 =>
      re_match r1 s (fun c1 s1 =>
      re_match r2 s1 (fun c2 s2 => k (c1 ++ c2) s2))
  | Alt r1 r2 =>
      match re_match r1 s k with
      | Some a => Some a
      | None => re_match r2 s k
      end
  | Grp name r =>
      re_match r s (fun c s' =>
        k ((name, take (length s - length s') s) :: c) s')
  end.

(** [\d].  A str is modelled with characters of eight bits, the code
    points below 256, and the decimal digits among these are ["0"] to
    ["9"].  Python's [\d] and [int] also take the decimal digits of the
    other scripts, which lie above this range. *)
Definition d1 : re := Cls "0" "9".

(** The directives of [TimeRE.__init__] that the module's format uses. *)
Definition directive (c : ascii) : option re :=
  if Ascii.eqb c "d" then
    (* 3[0-1]|[1-2]\d|0[1-9]|[1-9]| [1-9] *)
    Some (Grp "d" (Alt (Seq (Lit "3") (Cls "0" "1"))
                  (Alt (Seq (Cls "1" "2") d1)
                  (Alt (Seq (Lit "0") (Cls "1" "9"))
                  (Alt (Cls "1" "9")
                       (Seq (Lit " ") (Cls "1" "9")))))))
  else if Ascii.eqb c "f" then
    (* [0-9]{1,6} *)
    Some (Grp "f" (rep (Cls "0" "9") 1 5))
  else if Ascii.eqb c "H" then
    (* 2[0-3]|[0-1]\d|\d *)
    Some (Grp "H" (Alt (Seq (Lit "2") (Cls "0" "3"))
                  (Alt (Seq (Cls "0" "1") d1) d1)))
  else if Ascii.eqb c "m" then
    (* 1[0-2]|0[1-9]|[1-9] *)
    Some (Grp "m" (Alt (Seq (Lit "1") (Cls "0" "2"))
                  (Alt (Seq (Lit "0") (Cls "1" "9")) (Cls "1" "9"))))
  else if Ascii.eqb c "M" then
    (* [0-5]\d|\d *)
    Some (Grp "M" (Alt (Seq (Cls "0" "5") d1) d1))
  else if Ascii.eqb c "S" then
    (* 6[0-1]|[0-5]\d|\d *)
    Some (Grp "S" (Alt (Seq (Lit "6") (Cls "0" "1"))
                  (Alt (Seq (Cls "0" "5") d1) d1)))
  else if Ascii.eqb c "Y" then
    (* \d\d\d\d *)
    Some (Grp "Y" (Seq d1 (Seq d1 (Seq d1 d1))))
  else None.

(** Python's [str.isspace] on code points below 256, which is what [\s]
    matches there. *)
Definition is_space (c : ascii) : bool :=
  let n := code c in
  ((9 <=? n) && (n <=? 13) || (28 <=? n) && (n <=? 32)
   || (n =? 133) || (n =? 160))%N.

(** [TimeRE.pattern]: a directive becomes its regular expression, any
    other character a literal.  A run of whitespace in the format would
    become [\s+], which the regular expressions above do not cover. *)
Fixpoint pattern (format : list ascii) : option re :=
  match format with
  | [] => Some Eps
  | c :: rest =>
      if Ascii.eqb c "%" then
        match rest with
        | dc :: rest' =>
            match directive dc, pattern rest' with
            | Some r, Some r' => Some (Seq r r')
            | _, _ => None
            end
        | [] => None
        end
      else if is_space c then None
      else match pattern rest with
           | Some r' => Some (Seq (Lit c) r')
           | None => None
           end
  end.

(* ===================================================================== *)
(** ** [int(str)] *)
(* ===================================================================== *)

Definition digit_val (c : ascii) : Z := Z.of_N (code c) - 48.

(** The blanks that [int] skips at both ends of a str.  Below 128 they
    are those of C's [isspace], tab to carriage return and the space;
    the separators 28 to 31, blanks for [str.isspace], are not among
    them.  From 128 on they are the Unicode blanks, of which next line
    and the no-break space are below 256. *)
Definition is_int_space (c : ascii) : bool :=
  let n := code c in
  ((9 <=? n) && (n <=? 13) || (n =? 32) || (n =? 133) || (n =? 160))%N.

Fixpoint strip_left (s : list ascii) : list ascii :=
  match s with
  | c :: s' => if is_int_space c then strip_left s' else s
  | [] => []
  end.

Definition strip (s : list ascii) : list ascii :=
  reverse (strip_left (reverse (strip_left s))).

(** Digits with single underscores between them.  [prev] tells whether
    the previous character was a digit. *)
Fixpoint digits_value (s : list ascii) (acc : Z) (prev : bool) : option Z :=
  match s with
  | [] => if prev then Some acc else None
  | c :: s' =>
      if is_digit c then digits_value s' (acc * 10 + digit_val c) true
      else if Ascii.eqb c "_" && prev then
        match s' with
        | c' :: _ => if is_digit c' then digits_value s' acc false else None
        | [] => None
        end
      else None
  end.

(** [int(s)] for a string in base ten. *)
Definition int_of_str (s : list ascii) : result Z :=
  let body := strip s in
  let '(neg, ds) :=
    match body with
    | c :: r => if Ascii.eqb c "-" then (true, r)
                else if Ascii.eqb c "+" then (false, r)
                else (false, body)
    | [] => (false, body)
    end in
  match digits_value ds 0 false with
  | Some n => Ok (if neg then - n else n)
  | None => Raise ValueError
  end.

(* ===================================================================== *)
(** ** [datetime.strptime] *)
(* ===================================================================== *)

(** [found.groupdict().get(name)] *)
Fixpoint group (name : string) (caps : captures) : option (list ascii) :=
  match caps with
  | (n, s) :: caps' => if String.eqb n name then Some s else group name caps'
  | [] => None
  end.

(** The value of a numeric group, or [dflt] when the format lacks it. *)
Definition int_group (name : string) (dflt : Z) (caps : captures) : result Z :=
  match group name caps with
  | Some s => int_of_str s
  | None => Ok dflt
  end.

(** [%f]: the digits padded on the right to six. *)
Definition fraction_group (caps : captures) : result Z :=
  match group "f" caps with
  | Some s => int_of_str (s ++ replicate (6 - length s)%nat "0"%char)
  | None => Ok 0
  end.

(** The conversion of the matched groups, the validation of the date
    ([datetime_date(...)] inside [_strptime]) and the construction of the
    datetime.  The result is naive. *)
Definition datetime_of_groups (found : captures) : result datetime :=
  rbind (int_group "Y" 1900 found) (fun y =>
  rbind (int_group "m" 1 found) (fun m =>
  rbind (int_group "d" 1 found) (fun d =>
  rbind (int_group "H" 0 found) (fun hh =>
  rbind (int_group "M" 0 found) (fun mm =>
  rbind (int_group "S" 0 found) (fun ss =>
  rbind (fraction_group found) (fun us =>
  datetime_new y m d hh mm ss us None))))))).

(** [_strptime_datetime]: match the format's regular expression, check
    that the whole string was read, and convert the groups.  Every
    failure is a [ValueError]; a format with a directive that [directive]
    does not cover is outside the model. *)
Definition strptime (data_string format : string) : result datetime :=
  match pattern (list_ascii_of_string format) with
  | None => Raise NotImplementedError
  | Some format_regex =>
      match re_match format_regex (list_ascii_of_string data_string)
                     (fun caps rest => Some (caps, rest)) with
      | None => Raise ValueError
      | Some (found, rest) =>
          match rest with
          | _ :: _ => Raise ValueError
          | [] => datetime_of_groups found
          end
      end
  end.

(* ===================================================================== *)
(** ** [datetime_from_str] (utils.py, lines 39-49) *)
(* ===================================================================== *)

Definition datetime_from_str (dt_str : string) : result datetime :=
  rbind (strptime dt_str "%Y-%m-%dT%H:%M:%S.%fZ") (fun dt =>
  Ok (replace_tzinfo dt (Some UTC))).

(* ===================================================================== *)
(** ** Python values, objects and the heap *)
(* ===================================================================== *)

Abbreviation loc := nat (only parsing).

(** A value is a scalar or a reference to a heap object. *)
Inductive pyval :=
  | VNone
  | VBool (b : bool)
  | VInt (n : Z)
  | VFloat (x : F64.float)
  | VStr (s : string)
  | VRef (l : loc).

(** A [dict] with string keys, in insertion order. *)
Definition dict := list (string * pyval).

Inductive obj :=
  | ODict (d : dict)
  | OList (xs : list pyval).

Abbreviation heap := (gmap loc obj) (only parsing).

Fixpoint dict_get (k : string) (d : dict) : option pyval :=
  match d with
  | (k', v) :: d' => if String.eqb k' k then Some v else dict_get k d'
  | [] => None
  end.

(** [d[k] = v]: an existing key keeps its position, a new key goes last. *)
Fixpoint dict_set (k : string) (v : pyval) (d : dict) : dict :=
  match d with
  | (k', v') :: d' =>
      if String.eqb k' k then (k', v) :: d' else (k', v') :: dict_set k v d'
  | [] => [(k, v)]
  end.

Definition dict_keys (d : dict) : list string := map fst d.

(* ===================================================================== *)
(** ** The state-and-exception monad *)
(* ===================================================================== *)

(** A computation reads and writes the heap and returns a value or
    raises; the heap survives a raise. *)
Definition M (A : Type) : Type := heap -> result A * heap.

Definition ret {A} (a : A) : M A := fun h => (Ok a, h).

Definition bind {A B} (c : M A) (f : A -> M B) : M B :=
  fun h => match c h with
           | (Ok a, h') => f a h'
           | (Raise e, h') => (Raise e, h')
           end.

Definition lift {A} (r : result A) : M A := fun h => (r, h).

Notation "'let*' x ':=' c 'in' k" := (bind c (fun x => k))
  (at level 10, x name, c at level 100, k at level 200).

(** [try: body  except e: handler] *)
Definition try_except {A} (body : M A) (e : exn) (handler : M A) : M A :=
  fun h => match body h with
           | (Raise e', h') =>
               if exn_eqb e' e then handler h' else (Raise e', h')
           | r => r
           end.

(** [for x in xs: body(x)] over an already evaluated sequence. *)
Fixpoint for_each {A} (xs : list A) (body : A -> M unit) : M unit :=
  match xs with
  | [] => ret tt
  | x :: xs' => let* _ := body x in for_each xs' body
  end.

(** Allocation of a new object at an unused location. *)
Definition alloc (o : obj) : M pyval :=
  fun h => let l := fresh (dom h) in (Ok (VRef l), <[l := o]> h).

(** [v[key]] for a string key.  Only a dict takes string keys: a list or
    a str raises [TypeError] (indices must be integers) and the other
    scalars are not subscriptable. *)
Definition getitem (v : pyval) (key : string) : M pyval :=
  fun h =>
    match v with
    | VRef l =>
        match h !! l with
        | Some (ODict d) =>
            match dict_get key d with
            | Some x => (Ok x, h)
            | None => (Raise KeyError, h)
            end
        | Some (OList _) => (Raise TypeError, h)
        | None => (Raise SystemError, h)
        end
    | _ => (Raise TypeError, h)
    end.

(** [v[key] = x] for a string key. *)
Definition setitem (v : pyval) (key : string) (x : pyval) : M unit :=
  fun h =>
    match v with
    | VRef l =>
        match h !! l with
        | Some (ODict d) => (Ok tt, <[l := ODict (dict_set key x d)]> h)
        | Some (OList _) => (Raise TypeError, h)
        | None => (Raise SystemError, h)
        end
    | _ => (Raise TypeError, h)
    end.

(** [v.append(x)] *)
Definition list_append (v : pyval) (x : pyval) : M unit :=
  fun h =>
    match v with
    | VRef l =>
        match h !! l with
        | Some (OList xs) => (Ok tt, <[l := OList (xs ++ [x])]> h)
        | Some (ODict _) => (Raise AttributeError, h)
        | None => (Raise SystemError, h)
        end
    | _ => (Raise AttributeError, h)
    end.

Fixpoint chars (s : string) : list pyval :=
  match s with
  | EmptyString => []
  | String c s' => VStr (String c EmptyString) :: chars s'
  end.

(** The elements that [for item in v] visits: those of a list, the keys
    of a dict, the characters of a str. *)
Definition py_iter (v : pyval) : M (list pyval) :=
  fun h =>
    match v with
    | VRef l =>
        match h !! l with
        | Some (OList xs) => (Ok xs, h)
        | Some (ODict d) => (Ok (map VStr (dict_keys d)), h)
        | None => (Raise SystemError, h)
        end
    | VStr s => (Ok (chars s), h)
    | _ => (Raise TypeError, h)
    end.

(** [v.items()] *)
Definition dict_items (v : pyval) : M (list (string * pyval)) :=
  fun h =>
    match v with
    | VRef l =>
        match h !! l with
        | Some (ODict d) => (Ok d, h)
        | Some (OList _) => (Raise AttributeError, h)
        | None => (Raise SystemError, h)
        end
    | _ => (Raise AttributeError, h)
    end.

(* ===================================================================== *)
(** ** [str.split(sep)] *)
(* ===================================================================== *)

(** Left-to-right scan for non-overlapping occurrences of [sep].  [skip]
    counts the characters of a separator still to pass over and [cur] is
    the piece being read. *)
Fixpoint split_from (sep s : string) (skip : nat) (cur : string)
  : list string :=
  match s with
  | EmptyString => [cur]
  | String c s' =>
      match skip with
      | S n => split_from sep s' n cur
      | O =>
          if String.prefix sep s
          then cur :: split_from sep s' (String.length sep - 1) EmptyString
          else split_from sep s' O (cur ++ String c EmptyString)%string
      end
  end.

(** [s.split(sep)]; an empty separator is a [ValueError]. *)
Definition str_split (s sep : string) : result (list string) :=
  match sep with
  | EmptyString => Raise ValueError
  | _ => Ok (split_from sep s O EmptyString)
  end.

(** [v.split(sep)]: only a str has the method. *)
Definition py_split (v : pyval) (sep : string) : M (list string) :=
  match v with
  | VStr s => lift (str_split s sep)
  | _ => lift (Raise AttributeError)
  end.

(* ===================================================================== *)
(** ** Built-ins used as converters *)
(* ===================================================================== *)

(** A converter passed to [inner] or [listing]: a function on values
    that returns or raises and leaves the heap alone. *)
Definition pyfun := pyval -> result pyval.

(** [int(v)] *)
Definition py_int : pyfun := fun v =>
  match v with
  | VInt n => Ok (VInt n)
  | VBool b => Ok (VInt (if b then 1 else 0))
  | VFloat x => rbind (F64.trunc x) (fun n => Ok (VInt n))
  | VStr s => rbind (int_of_str (list_ascii_of_string s)) (fun n => Ok (VInt n))
  | VNone | VRef _ => Raise TypeError
  end.

Definition string_of_Z (n : Z) : string :=
  NilZero.string_of_int (Z.to_int n).

(** [str(v)] on [None], bools, ints and strs; the [repr] of floats and
    containers is outside the modelled fragment. *)
Definition py_str : pyfun := fun v =>
  match v with
  | VNone => Ok (VStr "None")
  | VBool b => Ok (VStr (if b then "True" else "False"))
  | VInt n => Ok (VStr (string_of_Z n))
  | VStr s => Ok (VStr s)
  | VFloat _ | VRef _ => Raise NotImplementedError
  end.

(* ===================================================================== *)
(** ** Functional wrappers (utils.py, lines 59-82) *)
(* ===================================================================== *)

Section inner.
Variable func : pyfun.
Variable keys : list string.

(** The body of [for k in keys]. *)
Definition inner_step (data : pyval) (k : string) : M unit :=
  try_except
    (let* v := getitem data k in
     let* w := lift (func v) in
     setitem data k w)
    KeyError
    (ret tt).

Definition inner_convert (data : pyval) : M pyval :=
  let* _ := for_each keys (inner_step data) in
  ret data.
End inner.

Definition inner (func : pyfun) (keys : list string) : pyval -> M pyval :=
  inner_convert func keys.

Section listing.
Variable func : pyfun.

Definition listing_convert (items : pyval) : M pyval :=
  let* result := alloc (OList []) in
  let* xs := py_iter items in
  let* _ := for_each xs (fun item =>
              let* y := lift (func item) in
              list_append result y) in
  ret result.
End listing.

Definition listing (func : pyfun) : pyval -> M pyval :=
  listing_convert func.

Definition noop (arg : pyval) : pyval := arg.

(* ===================================================================== *)
(** ** The path-based adapter (utils.py, lines 85-142) *)
(* ===================================================================== *)

Section build_adapter.
Variable mapper : pyval.
Variable sep : string.

(** [for key in ...: data = data[key]] *)
Fixpoint walk (data : pyval) (path : list string) : M pyval :=
  match path with
  | [] => ret data
  | key :: path' => let* data' := getitem data key in walk data' path'
  end.

Definition get (data : pyval) (location : pyval) : M pyval :=
  let* path := py_split location sep in
  walk data path.

(** The body of [for key, loc in mapper.items()]. *)
Definition adapter_step (result data default : pyval) (fill : bool)
    (item : string * pyval) : M unit :=
  let '(key, location) := item in
  try_except
    (let* v := get data location in setitem result key v)
    KeyError
    (if fill then setitem result key default else ret tt).

Definition adapter (data default : pyval) (fill : bool) : M pyval :=
  let* result := alloc (ODict []) in
  let* items := dict_items mapper in
  let* _ := for_each items (adapter_step result data default fill) in
  ret result.
End build_adapter.

Definition build_adapter (mapper : pyval) (sep : string)
  : pyval -> pyval -> bool -> M pyval :=
  adapter mapper sep.

(* ===================================================================== *)
(** ** Specification vocabulary *)
(* ===================================================================== *)

(** What a caller observes of a call that returns a reference: the
    object it refers to, or the exception. *)
Definition observe (out : result pyval * heap) : result (option obj) :=
  match out with
  | (Ok (VRef l), h) => Ok (h !! l)
  | (Ok _, _) => Ok None
  | (Raise e, _) => Raise e
  end.

(** A value is usable in [h] when it is a scalar or an allocated
    reference; a heap is closed when its objects hold usable values. *)
Definition val_ok (h : heap) (v : pyval) : Prop :=
  match v with
  | VRef l => is_Some (h !! l)
  | _ => True
  end.

Definition obj_values (o : obj) : list pyval :=
  match o with
  | ODict d => map snd d
  | OList xs => xs
  end.

Definition heap_closed (h : heap) : Prop :=
  forall l o, h !! l = Some o -> Forall (val_ok h) (obj_values o).

(** [reaches h v path w]: indexing [v] by the keys of [path] in turn
    succeeds at every step and ends at [w]. *)
Inductive reaches (h : heap) : pyval -> list string -> pyval -> Prop :=
  | reaches_nil v : reaches h v [] v
  | reaches_cons l d key v path w :
      h !! l = Some (ODict d) ->
      dict_get key d = Some v ->
      reaches h v path w ->
      reaches h (VRef l) (key :: path) w.

(** [key_absent h v path]: some step of the traversal arrives at a dict
    that lacks the next key. *)
Inductive key_absent (h : heap) : pyval -> list string -> Prop :=
  | key_absent_here l d key path :
      h !! l = Some (ODict d) ->
      dict_get key d = None ->
      key_absent h (VRef l) (key :: path)
  | key_absent_later l d key v path :
      h !! l = Some (ODict d) ->
      dict_get key d = Some v ->
      key_absent h v path ->
      key_absent h (VRef l) (key :: path).

(** A cursor that is not a key-addressable mapping: a scalar or a list. *)
Definition not_mapping (h : heap) (v : pyval) : Prop :=
  match v with
  | VRef l => exists xs, h !! l = Some (OList xs)
  | _ => True
  end.

(** [malformed h v path]: some step of the traversal arrives at a cursor
    that is not a mapping while keys remain. *)
Inductive malformed (h : heap) : pyval -> list string -> Prop :=
  | malformed_here v key path :
      not_mapping h v ->
      malformed h v (key :: path)
  | malformed_later l d key v path :
      h !! l = Some (ODict d) ->
      dict_get key d = Some v ->
      malformed h v path ->
      malformed h (VRef l) (key :: path).

(** How often [k] occurs among [keys]. *)
Fixpoint occurrences (k : string) (keys : list string) : nat :=
  match keys with
  | k' :: keys' => (if String.eqb k' k then 1 else 0) + occurrences k keys'
  | [] => 0
  end.

(** An instant cut to whole milliseconds. *)
Definition truncate_to_millis (dt : datetime) : datetime :=
  mk_datetime (year dt) (month dt) (day dt) (hour dt) (minute dt)
              (second dt) (microsecond dt / 1000 * 1000) (tzinfo dt).

(** The record that the adapter's loop builds, as a function of the
    outcome of each location: a value is bound, a [KeyError] is skipped
    or filled, any other exception ends the loop. *)
Fixpoint adapted (outcome : pyval -> result pyval) (default : pyval)
    (fill : bool) (items : dict) (acc : dict) : result unit * dict :=
  match items with
  | [] => (Ok tt, acc)
  | (key, location) :: items' =>
      match outcome location with
      | Ok v => adapted outcome default fill items' (dict_set key v acc)
      | Raise e =>
          if exn_eqb e KeyError
          then adapted outcome default fill items'
                       (if fill then dict_set key default acc else acc)
          else (Raise e, acc)
      end
  end.

(** Every field of [items] resolves in [h]: its location is a str that
    splits on the separator into a path, and the traversal of [data]
    along that path succeeds at every step or meets a dict that lacks
    the next key. *)
Definition resolves (h : heap) (sep : string) (data : pyval) (items : dict)
  : Prop :=
  forall key location, (key, location) ∈ items ->
    exists s path,
      location = VStr s /\ str_split s sep = Ok path
      /\ ((exists v, reaches h data path v) \/ key_absent h data path).

(** The heaps of the worked examples. *)
Definition rating_record : heap :=
  {[ 7%nat := ODict [("rating", VStr "1500"); ("name", VStr "x")] ]}.
Definition unrated_record : heap :=
  {[ 7%nat := ODict [("name", VStr "x")] ]}.
Definition one_two_three : heap :=
  {[ 4%nat := OList [VInt 1; VInt 2; VInt 3] ]}.

(** The mapping [{"a": "x.y"}] at location 0 with three documents:
    [{"x": {"y": 5}}] at 2, [{"x": {}}] at 4 and [{"x": 5}] at 5. *)
Definition adapter_heap : heap :=
  {[ 0%nat := ODict [("a", VStr "x.y")];
     1%nat := ODict [("y", VInt 5)];
     2%nat := ODict [("x", VRef 1%nat)];
     3%nat := ODict [];
     4%nat := ODict [("x", VRef 3%nat)];
     5%nat := ODict [("x", VInt 5)] ]}.

(** The mapping [{"b": "q", "a": "p", "c": "r.s"}] at location 0 and the
    document [{"p": 1, "q": 2}] at location 1. *)
Definition order_heap : heap :=
  {[ 0%nat := ODict [("b", VStr "q"); ("a", VStr "p"); ("c", VStr "r.s")];
     1%nat := ODict [("p", VInt 1); ("q", VInt 2)] ]}.

(** One second and one millisecond after the epoch, and ten seconds past
    13:37:04 on 10 January 2004 (2^30 seconds after the epoch) plus one
    millisecond. *)
Definition epoch_plus_1001ms : datetime :=
  mk_datetime 1970 1 1 0 0 1 1000 (Some UTC).
Definition jan_2004_plus_1ms : datetime :=
  mk_datetime 2004 1 10 13 37 4 1000 (Some UTC).

Global Instance val_ok_dec (h : heap) v : Decision (val_ok h v).
Proof. destruct v; simpl; apply _. Defined.

Global Instance heap_closed_dec (h : heap) : Decision (heap_closed h).
Proof.
  apply (map_Forall_dec (fun _ o => Forall (val_ok h) (obj_values o))).
Defined.

(* ===================================================================== *)
(** ** Specification vocabulary for [datetime_from_str] *)
(* ===================================================================== *)

(** The strings a regular expression matches, with the groups captured. *)
Inductive lang : re -> list ascii -> captures -> Prop :=
  | lang_eps : lang Eps [] []
  | lang_lit c x : lit_matches c x = true -> lang (Lit c) [x] []
  | lang_cls lo hi x : in_range lo hi x = true -> lang (Cls lo hi) [x] []
  | lang_seq r1 r2 s1 s2 c1 c2 :
      lang r1 s1 c1 -> lang r2 s2 c2 ->
      lang (Seq r1 r2) (s1 ++ s2) (c1 ++ c2)
  | lang_alt_l r1 r2 s c : lang r1 s c -> lang (Alt r1 r2) s c
  | lang_alt_r r1 r2 s c : lang r2 s c -> lang (Alt r1 r2) s c
  | lang_grp name r s c : lang r s c -> lang (Grp name r) s ((name, s) :: c).

(** Between [lo] and [hi] decimal digits. *)
Definition digits (lo hi : nat) (s : list ascii) : Prop :=
  Forall (fun c => is_digit c = true) s
  /\ (lo <= length s)%nat /\ (length s <= hi)%nat.

(** A space and a digit from 1 to 9: a day padded as C's [%e] does. *)
Definition padded (s : list ascii) : Prop :=
  exists c, s = [" "%char; c] /\ in_range "1" "9" c = true.

(** The number a string of digits denotes. *)
Definition decimal (s : list ascii) : Z :=
  fold_left (fun acc c => acc * 10 + digit_val c) s 0.

(** The parts of a timestamp text. *)
Record stamp := mk_stamp {
  st_year : list ascii;
  st_month : list ascii;
  st_day : list ascii;
  st_T : ascii;
  st_hour : list ascii;
  st_minute : list ascii;
  st_second : list ascii;
  st_fraction : list ascii;
  st_Z : ascii
}.

Definition stamp_text (p : stamp) : list ascii :=
  st_year p ++ "-"%char :: st_month p ++ "-"%char :: st_day p
  ++ st_T p :: st_hour p ++ ":"%char :: st_minute p
  ++ ":"%char :: st_second p ++ "."%char :: st_fraction p ++ [st_Z p].

(** The texts that [strptime] reads with the module's format, before the
    date and the time are validated. *)
Definition stamp_well_formed (p : stamp) : Prop :=
  digits 4 4 (st_year p)
  /\ digits 1 2 (st_month p)
  /\ (digits 1 2 (st_day p) \/ padded (st_day p))
  /\ (st_T p = "T"%char \/ st_T p = "t"%char)
  /\ digits 1 2 (st_hour p)
  /\ digits 1 2 (st_minute p)
  /\ digits 1 2 (st_second p)
  /\ digits 1 6 (st_fraction p)
  /\ (st_Z p = "Z"%char \/ st_Z p = "z"%char).

(** The instant a timestamp text denotes, when its numbers are a date and
    a time of day: the fraction is padded on the right to microseconds. *)
Definition stamp_datetime (p : stamp) : result datetime :=
  datetime_new (decimal (st_year p)) (decimal (st_month p))
               (decimal (strip_left (st_day p)))
               (decimal (st_hour p)) (decimal (st_minute p))
               (decimal (st_second p))
               (decimal (st_fraction p)
                * 10 ^ Z.of_nat (6 - length (st_fraction p)))
               (Some UTC).

(** Following the spec: "4-digit year, 2-digit month/day/hour/minute/
    second, fractional seconds, literal trailing Z". *)
Definition matches_format (s : string) : Prop :=
  exists p,
    list_ascii_of_string s = stamp_text p
    /\ digits 4 4 (st_year p)
    /\ digits 2 2 (st_month p) /\ digits 2 2 (st_day p)
    /\ st_T p = "T"%char
    /\ digits 2 2 (st_hour p) /\ digits 2 2 (st_minute p)
    /\ digits 2 2 (st_second p)
    /\ digits 1 6 (st_fraction p)
    /\ st_Z p = "Z"%char.

(** The groups that the format's regular expression captures. *)
Definition stamp_captures (p : stamp) : captures :=
  [("Y"%string, st_year p); ("m"%string, st_month p);
   ("d"%string, st_day p); ("H"%string, st_hour p);
   ("M"%string, st_minute p); ("S"%string, st_second p);
   ("f"%string, st_fraction p)].

(** The regular expression of ["%Y-%m-%dT%H:%M:%S.%fZ"]. *)
Definition format_regex : re :=
  match pattern (list_ascii_of_string "%Y-%m-%dT%H:%M:%S.%fZ") with
  | Some r => r
  | None => Eps
  end.

(** The code point of a character, as an integer. *)
Definition zcode (c : ascii) : Z := Z.of_N (code c).

(** The texts in the language of [format_regex]: the fields are those the
    directives' regular expressions admit. *)
Definition stamp_matches (p : stamp) : Prop :=
  digits 4 4 (st_year p)
  /\ (digits 1 2 (st_month p) /\ 1 <= decimal (st_month p) <= 12)
  /\ ((digits 1 2 (st_day p) /\ 1 <= decimal (st_day p) <= 31)
      \/ padded (st_day p))
  /\ (st_T p = "T"%char \/ st_T p = "t"%char)
  /\ (digits 1 2 (st_hour p) /\ decimal (st_hour p) <= 23)
  /\ (digits 1 2 (st_minute p) /\ decimal (st_minute p) <= 59)
  /\ (digits 1 2 (st_second p) /\ decimal (st_second p) <= 61)
  /\ digits 1 6 (st_fraction p)
  /\ (st_Z p = "Z"%char \/ st_Z p = "z"%char).

(** The characters of the fields: digits and the padding space. *)
Definition field_char (c : ascii) : Prop :=
  is_digit c = true \/ c = " "%char.

(* ===================================================================== *)
(** ** Rating history entries (utils.py, lines 52-56) *)
(* ===================================================================== *)

(** [collections.namedtuple('Entry', 'year month day rating')]: an
    immutable tuple of exactly four positional fields. *)
Module Entry.
Record _RatingHistoryEntry := mk {
  year : pyval; month : pyval; day : pyval; rating : pyval
}.

(** The elements of the tuple, in order ([tuple.__iter__]). *)
Definition fields (e : _RatingHistoryEntry) : list pyval :=
  [year e; month e; day e; rating e].
End Entry.

(** A call of [_RatingHistoryEntry] on the starred argument [data]: the
    iterable is unpacked into positional arguments, and the constructor
    takes four. *)
Definition rating_history (data : pyval) : M Entry._RatingHistoryEntry :=
  let* args := py_iter data in
  match args with
  | [y; m; d; r] => ret (Entry.mk y m d r)
  | _ => lift (Raise TypeError)
  end.

(* ===================================================================== *)
(** ** Converters built from the module's own functions *)
(* ===================================================================== *)

(** [noop] passed as the [func] of [inner] or [listing]. *)
Definition py_noop : pyfun := fun arg => Ok (noop arg).

(** [lambda v: g(f(v))] *)
Definition and_then (f g : pyfun) : pyfun := fun v => rbind (f v) g.

(** A value that is not a container: [None], a bool or a number. *)
Definition scalar (v : pyval) : bool :=
  match v with
  | VNone | VBool _ | VInt _ | VFloat _ => true
  | VStr _ | VRef _ => false
  end.

(** Whether the character [c] occurs in [s]. *)
Fixpoint occurs (c : ascii) (s : string) : bool :=
  match s with
  | EmptyString => false
  | String x s' => Ascii.eqb x c || occurs c s'
  end.

(** A separator of one character, as the default ["."]. *)
Definition sep_of (c : ascii) : string := String c EmptyString.

(* ===================================================================== *)
(** ** Instants on whole seconds *)
(* ===================================================================== *)

(** The fields of [dt] pass the range checks of the [datetime]
    constructor. *)
Definition valid_datetime (dt : datetime) : Prop :=
  MINYEAR <= year dt <= MAXYEAR
  /\ 1 <= month dt <= 12
  /\ 1 <= day dt <= _days_in_month (year dt) (month dt)
  /\ 0 <= hour dt <= 23
  /\ 0 <= minute dt <= 59
  /\ 0 <= second dt <= 59
  /\ 0 <= microsecond dt <= 999999.

(** The whole seconds in [dt - _EPOCH]. *)
Definition seconds_since_epoch (dt : datetime) : Z :=
  (toordinal dt - toordinal _EPOCH) * 86400
  + (second dt + minute dt * 60 + hour dt * 3600).

(* ===================================================================== *)
(** ** Integers that binary64 represents exactly *)
(* ===================================================================== *)

(** The mantissa of the normal float of magnitude [p], for [p] of at
    most 53 bits: [p] followed by zero bits up to 53 bits. *)
Definition norm_mantissa (p : positive) : positive :=
  Z.to_pos (Zpos p * 2 ^ (53 - Zpos (digits2_pos p))).

(** The float of sign [s] and magnitude [p]. *)
Definition exact_float (s : bool) (p : positive) : F64.float :=
  S754_finite s (norm_mantissa p) (Zpos (digits2_pos p) - 53).

(* ===================================================================== *)
(** ** One cycle of the calendar *)
(* ===================================================================== *)

(** The integers [1 .. n]. *)
Definition upto (n : Z) : list Z := map Z.of_nat (seq 1 (Z.to_nat n)).

(** The dates of the years 1 to 400, a whole cycle of the Gregorian
    calendar. *)
Definition cycle_dates : list (Z * Z * Z) :=
  flat_map (fun y =>
    flat_map (fun m => map (fun d => (y, m, d)) (upto (_days_in_month y m)))
             (upto 12))
    (upto 400).

(** Whether [_ord2ymd] undoes [_ymd2ord] on a date. *)
Definition date_round_trips (ymd : Z * Z * Z) : bool :=
  let '(y, m, d) := ymd in
  let '(y', m', d') := _ord2ymd (_ymd2ord y m d) in
  (y' =? y) && (m' =? m) && (d' =? d).

(** The mapping [{"player": "white"}] at location 0 and the document
    [{"white": {"rating": "1500"}}] at location 2, whose nested dict is
    at location 1. *)
Definition nested_heap : heap :=
  {[ 0%nat := ODict [("player", VStr "white")];
     1%nat := ODict [("rating", VStr "1500")];
     2%nat := ODict [("white", VRef 1%nat)] ]}.

(* ===================================================================== *)
(** ** Dicts *)
(* ===================================================================== *)

Lemma dict_get_set_eq k v d : dict_get k (dict_set k v d) = Some v.
Proof.
  induction d as [|[k' v'] d IH]; simpl.
  - by rewrite String.eqb_refl.
  - destruct (String.eqb k' k) eqn:E; simpl; rewrite E; done.
Qed.

Lemma dict_get_set_ne k k' v d :
  k <> k' -> dict_get k' (dict_set k v d) = dict_get k' d.
Proof.
  intros Hne. induction d as [|[k0 v0] d IH]; simpl.
  - destruct (String.eqb_spec k k'); [contradiction | done].
  - destruct (String.eqb_spec k0 k) as [->|]; simpl.
    + destruct (String.eqb_spec k k'); [contradiction | done].
    + destruct (String.eqb k0 k'); [done | apply IH].
Qed.

Lemma dict_get_Some_keys k v d : dict_get k d = Some v -> k ∈ dict_keys d.
Proof.
  induction d as [|[k' v'] d IH]; simpl; [done|].
  destruct (String.eqb_spec k' k) as [->|]; intros H.
  - apply list_elem_of_here.
  - apply list_elem_of_further, IH, H.
Qed.

Lemma dict_set_present k v d :
  k ∈ dict_keys d -> dict_keys (dict_set k v d) = dict_keys d.
Proof.
  induction d as [|[k' v'] d IH]; simpl.
  - intros H. by apply elem_of_nil in H.
  - destruct (String.eqb_spec k' k) as [->|]; simpl; [done|].
    intros H. apply elem_of_cons in H as [->|H]; [congruence|].
    by rewrite IH.
Qed.

Lemma dict_set_absent k v d :
  k ∉ dict_keys d -> dict_set k v d = d ++ [(k, v)].
Proof.
  induction d as [|[k' v'] d IH]; simpl; [done|].
  rewrite not_elem_of_cons. intros [Hne H].
  destruct (String.eqb_spec k' k) as [->|]; [congruence|].
  by rewrite IH.
Qed.

(* ===================================================================== *)
(** ** The monad *)
(* ===================================================================== *)

Lemma bind_ok {A B} (c : M A) (f : A -> M B) h a h' :
  c h = (Ok a, h') -> bind c f h = f a h'.
Proof. unfold bind. by intros ->. Qed.

Lemma for_each_cons {A} (x : A) xs body h :
  for_each (x :: xs) body h = bind (body x) (fun _ => for_each xs body) h.
Proof. reflexivity. Qed.

Lemma for_each_app {A} (xs ys : list A) body h :
  for_each (xs ++ ys) body h
  = bind (for_each xs body) (fun _ => for_each ys body) h.
Proof.
  revert h. induction xs as [|x xs IH]; intros h; simpl; [done|].
  unfold bind in *. destruct (body x h) as [[[]|e] h1]; [|done].
  apply IH.
Qed.

Lemma fresh_unallocated (h : heap) : h !! fresh (dom h) = None.
Proof. apply not_elem_of_dom, is_fresh. Qed.

(* ===================================================================== *)
(** ** [inner] *)
(* ===================================================================== *)

Section inner_facts.
Variable func : pyfun.
Variables (r : loc) (h : heap) (record : dict).
Hypothesis Hrec : h !! r = Some (ODict record).

Lemma inner_step_absent k :
  dict_get k record = None ->
  inner_step func (VRef r) k h = (Ok tt, h).
Proof.
  intros Hk. unfold inner_step, try_except, bind, getitem.
  by rewrite Hrec, Hk.
Qed.

Lemma inner_step_ok k v w :
  dict_get k record = Some v -> func v = Ok w ->
  inner_step func (VRef r) k h
  = (Ok tt, <[r := ODict (dict_set k w record)]> h).
Proof.
  intros Hk Hf. unfold inner_step, try_except, bind, getitem, lift, setitem.
  by rewrite Hrec, Hk, Hf, Hrec.
Qed.

Lemma inner_step_raise k v e :
  dict_get k record = Some v -> func v = Raise e ->
  inner_step func (VRef r) k h
  = if exn_eqb e KeyError then (Ok tt, h) else (Raise e, h).
Proof.
  intros Hk Hf. unfold inner_step, try_except, bind, getitem, lift.
  rewrite Hrec, Hk, Hf. by destruct e.
Qed.
End inner_facts.

Lemma inner_unfold func keys data h :
  inner func keys data h
  = match for_each keys (inner_step func data) h with
    | (Ok _, h') => (Ok data, h')
    | (Raise e, h') => (Raise e, h')
    end.
Proof. reflexivity. Qed.

Lemma iter_shift {A} (f : A -> A) n x :
  Nat.iter n f (f x) = Nat.iter (S n) f x.
Proof. induction n as [|n IH]; simpl; [done|]. by rewrite IH. Qed.

Lemma inner_loop func (f : pyval -> pyval) keys : forall r h record,
  h !! r = Some (ODict record) ->
  (forall k v n, dict_get k record = Some v ->
     (n < occurrences k keys)%nat ->
     func (Nat.iter n f v) = Ok (Nat.iter (S n) f v)) ->
  exists record',
    for_each keys (inner_step func (VRef r)) h
      = (Ok tt, <[r := ODict record']> h)
    /\ dict_keys record' = dict_keys record
    /\ forall k, dict_get k record'
                 = Nat.iter (occurrences k keys) f <$> dict_get k record.
Proof.
  induction keys as [|k keys IH]; intros r h record Hrec Hf.
  - exists record. split; [|split; [done|]].
    + simpl. unfold ret. by rewrite insert_id.
    + intros k. simpl. by destruct (dict_get k record).
  - simpl for_each. destruct (dict_get k record) as [v|] eqn:Hk.
    + assert (Hv : func v = Ok (f v)).
      { apply (Hf k v 0%nat Hk). simpl. rewrite String.eqb_refl. lia. }
      set (record1 := dict_set k (f v) record).
      set (h1 := <[r := ODict record1]> h).
      destruct (IH r h1 record1) as (record' & Hrun & Hkeys & Hget).
      { apply lookup_insert_eq. }
      { intros k' v' n Hk' Hn. unfold record1 in Hk'.
        destruct (String.eqb_spec k k') as [<-|Hne].
        - rewrite dict_get_set_eq in Hk'. injection Hk' as <-.
          rewrite iter_shift. rewrite (iter_shift f (S n)).
          apply (Hf k v (S n) Hk). simpl. rewrite String.eqb_refl. lia.
        - rewrite dict_get_set_ne in Hk' by done.
          apply (Hf k' v' n Hk'). simpl. lia. }
      exists record'. split; [|split].
      * erewrite bind_ok; [|by eapply inner_step_ok].
        fold record1. fold h1. rewrite Hrun. unfold h1.
        by rewrite insert_insert_eq.
      * rewrite Hkeys. unfold record1.
        apply dict_set_present. by eapply dict_get_Some_keys.
      * intros k'. rewrite Hget. unfold record1. simpl.
        destruct (String.eqb_spec k k') as [<-|Hne].
        -- rewrite dict_get_set_eq, Hk. simpl. by rewrite iter_shift.
        -- by rewrite dict_get_set_ne.
    + destruct (IH r h record Hrec) as (record' & Hrun & Hkeys & Hget).
      { intros k' v' n Hk' Hn. apply (Hf k' v' n Hk'). simpl. lia. }
      exists record'. split; [|split; [done|]].
      * erewrite bind_ok; [|by eapply inner_step_absent]. done.
      * intros k'. rewrite Hget. simpl.
        destruct (String.eqb_spec k k') as [<-|Hne]; [|done].
        by rewrite Hk.
Qed.

Lemma occurrences_0 k keys : k ∉ keys -> occurrences k keys = 0%nat.
Proof.
  induction keys as [|k' keys IH]; simpl; [done|].
  rewrite not_elem_of_cons. intros [Hne Hk].
  destruct (String.eqb_spec k' k); [congruence|]. by rewrite IH.
Qed.

Lemma occurrences_1 k keys :
  NoDup keys -> k ∈ keys -> occurrences k keys = 1%nat.
Proof.
  induction keys as [|k' keys IH]; simpl; intros Hnd Hin.
  - by apply elem_of_nil in Hin.
  - apply NoDup_cons in Hnd as [Hk' Hnd].
    destruct (String.eqb_spec k' k) as [->|Hne].
    + by rewrite occurrences_0.
    + apply elem_of_cons in Hin as [->|Hin]; [done|]. by rewrite IH.
Qed.

(** C7. The converter built by [inner func keys] returns the very record
    it was given, updated in place: the record keeps its keys and their
    order, and every field [k] ends as [func] applied to its old value
    once per occurrence of [k] in [keys].  Hence a listed name that is
    present is replaced by [func(record[name])], a listed name that is
    absent is skipped without error, and a field that is not listed is
    unchanged.  [f] is the value [func] returns on the fields it meets.
    With [int] and the key ["rating"], the record with rating ["1500"]
    and name ["x"] becomes rating [1500], name ["x"], and a record with
    only a name is returned as it was. *)
Theorem inner_converts_listed_fields :
  (forall (func : pyfun) (f : pyval -> pyval) (keys : list string)
          (h : heap) (r : loc) (record : dict),
      h !! r = Some (ODict record) ->
      (forall k v n, dict_get k record = Some v ->
         (n < occurrences k keys)%nat ->
         func (Nat.iter n f v) = Ok (Nat.iter (S n) f v)) ->
      exists record',
        inner func keys (VRef r) h = (Ok (VRef r), <[r := ODict record']> h)
        /\ dict_keys record' = dict_keys record
        /\ (forall k, dict_get k record'
                      = Nat.iter (occurrences k keys) f <$> dict_get k record)
        /\ (forall k v, k ∈ keys -> NoDup keys ->
              dict_get k record = Some v -> dict_get k record' = Some (f v))
        /\ (forall k, dict_get k record = None -> dict_get k record' = None)
        /\ (forall k, k ∉ keys -> dict_get k record' = dict_get k record))
  /\ inner py_int ["rating"] (VRef 7%nat) rating_record
     = (Ok (VRef 7%nat),
        <[7%nat := ODict [("rating", VInt 1500); ("name", VStr "x")]]>
          rating_record)
  /\ inner py_int ["rating"] (VRef 7%nat) unrated_record
     = (Ok (VRef 7%nat), unrated_record).
Proof.
  split; [|split].
  - intros func f keys h r record Hrec Hf.
    destruct (inner_loop func f keys r h record Hrec Hf)
      as (record' & Hrun & Hkeys & Hget).
    exists record'. repeat split; try done.
    + unfold inner, inner_convert. erewrite bind_ok; [|exact Hrun]. done.
    + intros k v Hin Hnd Hk. rewrite Hget, Hk, occurrences_1 by done. done.
    + intros k Hk. by rewrite Hget, Hk.
    + intros k Hk. rewrite Hget, occurrences_0 by done.
      by destruct (dict_get k record).
  - vm_compute. reflexivity.
  - vm_compute. reflexivity.
Qed.

Lemma inner_converts_listed_fields_witness :
  exists record',
    inner py_int ["rating"] (VRef 7%nat) rating_record
    = (Ok (VRef 7%nat), <[7%nat := ODict record']> rating_record)
    /\ dict_get "rating" record' = Some (VInt 1500).
Proof.
  destruct (proj1 inner_converts_listed_fields py_int
              (fun v => match py_int v with Ok w => w | Raise _ => v end)
              ["rating"] rating_record 7%nat
              [("rating", VStr "1500"); ("name", VStr "x")])
    as (record' & Hrun & _ & Hget & _).
  - reflexivity.
  - intros k v n Hk Hn. unfold occurrences in Hn.
    destruct (String.eqb_spec "rating" k) as [<-|]; [|lia].
    assert (n = 0%nat) as -> by lia.
    injection Hk as <-. reflexivity.
  - exists record'. split; [exact Hrun|]. rewrite Hget. reflexivity.
Defined.

(** C10. The [except KeyError] of [inner] also covers [func]: when the
    conversion arrives at a listed key that is present and [func] raises
    [KeyError] on its value, that step returns normally and leaves the
    heap, hence the field, as it was, and the conversion goes on with the
    keys that follow; the caller sees no error from that key.  With a
    converter that always raises [KeyError] the rating record comes back
    unchanged. *)
Theorem inner_swallows_KeyError_of_func :
  (forall (func : pyfun) (before : list string) (k : string)
          (after : list string) (h h1 : heap) (r : loc) (record : dict)
          (v : pyval),
      for_each before (inner_step func (VRef r)) h = (Ok tt, h1) ->
      h1 !! r = Some (ODict record) ->
      dict_get k record = Some v ->
      func v = Raise KeyError ->
      inner_step func (VRef r) k h1 = (Ok tt, h1)
      /\ inner func (before ++ k :: after) (VRef r) h
         = inner func after (VRef r) h1)
  /\ inner (fun _ => Raise KeyError) ["rating"; "name"] (VRef 7%nat)
           rating_record
     = (Ok (VRef 7%nat), rating_record).
Proof.
  split.
  - intros func before k after h h1 r record v Hbefore Hrec Hk Hf.
    assert (Hstep : inner_step func (VRef r) k h1 = (Ok tt, h1)).
    { rewrite (inner_step_raise func r h1 record Hrec k v KeyError Hk Hf).
      done. }
    split; [exact Hstep|].
    rewrite !inner_unfold, for_each_app.
    erewrite bind_ok; [|exact Hbefore].
    simpl for_each. erewrite bind_ok; [|exact Hstep]. done.
  - vm_compute. reflexivity.
Qed.

Lemma inner_swallows_KeyError_of_func_witness :
  inner (fun _ => Raise KeyError) ["name"; "rating"] (VRef 7%nat)
        rating_record
  = inner (fun _ => Raise KeyError) [] (VRef 7%nat) rating_record.
Proof.
  apply (proj2 (proj1 inner_swallows_KeyError_of_func
                 (fun _ => Raise KeyError) ["name"] "rating" []
                 rating_record rating_record 7%nat
                 [("rating", VStr "1500"); ("name", VStr "x")]
                 (VStr "1500")
                 eq_refl eq_refl eq_refl eq_refl)).
Defined.

(* ===================================================================== *)
(** ** [listing] *)
(* ===================================================================== *)

Lemma listing_loop func (f : pyval -> pyval) (l : loc) :
  forall xs acc (h : heap),
  h !! l = Some (OList acc) ->
  (forall x, x ∈ xs -> func x = Ok (f x)) ->
  for_each xs (fun item => let* y := lift (func item) in
                           list_append (VRef l) y) h
  = (Ok tt, <[l := OList (acc ++ map f xs)]> h).
Proof.
  induction xs as [|x xs IH]; intros acc h Hl Hf; simpl.
  - unfold ret. by rewrite app_nil_r, insert_id.
  - unfold bind at 1 2, lift, list_append.
    rewrite (Hf x), Hl by apply list_elem_of_here.
    rewrite (IH (acc ++ [f x])).
    + by rewrite insert_insert_eq, <- app_assoc.
    + apply lookup_insert_eq.
    + intros y Hy. apply Hf. by apply list_elem_of_further.
Qed.

(** C8. The converter built by [listing func] returns a list allocated
    by the call, at a location unused before it, that holds [func] of
    each element the input yields, in the same order and of the same
    length; every object that existed before the call, the input among
    them, is as it was.  [items] is any iterable (a list, a dict, a str)
    and [f] is the value [func] returns on its elements.  [listing(str)]
    on the list [1, 2, 3] returns a new list ["1", "2", "3"]. *)
Theorem listing_maps_into_new_list :
  (forall (func : pyfun) (f : pyval -> pyval) (h : heap) (items : pyval)
          (xs : list pyval),
      py_iter items h = (Ok xs, h) ->
      (forall x, x ∈ xs -> func x = Ok (f x)) ->
      exists l h',
        listing func items h = (Ok (VRef l), h')
        /\ h !! l = None
        /\ h' !! l = Some (OList (map f xs))
        /\ length (map f xs) = length xs
        /\ (forall i x, xs !! i = Some x -> map f xs !! i = Some (f x))
        /\ (forall l' o, h !! l' = Some o -> h' !! l' = Some o)
        /\ py_iter items h' = (Ok xs, h'))
  /\ listing py_str (VRef 4%nat) one_two_three
     = (Ok (VRef 5%nat),
        <[5%nat := OList [VStr "1"; VStr "2"; VStr "3"]]> one_two_three).
Proof.
  split.
  - intros func f h items xs Hiter Hf.
    set (l := fresh (dom h)).
    assert (Hl : h !! l = None) by apply fresh_unallocated.
    set (h1 := <[l := OList []]> h).
    assert (Hframe : forall h2 : heap,
              (forall l' o, h !! l' = Some o -> h2 !! l' = Some o) ->
              py_iter items h2 = (Ok xs, h2)).
    { intros h2 Hsub. unfold py_iter in *. destruct items; try done.
      - by injection Hiter as <-.
      - destruct (h !! l0) as [o|] eqn:Ho; [|done].
        rewrite (Hsub _ _ Ho). destruct o; by injection Hiter as <-. }
    assert (Hsub1 : forall l' o, h !! l' = Some o -> h1 !! l' = Some o).
    { intros l' o Ho. unfold h1. rewrite lookup_insert_ne; [done|].
      intros <-. congruence. }
    exists l, (<[l := OList (map f xs)]> h).
    assert (Hsub' : forall l' o, h !! l' = Some o ->
                      <[l := OList (map f xs)]> h !! l' = Some o).
    { intros l' o Ho. rewrite lookup_insert_ne; [done|].
      intros <-. congruence. }
    repeat split.
    + unfold listing, listing_convert.
      erewrite bind_ok; [|reflexivity]. fold l. fold h1.
      erewrite bind_ok; [|by apply Hframe].
      erewrite bind_ok.
      2:{ apply (listing_loop func f l xs [] h1); [|done].
          apply lookup_insert_eq. }
      unfold ret, h1. by rewrite insert_insert_eq.
    + done.
    + apply lookup_insert_eq.
    + apply length_map.
    + intros i x Hi. by rewrite list_lookup_fmap, Hi.
    + done.
    + by apply Hframe.
  - vm_compute. reflexivity.
Qed.

Lemma listing_maps_into_new_list_witness :
  exists l h',
    listing py_str (VRef 4%nat) one_two_three = (Ok (VRef l), h')
    /\ h' !! l = Some (OList [VStr "1"; VStr "2"; VStr "3"])
    /\ h' !! 4%nat = Some (OList [VInt 1; VInt 2; VInt 3]).
Proof.
  destruct (proj1 listing_maps_into_new_list py_str
              (fun v => match py_str v with Ok w => w | Raise _ => v end)
              one_two_three (VRef 4%nat) [VInt 1; VInt 2; VInt 3])
    as (l & h' & Hrun & _ & Hl & _ & _ & Hold & _).
  - reflexivity.
  - intros x Hx. repeat (apply elem_of_cons in Hx as [->|Hx]; [reflexivity|]).
    by apply elem_of_nil in Hx.
  - exists l, h'. split; [exact Hrun|]. split; [exact Hl|].
    apply Hold. reflexivity.
Defined.

(* ===================================================================== *)
(** ** Traversal *)
(* ===================================================================== *)

Lemma walk_heap v path (h : heap) :
  snd (walk v path h) = h.
Proof.
  revert v. induction path as [|key path IH]; intros v; simpl; [done|].
  unfold bind, getitem. destruct v; try done.
  destruct (h !! l) as [[d|xs]|]; try done.
  destruct (dict_get key d); [apply IH | done].
Qed.

Lemma get_heap sep data location (h : heap) :
  snd (get sep data location h) = h.
Proof.
  unfold get, bind, py_split, lift. destruct location; try done.
  destruct (str_split s sep); [apply walk_heap | done].
Qed.

Lemma walk_reaches (h : heap) v path w :
  reaches h v path w -> walk v path h = (Ok w, h).
Proof.
  induction 1 as [|l d key v path w Hl Hk _ IH]; simpl; [done|].
  unfold bind, getitem. by rewrite Hl, Hk.
Qed.

Lemma walk_key_absent (h : heap) v path :
  key_absent h v path -> walk v path h = (Raise KeyError, h).
Proof.
  induction 1 as [l d key path Hl Hk|l d key v path Hl Hk _ IH]; simpl;
    unfold bind, getitem; by rewrite Hl, Hk.
Qed.

Lemma walk_malformed (h : heap) v path :
  malformed h v path -> walk v path h = (Raise TypeError, h).
Proof.
  induction 1 as [v key path Hv|l d key v path Hl Hk _ IH]; simpl;
    unfold bind, getitem.
  - destruct v; try done. destruct Hv as [xs ->]. done.
  - by rewrite Hl, Hk.
Qed.

(** The three relations describe the outcomes of [walk] exactly. *)
Lemma walk_outcome (h : heap) : forall path v,
  match fst (walk v path h) with
  | Ok w => reaches h v path w
  | Raise KeyError => key_absent h v path
  | Raise TypeError => malformed h v path
  | Raise SystemError => True
  | Raise _ => False
  end.
Proof.
  induction path as [|key path IH]; intros v; simpl.
  - constructor.
  - unfold bind, getitem. destruct v; simpl; try by (constructor; simpl).
    destruct (h !! l) as [[d|xs]|] eqn:Hl; simpl; [| |done].
    + destruct (dict_get key d) as [x|] eqn:Hk; simpl.
      * specialize (IH x).
        destruct (walk x path h) as [[w|e] h'] eqn:Hw; simpl in *.
        -- by econstructor.
        -- destruct e; try done.
           ++ by eapply key_absent_later.
           ++ by eapply malformed_later.
      * by eapply key_absent_here.
    + apply malformed_here. simpl. by exists xs.
Qed.

Section extension.
Variables h h' : heap.
Hypothesis Hext : h ⊆ h'.

Lemma reaches_mono v path w : reaches h v path w -> reaches h' v path w.
Proof.
  induction 1; [constructor|].
  econstructor; [by eapply lookup_weaken| |]; done.
Qed.

Lemma key_absent_mono v path : key_absent h v path -> key_absent h' v path.
Proof.
  induction 1.
  - eapply key_absent_here; [by eapply lookup_weaken|done].
  - eapply key_absent_later; [by eapply lookup_weaken|done|done].
Qed.

Lemma malformed_mono v path : malformed h v path -> malformed h' v path.
Proof.
  induction 1 as [v key path Hv|].
  - apply malformed_here. destruct v; try done.
    destruct Hv as [xs Hxs]. exists xs. by eapply lookup_weaken.
  - eapply malformed_later; [by eapply lookup_weaken|done|done].
Qed.
End extension.

(** On a closed heap a traversal never meets an unallocated reference. *)
Lemma walk_closed (h : heap) : heap_closed h -> forall path v,
  val_ok h v -> fst (walk v path h) <> Raise SystemError.
Proof.
  intros Hc. induction path as [|key path IH]; intros v Hv; simpl; [done|].
  unfold bind, getitem. destruct v; simpl; try done.
  destruct Hv as [o Ho]. rewrite Ho. destruct o as [d|xs]; [|done].
  destruct (dict_get key d) as [x|] eqn:Hk; [|done].
  assert (Hx : val_ok h x).
  { specialize (Hc _ _ Ho). simpl in Hc. rewrite Forall_forall in Hc.
    apply Hc. clear -Hk. induction d as [|[k' v'] d IH]; simpl in *; [done|].
    destruct (String.eqb k' key).
    - injection Hk as ->. apply list_elem_of_here.
    - apply list_elem_of_further, IH, Hk. }
  specialize (IH x Hx).
  destruct (walk x path h) as [[w|e] h1]; simpl in *; done.
Qed.

(** The outcome of a traversal that meets no unallocated reference is
    the same in every larger heap. *)
Lemma walk_stable (h h' : heap) v path :
  h ⊆ h' ->
  fst (walk v path h) <> Raise SystemError ->
  walk v path h' = (fst (walk v path h), h').
Proof.
  intros Hext Hns. pose proof (walk_outcome h path v) as Ho.
  destruct (walk v path h) as [[w|e] h1] eqn:Hw; simpl in *.
  - apply walk_reaches. by eapply reaches_mono.
  - destruct e; try done.
    + apply walk_key_absent. by eapply key_absent_mono.
    + apply walk_malformed. by eapply malformed_mono.
Qed.

Lemma get_stable sep (h h' : heap) data location :
  h ⊆ h' ->
  fst (get sep data location h) <> Raise SystemError ->
  get sep data location h' = (fst (get sep data location h), h').
Proof.
  intros Hext. unfold get, bind, py_split, lift.
  destruct location; try done.
  destruct (str_split s sep) as [path|e]; [|done].
  intros Hns. by apply walk_stable.
Qed.

Lemma get_closed sep (h : heap) data location :
  heap_closed h -> val_ok h data ->
  fst (get sep data location h) <> Raise SystemError.
Proof.
  intros Hc Hv. unfold get, bind, py_split, lift.
  destruct location; try done.
  destruct (str_split s sep) as [path|e] eqn:Hs.
  - by apply walk_closed.
  - unfold str_split in Hs. destruct sep; by inversion Hs.
Qed.

(* ===================================================================== *)
(** ** [str.split] *)
(* ===================================================================== *)

Lemma string_app_cons c s t :
  (String c s +:+ t) = String c (s +:+ t).
Proof. reflexivity. Qed.

Lemma string_app_nil_l s : "" +:+ s = s.
Proof. reflexivity. Qed.

Lemma string_app_nil_r s : s +:+ "" = s.
Proof.
  induction s as [|c s IH]; [done|]. by rewrite string_app_cons, IH.
Qed.

Lemma string_app_assoc a b c : (a +:+ b) +:+ c = a +:+ (b +:+ c).
Proof.
  induction a as [|x a IH]; [done|]. by rewrite !string_app_cons, IH.
Qed.

Lemma prefix_app p : forall s,
  String.prefix p s = true -> exists r, s = p +:+ r.
Proof.
  induction p as [|a p IH]; intros s Hp.
  - by exists s.
  - destruct s as [|b s]; simpl in Hp; [done|].
    destruct (ascii_dec a b) as [->|]; [|done].
    destruct (IH s Hp) as [r ->]. by exists r.
Qed.

Lemma split_from_nonempty sep s : forall skip cur,
  split_from sep s skip cur <> [].
Proof.
  induction s as [|c s IH]; intros skip cur; [done|].
  cbn [split_from]. destruct skip; [|apply IH].
  destruct (String.prefix sep (String c s)); [done | apply IH].
Qed.

Lemma concat_cons sep x pieces :
  pieces <> [] ->
  String.concat sep (x :: pieces) = x +:+ sep +:+ String.concat sep pieces.
Proof. by destruct pieces. Qed.

(** Joining the pieces with the separator gives the string back.  While
    [skip] characters of a separator remain to be passed, they are not part
    of any piece. *)
Lemma split_from_join sep : sep <> EmptyString -> forall s pre rest cur,
  s = pre +:+ rest ->
  String.concat sep (split_from sep s (String.length pre) cur) = cur +:+ rest.
Proof.
  intros Hsep. induction s as [|c s IH]; intros pre rest cur Hs.
  - destruct pre; [|done]. rewrite string_app_nil_l in Hs. subst rest.
    simpl. by rewrite string_app_nil_r.
  - destruct pre as [|x pre].
    + rewrite string_app_nil_l in Hs. subst rest.
      cbn [String.length split_from].
      destruct (String.prefix sep (String c s)) eqn:Hp.
      * rewrite concat_cons by apply split_from_nonempty.
        apply prefix_app in Hp as [r Hr].
        destruct sep as [|x sep']; [done|].
        rewrite string_app_cons in Hr. injection Hr as <- ->.
        replace (String.length (String c sep') - 1)%nat
          with (String.length sep') by (cbn [String.length]; lia).
        rewrite (IH sep' r EmptyString eq_refl).
        by rewrite string_app_nil_l, string_app_cons.
      * rewrite (IH EmptyString s _ eq_refl).
        by rewrite string_app_assoc.
    + rewrite string_app_cons in Hs. injection Hs as <- ->.
      cbn [String.length split_from]. by apply IH.
Qed.

Lemma str_split_join s sep path :
  str_split s sep = Ok path -> String.concat sep path = s.
Proof.
  unfold str_split. destruct sep as [|c sep]; [done|].
  intros H. injection H as <-.
  apply (split_from_join (String c sep) ltac:(done) s EmptyString s
           EmptyString eq_refl).
Qed.

Example str_split_examples :
  str_split "broadcast.sync.url" "." = Ok ["broadcast"; "sync"; "url"]%string
  /\ str_split "a..b" "." = Ok ["a"; ""; "b"]%string
  /\ str_split "" "." = Ok [""%string]
  /\ str_split "a->b->c" "->" = Ok ["a"; "b"; "c"]%string
  /\ str_split "aaa" "aa" = Ok [""; "a"]%string
  /\ str_split "x.y" "" = Raise ValueError.
Proof. repeat split. Qed.

(* ===================================================================== *)
(** ** The adapter's loop *)
(* ===================================================================== *)

Lemma adapter_step_run sep (l : loc) data default fill key location
    (hc : heap) acc out :
  hc !! l = Some (ODict acc) ->
  get sep data location hc = (out, hc) ->
  adapter_step sep (VRef l) data default fill (key, location) hc
  = match out with
    | Ok v => (Ok tt, <[l := ODict (dict_set key v acc)]> hc)
    | Raise e =>
        if exn_eqb e KeyError
        then (Ok tt, if fill then <[l := ODict (dict_set key default acc)]> hc
                     else hc)
        else (Raise e, hc)
    end.
Proof.
  intros Hl Hget. unfold adapter_step, try_except, bind. rewrite Hget.
  destruct out as [v|e].
  - unfold setitem. by rewrite Hl.
  - destruct (exn_eqb e KeyError); [|done].
    destruct fill; [|done]. unfold setitem. by rewrite Hl.
Qed.

(** With outcomes that do not depend on the record under construction,
    the loop computes [adapted]. *)
Lemma adapter_loop_run sep (l : loc) data default fill outcome (h : heap) :
  forall items acc,
  (forall key location acc', (key, location) ∈ items ->
     get sep data location (<[l := ODict acc']> h)
     = (outcome location, <[l := ODict acc']> h)) ->
  for_each items (adapter_step sep (VRef l) data default fill)
           (<[l := ODict acc]> h)
  = (fst (adapted outcome default fill items acc),
     <[l := ODict (snd (adapted outcome default fill items acc))]> h).
Proof.
  induction items as [|[key location] items IH]; intros acc Hst; [done|].
  rewrite for_each_cons. unfold bind.
  rewrite (adapter_step_run sep l data default fill key location _ acc
             (outcome location)).
  2: apply lookup_insert_eq.
  2: apply (Hst key), list_elem_of_here.
  assert (Hst' : forall key location acc', (key, location) ∈ items ->
     get sep data location (<[l := ODict acc']> h)
     = (outcome location, <[l := ODict acc']> h)).
  { intros k' loc' acc' Hin. apply (Hst k'). by apply list_elem_of_further. }
  simpl adapted. destruct (outcome location) as [v|e].
  - rewrite insert_insert_eq. by apply IH.
  - destruct (exn_eqb e KeyError); [|done].
    destruct fill; [rewrite insert_insert_eq|]; by apply IH.
Qed.

(** Whatever the outcomes, the loop writes the record under construction
    only. *)
Lemma adapter_loop_frame sep (l : loc) data default fill :
  forall items acc (h : heap) r h',
  h !! l = Some (ODict acc) ->
  for_each items (adapter_step sep (VRef l) data default fill) h = (r, h') ->
  exists res, h' = <[l := ODict res]> h.
Proof.
  induction items as [|[key location] items IH]; intros acc h r h' Hl Hrun.
  - simpl in Hrun. unfold ret in Hrun. injection Hrun as <- <-.
    exists acc. by rewrite insert_id.
  - rewrite for_each_cons in Hrun. unfold bind in Hrun.
    pose proof (get_heap sep data location h) as Hgh.
    destruct (get sep data location h) as [out hg] eqn:Hget.
    simpl in Hgh. subst hg.
    rewrite (adapter_step_run sep l data default fill key location h acc out
               Hl Hget) in Hrun.
    assert (Hbound : forall x : pyval,
      for_each items (adapter_step sep (VRef l) data default fill)
               (<[l := ODict (dict_set key x acc)]> h) = (r, h') ->
      exists res, h' = <[l := ODict res]> h).
    { intros x Hrun1.
      destruct (IH _ _ r h' (lookup_insert_eq _ _ _) Hrun1) as (res & ->).
      exists res. by rewrite insert_insert_eq. }
    destruct out as [v|e]; [by eapply Hbound|].
    destruct (exn_eqb e KeyError).
    + destruct fill; [by eapply Hbound | by eapply IH].
    + injection Hrun as <- <-. exists acc. by rewrite insert_id.
Qed.

(** A loop that runs to its end binds keys in the order of the items. *)
Lemma adapter_loop_keys sep (l : loc) data default fill :
  forall items acc (h : heap) h',
  h !! l = Some (ODict acc) ->
  for_each items (adapter_step sep (VRef l) data default fill) h
    = (Ok tt, h') ->
  NoDup (dict_keys items) ->
  (forall k, k ∈ dict_keys acc -> k ∉ dict_keys items) ->
  exists res,
    h' !! l = Some (ODict res)
    /\ dict_keys res
       = dict_keys acc
         ++ filter (fun k => k ∈ dict_keys res) (dict_keys items)
    /\ (fill = true -> dict_keys res = dict_keys acc ++ dict_keys items).
Proof.
  induction items as [|[key location] items IH];
    intros acc h h' Hl Hrun Hnd Hdis.
  - simpl in Hrun. unfold ret in Hrun. injection Hrun as <-.
    exists acc. split; [done|].
    change (dict_keys []) with (@nil string).
    rewrite filter_nil, app_nil_r. done.
  - rewrite for_each_cons in Hrun. unfold bind in Hrun.
    pose proof (get_heap sep data location h) as Hgh.
    destruct (get sep data location h) as [out hg] eqn:Hget.
    simpl in Hgh. subst hg.
    rewrite (adapter_step_run sep l data default fill key location h acc out
               Hl Hget) in Hrun.
    change (dict_keys ((key, location) :: items))
      with (key :: dict_keys items) in *.
    apply NoDup_cons in Hnd as [Hkey Hnd].
    assert (Hkacc : key ∉ dict_keys acc).
    { intros Hin. apply (Hdis _ Hin), list_elem_of_here. }
    assert (Hbound : forall x : pyval,
      for_each items (adapter_step sep (VRef l) data default fill)
               (<[l := ODict (dict_set key x acc)]> h) = (Ok tt, h') ->
      exists res,
        h' !! l = Some (ODict res)
        /\ dict_keys res
           = dict_keys acc
             ++ filter (fun k => k ∈ dict_keys res) (key :: dict_keys items)
        /\ (fill = true ->
            dict_keys res = dict_keys acc ++ key :: dict_keys items)).
    { intros x Hrun1.
      destruct (IH _ _ h' (lookup_insert_eq _ _ _) Hrun1 Hnd)
        as (res & Hres & Hkeys & Hfill).
      { rewrite (dict_set_absent key x acc Hkacc).
        unfold dict_keys at 1. rewrite map_app. simpl.
        intros k Hk. apply elem_of_app in Hk as [Hk|Hk].
        - intros Hin. apply (Hdis _ Hk). by apply list_elem_of_further.
        - apply list_elem_of_singleton in Hk as ->. done. }
      rewrite (dict_set_absent key x acc Hkacc) in Hkeys, Hfill.
      unfold dict_keys at 2 in Hkeys. unfold dict_keys at 2 in Hfill.
      rewrite map_app, <- app_assoc in Hkeys, Hfill. simpl in Hkeys, Hfill.
      exists res. split; [done|]. split; [|done].
      rewrite filter_cons_True; [exact Hkeys|].
      rewrite Hkeys. apply elem_of_app. right. apply list_elem_of_here. }
    assert (Hskip : fill = false ->
      for_each items (adapter_step sep (VRef l) data default fill) h
        = (Ok tt, h') ->
      exists res,
        h' !! l = Some (ODict res)
        /\ dict_keys res
           = dict_keys acc
             ++ filter (fun k => k ∈ dict_keys res) (key :: dict_keys items)
        /\ (fill = true ->
            dict_keys res = dict_keys acc ++ key :: dict_keys items)).
    { intros Hfill Hrun1.
      destruct (IH _ _ h' Hl Hrun1 Hnd) as (res & Hres & Hkeys & _).
      { intros k Hk Hin. apply (Hdis _ Hk). by apply list_elem_of_further. }
      exists res. split; [done|]. split; [|by rewrite Hfill].
      rewrite filter_cons_False; [exact Hkeys|].
      rewrite Hkeys. intros Hin. apply elem_of_app in Hin as [Hin|Hin].
      - done.
      - by apply list_elem_of_filter in Hin as [_ Hin]. }
    destruct out as [v|e]; [by apply (Hbound v)|].
    destruct (exn_eqb e KeyError); [|done].
    destruct fill; [by apply (Hbound default) | by apply Hskip].
Qed.

(* ===================================================================== *)
(** ** The adapted record *)
(* ===================================================================== *)

Lemma adapted_lookup outcome default fill : forall items acc,
  NoDup (dict_keys items) ->
  fst (adapted outcome default fill items acc) = Ok tt ->
  (forall k, k ∉ dict_keys items ->
     dict_get k (snd (adapted outcome default fill items acc))
     = dict_get k acc)
  /\ (forall key location, (key, location) ∈ items ->
        match outcome location with
        | Ok v =>
            dict_get key (snd (adapted outcome default fill items acc))
            = Some v
        | Raise e =>
            e = KeyError
            /\ dict_get key (snd (adapted outcome default fill items acc))
               = if fill then Some default else dict_get key acc
        end).
Proof.
  induction items as [|[key0 loc0] items IH]; intros acc Hnd Hok.
  - split; [done|]. intros key location Hin. by apply elem_of_nil in Hin.
  - change (dict_keys ((key0, loc0) :: items))
      with (key0 :: dict_keys items) in *.
    apply NoDup_cons in Hnd as [Hk0 Hnd]. simpl in Hok |- *.
    assert (Hstep : forall acc1,
      fst (adapted outcome default fill items acc1) = Ok tt ->
      (forall k, k <> key0 -> dict_get k acc1 = dict_get k acc) ->
      (forall k, k ∉ key0 :: dict_keys items ->
         dict_get k (snd (adapted outcome default fill items acc1))
         = dict_get k acc)
      /\ (forall key location, (key, location) ∈ items ->
            match outcome location with
            | Ok v =>
                dict_get key (snd (adapted outcome default fill items acc1))
                = Some v
            | Raise e =>
                e = KeyError
                /\ dict_get key (snd (adapted outcome default fill items acc1))
                   = if fill then Some default else dict_get key acc
            end)).
    { intros acc1 Hok1 Hacc1.
      destruct (IH acc1 Hnd Hok1) as [Hout Hin]. split.
      - intros k Hk. apply not_elem_of_cons in Hk as [Hne Hk].
        rewrite Hout by done. by apply Hacc1.
      - intros key location Hitem. specialize (Hin key location Hitem).
        assert (Hne : key <> key0).
        { intros ->. apply Hk0. apply list_elem_of_fmap.
          by exists (key0, location). }
        destruct (outcome location) as [v|e]; [done|].
        destruct Hin as [-> Hin]. split; [done|]. rewrite Hin.
        destruct fill; [done|]. by apply Hacc1. }
    destruct (outcome loc0) as [v0|e0] eqn:Hout0.
    + destruct (Hstep (dict_set key0 v0 acc) Hok) as [Hother Hitems].
      { intros k Hne. by apply dict_get_set_ne. }
      split; [exact Hother|].
      intros key location Hitem.
      apply elem_of_cons in Hitem as [Heq|Hitem]; [|by apply Hitems].
      injection Heq as -> ->. rewrite Hout0.
      destruct (IH (dict_set key0 v0 acc) Hnd Hok) as [Hout _].
      rewrite Hout by done. apply dict_get_set_eq.
    + destruct e0; simpl in Hok |- *; try done.
      destruct fill.
      * destruct (Hstep (dict_set key0 default acc) Hok) as [Hother Hitems].
        { intros k Hne. by apply dict_get_set_ne. }
        split; [exact Hother|].
        intros key location Hitem.
        apply elem_of_cons in Hitem as [Heq|Hitem]; [|by apply Hitems].
        injection Heq as -> ->. rewrite Hout0. split; [done|].
        destruct (IH (dict_set key0 default acc) Hnd Hok) as [Hout _].
        rewrite Hout by done. apply dict_get_set_eq.
      * destruct (Hstep acc Hok) as [Hother Hitems]; [done|].
        split; [exact Hother|].
        intros key location Hitem.
        apply elem_of_cons in Hitem as [Heq|Hitem]; [|by apply Hitems].
        injection Heq as -> ->. rewrite Hout0. split; [done|].
        destruct (IH acc Hnd Hok) as [Hout _]. by apply Hout.
Qed.

Lemma adapted_ok outcome default fill : forall items acc,
  (forall key location, (key, location) ∈ items ->
     match outcome location with
     | Ok _ => True
     | Raise e => e = KeyError
     end) ->
  fst (adapted outcome default fill items acc) = Ok tt.
Proof.
  induction items as [|[key0 loc0] items IH]; intros acc Hall; [done|].
  simpl. pose proof (Hall key0 loc0 (list_elem_of_here _ _)) as H0.
  assert (Hall' : forall key location, (key, location) ∈ items ->
     match outcome location with
     | Ok _ => True
     | Raise e => e = KeyError
     end).
  { intros key location Hin. apply (Hall key). by apply list_elem_of_further. }
  destruct (outcome loc0) as [v|e]; [by apply IH|].
  subst e. simpl. by apply IH.
Qed.

(* ===================================================================== *)
(** ** [build_adapter] *)
(* ===================================================================== *)

Lemma build_adapter_unfold (h : heap) m items sep data default fill :
  h !! m = Some (ODict items) ->
  build_adapter (VRef m) sep data default fill h
  = match for_each items
            (adapter_step sep (VRef (fresh (dom h))) data default fill)
            (<[fresh (dom h) := ODict []]> h) with
    | (Ok _, h') => (Ok (VRef (fresh (dom h))), h')
    | (Raise e, h') => (Raise e, h')
    end.
Proof.
  intros Hm. unfold build_adapter, adapter.
  erewrite bind_ok; [|reflexivity].
  erewrite bind_ok.
  2:{ unfold dict_items. rewrite lookup_insert_ne.
      - by rewrite Hm.
      - intros Heq. pose proof (fresh_unallocated h) as Hf.
        rewrite Heq in Hf. congruence. }
  unfold bind, ret.
  by destruct (for_each items _ _) as [[[]|e] h'].
Qed.

Lemma extend_fresh (h : heap) (l : loc) o : h !! l = None -> h ⊆ <[l := o]> h.
Proof. apply insert_subseteq. Qed.

(** What the caller observes of the adapter on a closed heap [h0] is the
    record [adapted] builds from the traversals in [h0], in every heap
    that extends [h0]. *)
Lemma adapter_observe (h0 h : heap) m items sep data default fill :
  heap_closed h0 -> val_ok h0 data ->
  h0 !! m = Some (ODict items) -> h0 ⊆ h ->
  observe (build_adapter (VRef m) sep data default fill h)
  = match adapted (fun location => fst (get sep data location h0))
                  default fill items [] with
    | (Ok _, res) => Ok (Some (ODict res))
    | (Raise e, _) => Raise e
    end.
Proof.
  intros Hc Hv Hm Hext.
  rewrite (build_adapter_unfold h m items) by (by eapply lookup_weaken).
  set (l := fresh (dom h)).
  assert (Hl : h !! l = None) by apply fresh_unallocated.
  rewrite (adapter_loop_run sep l data default fill
             (fun location => fst (get sep data location h0)) h items []).
  - destruct (adapted _ default fill items []) as [[[]|e] res]; simpl; [|done].
    by rewrite lookup_insert_eq.
  - intros key location acc' _. apply get_stable.
    + etrans; [exact Hext|]. by apply extend_fresh.
    + by apply get_closed.
Qed.

(** The outcome of [get] on a location that is a str. *)
Lemma get_str sep data s path (h : heap) :
  str_split s sep = Ok path ->
  get sep data (VStr s) h = walk data path h.
Proof. intros Hs. unfold get, bind, py_split, lift. by rewrite Hs. Qed.

(** On fields that resolve, every outcome in [h] is a value or a
    [KeyError], and it is the same in every heap that extends [h]. *)
Lemma resolves_outcome (h h' : heap) sep data items key location :
  resolves h sep data items ->
  (key, location) ∈ items ->
  h ⊆ h' ->
  get sep data location h' = (fst (get sep data location h), h')
  /\ match fst (get sep data location h) with
     | Ok _ => True
     | Raise e => e = KeyError
     end.
Proof.
  intros Hres Hin Hext.
  destruct (Hres _ _ Hin) as (s & path & -> & Hs & Hcase).
  rewrite !(get_str _ _ _ _ _ Hs).
  destruct Hcase as [[v Hv]|Ha].
  - rewrite (walk_reaches h _ _ _ Hv). split; [|done].
    apply walk_reaches. by eapply reaches_mono.
  - rewrite (walk_key_absent h _ _ Ha). split; [|done].
    apply walk_key_absent. by eapply key_absent_mono.
Qed.

(** So the loop runs to its end and builds the record [adapted] computes
    from the traversals in [h]. *)
Lemma resolves_loop (h : heap) sep data default fill items (l : loc) acc
    outcome :
  outcome = (fun location => fst (get sep data location h)) ->
  resolves h sep data items ->
  h !! l = None ->
  fst (adapted outcome default fill items acc) = Ok tt
  /\ for_each items (adapter_step sep (VRef l) data default fill)
              (<[l := ODict acc]> h)
     = (Ok tt, <[l := ODict (snd (adapted outcome default fill items acc))]> h).
Proof.
  intros Hout Hres Hl.
  assert (Hok : fst (adapted outcome default fill items acc) = Ok tt).
  { apply adapted_ok. intros key location Hin. subst outcome.
    by destruct (resolves_outcome h h sep data items key location Hres Hin). }
  split; [exact Hok|].
  rewrite (adapter_loop_run sep l data default fill outcome h items acc).
  - by rewrite Hok.
  - intros key location acc' Hin. subst outcome.
    apply (resolves_outcome h _ sep data items key location Hres Hin).
    by apply extend_fresh.
Qed.

(** C1. For a mapping whose fields all resolve (each location is a str
    that splits on the separator into a path, and the traversal of the
    document along that path, [cursor = cursor[key]] for each key,
    either succeeds at every step or meets a dict that lacks the next
    key), the adapter returns a new record in
    which a field whose traversal succeeds is bound to the value reached
    (the path joined by the separator being the location),
    and a field with an absent key is omitted when [fill] is false and
    bound to [default] when [fill] is true.  With the mapping
    [{"a": "x.y"}]: the document [{"x": {"y": 5}}] gives [{"a": 5}]; the
    document [{"x": {}}] gives [{}] without [fill] and [{"a": None}]
    with [fill] and default [None]. *)
Theorem build_adapter_extracts_fields :
  (forall (h : heap) (m : loc) (items : dict) (sep : string)
          (data default : pyval) (fill : bool),
      h !! m = Some (ODict items) ->
      NoDup (dict_keys items) ->
      resolves h sep data items ->
      exists l res,
        h !! l = None
        /\ build_adapter (VRef m) sep data default fill h
           = (Ok (VRef l), <[l := ODict res]> h)
        /\ (forall key s path,
              (key, VStr s) ∈ items -> str_split s sep = Ok path ->
              String.concat sep path = s
              /\ (forall v, reaches h data path v -> dict_get key res = Some v)
              /\ (key_absent h data path ->
                  dict_get key res = if fill then Some default else None))
        /\ (forall key, key ∉ dict_keys items -> dict_get key res = None))
  /\ build_adapter (VRef 0%nat) "." (VRef 2%nat) VNone false adapter_heap
     = (Ok (VRef 6%nat), <[6%nat := ODict [("a", VInt 5)]]> adapter_heap)
  /\ build_adapter (VRef 0%nat) "." (VRef 4%nat) VNone false adapter_heap
     = (Ok (VRef 6%nat), <[6%nat := ODict []]> adapter_heap)
  /\ build_adapter (VRef 0%nat) "." (VRef 4%nat) VNone true adapter_heap
     = (Ok (VRef 6%nat), <[6%nat := ODict [("a", VNone)]]> adapter_heap).
Proof.
  split; [|repeat split; vm_compute; reflexivity].
  intros h m items sep data default fill Hm Hnd Hres.
  set (l := fresh (dom h)).
  assert (Hl : h !! l = None) by apply fresh_unallocated.
  remember (fun location => fst (get sep data location h)) as outcome
    eqn:Hout.
  destruct (resolves_loop h sep data default fill items l [] outcome
              Hout Hres Hl) as [Hok Hloop].
  destruct (adapted_lookup outcome default fill items [] Hnd Hok)
    as [Hother Hitems].
  exists l, (snd (adapted outcome default fill items [])).
  subst outcome. split; [exact Hl|]. split; [|split].
  - rewrite (build_adapter_unfold h m items) by done. fold l.
    by rewrite Hloop.
  - intros key s path Hin Hs. specialize (Hitems key (VStr s) Hin).
    cbv beta in Hitems. rewrite (get_str _ _ _ _ _ Hs) in Hitems.
    split; [by apply str_split_join|]. split.
    + intros v Hv. by rewrite (walk_reaches h _ _ _ Hv) in Hitems.
    + intros Ha. rewrite (walk_key_absent h _ _ Ha) in Hitems.
      by destruct Hitems as [_ ->].
  - intros key Hkey. by rewrite Hother.
Qed.

Lemma build_adapter_extracts_fields_witness :
  exists l res,
    build_adapter (VRef 0%nat) "." (VRef 2%nat) VNone false adapter_heap
    = (Ok (VRef l), <[l := ODict res]> adapter_heap)
    /\ dict_get "a" res = Some (VInt 5).
Proof.
  destruct (proj1 build_adapter_extracts_fields adapter_heap 0%nat
              [("a", VStr "x.y")] "." (VRef 2%nat) VNone false)
    as (l & res & _ & Hrun & Hfields & _).
  - reflexivity.
  - apply NoDup_singleton.
  - intros key location Hin. apply list_elem_of_singleton in Hin.
    injection Hin as -> ->. exists "x.y"%string, ["x"; "y"]%string.
    split; [reflexivity|]. split; [reflexivity|]. left. exists (VInt 5).
    eapply reaches_cons; [reflexivity|reflexivity|].
    eapply reaches_cons; [reflexivity|reflexivity|]. apply reaches_nil.
  - exists l, res. split; [exact Hrun|].
    apply (Hfields "a"%string "x.y"%string ["x"; "y"]%string
             (list_elem_of_here _ _) eq_refl).
    eapply reaches_cons; [reflexivity|reflexivity|].
    eapply reaches_cons; [reflexivity|reflexivity|]. apply reaches_nil.
Defined.

(* --------------------------------------------------------------------- *)

Lemma adapter_loop_malformed sep (l : loc) data default fill (h : heap)
    key s path :
  h !! l = None ->
  str_split s sep = Ok path ->
  malformed h data path ->
  forall items acc (hc : heap),
    h ⊆ hc -> hc !! l = Some (ODict acc) ->
    (key, VStr s) ∈ items ->
    exists e h',
      for_each items (adapter_step sep (VRef l) data default fill) hc
      = (Raise e, h')
      /\ e <> KeyError.
Proof.
  intros Hl Hs Hmal.
  induction items as [|[key0 loc0] items IH]; intros acc hc Hext Hacc Hin.
  - by apply elem_of_nil in Hin.
  - rewrite for_each_cons. unfold bind.
    pose proof (get_heap sep data loc0 hc) as Hgh.
    destruct (get sep data loc0 hc) as [out hg] eqn:Hget.
    simpl in Hgh. subst hg.
    rewrite (adapter_step_run sep l data default fill key0 loc0 hc acc out
               Hacc Hget).
    assert (Hnext : forall x : pyval,
      (key, VStr s) ∈ items ->
      exists e h',
        for_each items (adapter_step sep (VRef l) data default fill)
                 (<[l := ODict (dict_set key0 x acc)]> hc) = (Raise e, h')
        /\ e <> KeyError).
    { intros x Hin'. apply (IH (dict_set key0 x acc)).
      - by apply insert_subseteq_r.
      - apply lookup_insert_eq.
      - done. }
    apply elem_of_cons in Hin as [Heq|Hin].
    + injection Heq as <- <-.
      assert (out = Raise TypeError) as ->.
      { unfold get, bind, py_split, lift in Hget. rewrite Hs in Hget.
        rewrite (walk_malformed hc data path) in Hget
          by (by eapply malformed_mono).
        by injection Hget as <-. }
      simpl. by exists TypeError, hc.
    + destruct out as [v|e]; [by apply Hnext|].
      destruct (exn_eqb e KeyError) eqn:He.
      * destruct fill; [by apply Hnext | by eapply IH].
      * exists e, hc. split; [done|]. intros ->. done.
Qed.

(** C2. When the traversal of some mapped field arrives at a cursor that
    is not a mapping (a scalar or a list) while keys remain, its lookup
    raises [TypeError], which the adapter's [except KeyError] does not
    catch: the call raises an exception other than [KeyError] and returns
    no record, whatever [fill] and [default] are; the exception is that
    [TypeError] when the fields before it in the mapping resolve.  The
    mapping [{"a": "x.y"}] on the document [{"x": 5}] raises [TypeError],
    with and without [fill]. *)
Theorem build_adapter_propagates_shape_errors :
  (forall (h : heap) (m : loc) (items : dict) (sep : string)
          (data default : pyval) (fill : bool)
          (key s : string) (path : list string),
      h !! m = Some (ODict items) ->
      (key, VStr s) ∈ items ->
      str_split s sep = Ok path ->
      malformed h data path ->
      get sep data (VStr s) h = (Raise TypeError, h)
      /\ (exists e h',
            build_adapter (VRef m) sep data default fill h = (Raise e, h')
            /\ e <> KeyError)
      /\ (forall before after,
            items = before ++ (key, VStr s) :: after ->
            resolves h sep data before ->
            fst (build_adapter (VRef m) sep data default fill h)
            = Raise TypeError))
  /\ fst (build_adapter (VRef 0%nat) "." (VRef 5%nat) VNone false
            adapter_heap) = Raise TypeError
  /\ fst (build_adapter (VRef 0%nat) "." (VRef 5%nat) VNone true
            adapter_heap) = Raise TypeError.
Proof.
  split; [|split; vm_compute; reflexivity].
  intros h m items sep data default fill key s path Hm Hin Hs Hmal.
  set (l := fresh (dom h)).
  assert (Hl : h !! l = None) by apply fresh_unallocated.
  split; [|split].
  - rewrite (get_str _ _ _ _ _ Hs). by apply walk_malformed.
  - rewrite (build_adapter_unfold h m items) by done. fold l.
    destruct (adapter_loop_malformed sep l data default fill h key s path
                Hl Hs Hmal items [] (<[l := ODict []]> h))
      as (e & h' & Hrun & He).
    + by apply extend_fresh.
    + apply lookup_insert_eq.
    + done.
    + exists e, h'. by rewrite Hrun.
  - intros before after Hitems Hres.
    rewrite (build_adapter_unfold h m items) by done. fold l.
    rewrite Hitems, for_each_app.
    destruct (resolves_loop h sep data default fill before l [] _
                eq_refl Hres Hl) as [_ Hloop].
    erewrite bind_ok; [|exact Hloop].
    rewrite for_each_cons. unfold bind.
    rewrite (adapter_step_run sep l data default fill key (VStr s) _ _
               (Raise TypeError) (lookup_insert_eq _ _ _)); [done|].
    rewrite (get_str _ _ _ _ _ Hs). apply walk_malformed.
    eapply malformed_mono; [|exact Hmal]. by apply extend_fresh.
Qed.

Lemma build_adapter_propagates_shape_errors_witness :
  exists e h',
    build_adapter (VRef 0%nat) "." (VRef 5%nat) VNone false adapter_heap
    = (Raise e, h')
    /\ e <> KeyError.
Proof.
  apply (proj1 build_adapter_propagates_shape_errors adapter_heap 0%nat
           [("a", VStr "x.y")] "." (VRef 5%nat) VNone false
           "a"%string "x.y"%string ["x"; "y"]%string).
  - reflexivity.
  - apply list_elem_of_here.
  - reflexivity.
  - eapply malformed_later; [reflexivity|reflexivity|].
    apply malformed_here. exact I.
Defined.

(* --------------------------------------------------------------------- *)

(** C3. Whenever the adapter returns, the keys of the returned record are
    the keys of the mapping that the record binds, in the mapping's
    order: the order never depends on the document.  With [fill] they are
    all the keys of the mapping. *)
Theorem build_adapter_keeps_mapping_order :
  forall (h h' : heap) (m : loc) (items : dict) (sep : string)
         (data default : pyval) (fill : bool) (r : pyval),
    h !! m = Some (ODict items) ->
    NoDup (dict_keys items) ->
    build_adapter (VRef m) sep data default fill h = (Ok r, h') ->
    exists l res,
      r = VRef l /\ h !! l = None /\ h' !! l = Some (ODict res)
      /\ dict_keys res
         = filter (fun k => k ∈ dict_keys res) (dict_keys items)
      /\ (fill = true -> dict_keys res = dict_keys items).
Proof.
  intros h h' m items sep data default fill r Hm Hnd Hrun.
  rewrite (build_adapter_unfold h m items) in Hrun by done.
  set (l := fresh (dom h)) in *.
  destruct (for_each items _ _) as [[[]|e] h1] eqn:Hloop; [|done].
  injection Hrun as <- <-.
  destruct (adapter_loop_keys sep l data default fill items [] _ h1
              (lookup_insert_eq _ _ _) Hloop Hnd)
    as (res & Hres & Hkeys & Hfill).
  { intros k Hk. by apply elem_of_nil in Hk. }
  exists l, res. split; [done|]. split; [apply fresh_unallocated|].
  split; [done|]. done.
Qed.

Lemma build_adapter_keeps_mapping_order_witness :
  exists l res,
    VRef 2%nat = VRef l /\ order_heap !! l = None
    /\ <[2%nat := ODict [("b", VInt 2); ("a", VInt 1)]]> order_heap !! l
       = Some (ODict res)
    /\ dict_keys res
       = filter (fun k => k ∈ dict_keys res) ["b"; "a"; "c"]%string
    /\ (false = true -> dict_keys res = ["b"; "a"; "c"]%string).
Proof.
  apply (build_adapter_keeps_mapping_order order_heap _ 0%nat
           [("b", VStr "q"); ("a", VStr "p"); ("c", VStr "r.s")] "."
           (VRef 1%nat) VNone false (VRef 2%nat)).
  - reflexivity.
  - apply (bool_decide_unpack _). vm_compute. exact I.
  - vm_compute. reflexivity.
Defined.

(** C9. A call of the adapter writes one object only, the record it
    allocates at a location unused before the call: the mapping and every
    other object are as they were (the separator is an immutable string
    held by the closure).  Consequently, on a closed heap, what the
    adapter yields for a document, the record or the exception, is the
    same in every heap that extends the present one, and in particular
    after the adapter has been applied to any other document. *)
Theorem build_adapter_is_stateless :
  forall (h : heap) (m : loc) (items : dict) (sep : string)
         (data default : pyval) (fill : bool),
    h !! m = Some (ODict items) ->
    (exists r l res,
       build_adapter (VRef m) sep data default fill h
       = (r, <[l := ODict res]> h)
       /\ h !! l = None
       /\ <[l := ODict res]> h !! m = Some (ODict items)
       /\ h ⊆ <[l := ODict res]> h)
    /\ (heap_closed h ->
        forall (data2 default2 : pyval) (fill2 : bool),
          val_ok h data2 ->
          (forall h2 : heap, h ⊆ h2 ->
             observe (build_adapter (VRef m) sep data2 default2 fill2 h2)
             = observe (build_adapter (VRef m) sep data2 default2 fill2 h))
          /\ observe (build_adapter (VRef m) sep data2 default2 fill2
                        (snd (build_adapter (VRef m) sep data default fill h)))
             = observe (build_adapter (VRef m) sep data2 default2 fill2 h)).
Proof.
  intros h m items sep data default fill Hm.
  assert (Hcall : exists r l res,
       build_adapter (VRef m) sep data default fill h
       = (r, <[l := ODict res]> h)
       /\ h !! l = None
       /\ <[l := ODict res]> h !! m = Some (ODict items)
       /\ h ⊆ <[l := ODict res]> h).
  { rewrite (build_adapter_unfold h m items) by done.
    set (l := fresh (dom h)).
    assert (Hl : h !! l = None) by apply fresh_unallocated.
    destruct (for_each items _ _) as [r0 h1] eqn:Hloop.
    destruct (adapter_loop_frame sep l data default fill items [] _ r0 h1
                (lookup_insert_eq _ _ _) Hloop) as (res & ->).
    rewrite insert_insert_eq.
    exists (match r0 with Ok _ => Ok (VRef l) | Raise e => Raise e end), l, res.
    split; [by destruct r0 as [[]|e]|]. split; [done|].
    split; [|by apply extend_fresh].
    rewrite lookup_insert_ne; [done|]. intros <-. congruence. }
  split; [exact Hcall|].
  intros Hc data2 default2 fill2 Hv2.
  assert (Hany : forall h2 : heap, h ⊆ h2 ->
             observe (build_adapter (VRef m) sep data2 default2 fill2 h2)
             = observe (build_adapter (VRef m) sep data2 default2 fill2 h)).
  { intros h2 Hext.
    rewrite (adapter_observe h h2 m items) by done.
    by rewrite (adapter_observe h h m items). }
  split; [exact Hany|].
  destruct Hcall as (r & l & res & -> & _ & _ & Hext). by apply Hany.
Qed.

Lemma build_adapter_is_stateless_witness :
  observe (build_adapter (VRef 0%nat) "." (VRef 2%nat) VNone false
             (snd (build_adapter (VRef 0%nat) "." (VRef 4%nat) VNone true
                     adapter_heap)))
  = observe (build_adapter (VRef 0%nat) "." (VRef 2%nat) VNone false
               adapter_heap).
Proof.
  apply (proj2 (build_adapter_is_stateless adapter_heap 0%nat
                  [("a", VStr "x.y")] "." (VRef 4%nat) VNone true eq_refl)).
  - apply (bool_decide_unpack _). vm_compute. exact I.
  - apply (bool_decide_unpack _). vm_compute. exact I.
Defined.

(* ===================================================================== *)
(** ** Time conversion *)
(* ===================================================================== *)

(** C4.  The round trip through [to_millis] loses a whole millisecond on
    some instants.  One second and one millisecond after the epoch has
    the timestamp [1.001], whose binary64 product with [1000] is
    [1000.9999999999999]; [int] cuts it to [1000], so the round trip
    yields one second after the epoch although the instant is already
    a whole number of milliseconds.  The same happens at
    2004-01-10T13:37:04.001Z. *)
Theorem to_millis_round_trip_loses_a_millisecond :
  truncate_to_millis epoch_plus_1001ms = epoch_plus_1001ms
  /\ micros_since_epoch epoch_plus_1001ms = 1001000
  /\ to_millis epoch_plus_1001ms = Ok 1000
  /\ datetime_from_millis (NInt 1000)
     = Ok (mk_datetime 1970 1 1 0 0 1 0 (Some UTC))
  /\ rbind (to_millis epoch_plus_1001ms)
           (fun n => datetime_from_millis (NInt n))
     <> Ok (truncate_to_millis epoch_plus_1001ms)
  /\ to_millis jan_2004_plus_1ms = Ok 1073741824000
  /\ rbind (to_millis jan_2004_plus_1ms)
           (fun n => datetime_from_millis (NInt n))
     = Ok (mk_datetime 2004 1 10 13 37 4 0 (Some UTC)).
Proof.
  repeat split; try (vm_compute; reflexivity).
  vm_compute. discriminate.
Qed.

(** C6.  [datetime_from_str("2021-06-15T12:00:00.000000Z")] and
    [datetime_from_seconds(1623758400.0)] are the same instant, noon of
    15 June 2021, tagged UTC. *)
Theorem datetime_from_str_agrees_with_seconds :
  datetime_from_str "2021-06-15T12:00:00.000000Z"
  = Ok (mk_datetime 2021 6 15 12 0 0 0 (Some UTC))
  /\ datetime_from_seconds (F64.of_Z 1623758400)
     = Ok (mk_datetime 2021 6 15 12 0 0 0 (Some UTC))
  /\ datetime_from_str "2021-06-15T12:00:00.000000Z"
     = datetime_from_seconds (F64.of_Z 1623758400).
Proof. repeat split; vm_compute; reflexivity. Qed.

(* ===================================================================== *)
(** ** Regular expressions *)
(* ===================================================================== *)

Lemma take_consumed {A} (s1 s2 : list A) :
  take (length (s1 ++ s2) - length s2) (s1 ++ s2) = s1.
Proof.
  rewrite length_app, Nat.add_sub. by rewrite take_app_length.
Qed.

(** Every match the matcher finds is a prefix in the language. *)
Lemma re_match_sound {A} (r : re) :
  forall s (k : captures -> list ascii -> option A) a,
  re_match r s k = Some a ->
  exists s1 s2 c, s = s1 ++ s2 /\ lang r s1 c /\ k c s2 = Some a.
Proof.
  induction r as [|c|lo hi|r1 IH1 r2 IH2|r1 IH1 r2 IH2|name r IH];
    intros s k a Hm; simpl in Hm.
  - exists [], s, []. split; [done|]. split; [constructor|done].
  - destruct s as [|x s']; [done|].
    destruct (lit_matches c x) eqn:Hx; [|done].
    exists [x], s', []. split; [done|]. split; [by constructor|done].
  - destruct s as [|x s']; [done|].
    destruct (in_range lo hi x) eqn:Hx; [|done].
    exists [x], s', []. split; [done|]. split; [by constructor|done].
  - apply IH1 in Hm as (s1 & s2 & c1 & -> & H1 & Hm).
    apply IH2 in Hm as (s21 & s22 & c2 & -> & H2 & Hm).
    exists (s1 ++ s21), s22, (c1 ++ c2).
    split; [by rewrite app_assoc|]. split; [by constructor|done].
  - destruct (re_match r1 s k) as [a'|] eqn:H1.
    + injection Hm as ->.
      apply IH1 in H1 as (s1 & s2 & c & -> & H1 & Hk).
      exists s1, s2, c. split; [done|]. split; [by apply lang_alt_l|done].
    + apply IH2 in Hm as (s1 & s2 & c & -> & H2 & Hk).
      exists s1, s2, c. split; [done|]. split; [by apply lang_alt_r|done].
  - apply IH in Hm as (s1 & s2 & c & -> & H & Hk).
    rewrite take_consumed in Hk.
    exists s1, s2, ((name, s1) :: c).
    split; [done|]. split; [by constructor|done].
Qed.

(** The matcher finds a match whenever some prefix in the language lets
    the continuation succeed. *)
Lemma re_match_complete {A} r s1 c :
  lang r s1 c ->
  forall s2 (k : captures -> list ascii -> option A),
  is_Some (k c s2) -> is_Some (re_match r (s1 ++ s2) k).
Proof.
  induction 1 as [|c x Hx|lo hi x Hx|r1 r2 s1 s1' c1 c2 _ IH1 _ IH2
                  |r1 r2 s c _ IH|r1 r2 s c _ IH|name r s c _ IH];
    intros s2 k Hk; simpl.
  - done.
  - by rewrite Hx.
  - by rewrite Hx.
  - rewrite <- app_assoc. apply IH1. by apply IH2.
  - destruct (IH s2 k Hk) as [a ->]. done.
  - destruct (re_match r1 (s ++ s2) k); [done|]. by apply IH.
  - apply IH. by rewrite take_consumed.
Qed.

(* ===================================================================== *)
(** ** Characters *)
(* ===================================================================== *)

Lemma zcode_inj a b : zcode a = zcode b -> a = b.
Proof.
  unfold zcode, code. intros H. apply N2Z.inj in H.
  rewrite <- (ascii_N_embedding a), <- (ascii_N_embedding b). by rewrite H.
Qed.

Lemma zcode_of_N n : 0 <= n < 256 -> zcode (ascii_of_N (Z.to_N n)) = n.
Proof.
  intros Hn. unfold zcode, code. rewrite N_ascii_embedding by lia. lia.
Qed.

Lemma in_range_spec lo hi c :
  in_range lo hi c = true <-> zcode lo <= zcode c <= zcode hi.
Proof.
  unfold in_range, zcode. rewrite andb_true_iff, !N.leb_le. lia.
Qed.

Lemma in_range_false lo hi c :
  in_range lo hi c = false <-> ~ (zcode lo <= zcode c <= zcode hi).
Proof.
  rewrite <- in_range_spec. by destruct (in_range lo hi c).
Qed.

Lemma is_digit_spec c : is_digit c = true <-> 48 <= zcode c <= 57.
Proof. unfold is_digit. by rewrite in_range_spec. Qed.

Lemma digit_val_zcode c : digit_val c = zcode c - 48.
Proof. reflexivity. Qed.

Lemma zcode_lower c :
  zcode (lower c) = if in_range "A" "Z" c then zcode c + 32 else zcode c.
Proof.
  unfold lower. destruct (in_range "A" "Z" c) eqn:Hc; [|done].
  apply in_range_spec in Hc. change (zcode "A") with 65 in Hc.
  change (zcode "Z") with 90 in Hc.
  replace (code c + 32)%N with (Z.to_N (zcode c + 32))
    by (unfold zcode; lia).
  apply zcode_of_N. lia.
Qed.

Lemma lit_matches_spec c x :
  lit_matches c x = true <-> zcode (lower c) = zcode (lower x).
Proof. unfold lit_matches, zcode. rewrite N.eqb_eq. lia. Qed.

(** A literal that is not a letter matches itself only; a capital letter
    matches itself and its small form. *)
Lemma lit_matches_plain c x :
  in_range "A" "Z" c = false -> in_range "a" "z" c = false ->
  (lit_matches c x = true <-> x = c).
Proof.
  intros HA Ha. rewrite lit_matches_spec, !zcode_lower, HA.
  apply in_range_false in HA, Ha.
  change (zcode "A") with 65 in *. change (zcode "Z") with 90 in *.
  change (zcode "a") with 97 in *. change (zcode "z") with 122 in *.
  split.
  - destruct (in_range "A" "Z" x) eqn:Hx.
    + apply in_range_spec in Hx. change (zcode "A") with 65 in *.
      change (zcode "Z") with 90 in *. lia.
    + intros H. symmetry. by apply zcode_inj.
  - intros ->. destruct (in_range "A" "Z" c) eqn:Hc; [|done].
    apply in_range_spec in Hc. change (zcode "A") with 65 in *.
    change (zcode "Z") with 90 in *. lia.
Qed.

Lemma lit_matches_capital c x :
  in_range "A" "Z" c = true ->
  (lit_matches c x = true <-> x = c \/ zcode x = zcode c + 32).
Proof.
  intros HA. rewrite lit_matches_spec, !zcode_lower, HA.
  apply in_range_spec in HA.
  change (zcode "A") with 65 in *. change (zcode "Z") with 90 in *.
  destruct (in_range "A" "Z" x) eqn:Hx.
  - apply in_range_spec in Hx. change (zcode "A") with 65 in *.
    change (zcode "Z") with 90 in *. split.
    + intros H. left. symmetry. apply zcode_inj. lia.
    + intros [->|H]; lia.
  - apply in_range_false in Hx. change (zcode "A") with 65 in *.
    change (zcode "Z") with 90 in *. split.
    + intros H. right. lia.
    + intros [->|H]; lia.
Qed.

Lemma lit_T x : lit_matches "T" x = true <-> x = "T"%char \/ x = "t"%char.
Proof.
  rewrite lit_matches_capital by reflexivity. split.
  - intros [->|H]; [by left|]. right. by apply zcode_inj.
  - intros [->| ->]; [by left | by right].
Qed.

Lemma lit_Z x : lit_matches "Z" x = true <-> x = "Z"%char \/ x = "z"%char.
Proof.
  rewrite lit_matches_capital by reflexivity. split.
  - intros [->|H]; [by left|]. right. by apply zcode_inj.
  - intros [->| ->]; [by left | by right].
Qed.

(* ===================================================================== *)
(** ** The fields of the format *)
(* ===================================================================== *)

(** Replace the code points of literal characters by their values. *)
Ltac zcodes :=
  repeat match goal with
  | H : context [zcode (Ascii ?a ?b ?c ?d ?e ?f ?g ?h)] |- _ =>
      let v := eval vm_compute in (zcode (Ascii a b c d e f g h)) in
      change (zcode (Ascii a b c d e f g h)) with v in H
  | |- context [zcode (Ascii ?a ?b ?c ?d ?e ?f ?g ?h)] =>
      let v := eval vm_compute in (zcode (Ascii a b c d e f g h)) in
      change (zcode (Ascii a b c d e f g h)) with v
  end.

(** Turn what is known of the characters into arithmetic on code points. *)
Ltac chars :=
  repeat match goal with
  | H : lit_matches _ _ = true |- _ =>
      apply lit_matches_plain in H; [subst | reflexivity | reflexivity]
  | H : in_range _ _ _ = true |- _ => apply in_range_spec in H
  | H : is_digit _ = true |- _ => apply is_digit_spec in H
  | H : Forall _ (_ :: _) |- _ => apply Forall_cons in H as [? ?]
  | H : Forall _ [] |- _ => clear H
  end; zcodes.

(** Take a match of a field's regular expression apart. *)
Ltac lang_inv :=
  repeat match goal with
  | H : lang (Seq _ _) _ _ |- _ => inversion H; subst; clear H
  | H : lang (Alt _ _) _ _ |- _ => inversion H; subst; clear H
  | H : lang (Lit _) _ _ |- _ => inversion H; subst; clear H
  | H : lang (Cls _ _) _ _ |- _ => inversion H; subst; clear H
  | H : lang Eps _ _ |- _ => inversion H; subst; clear H
  | H : lang d1 _ _ |- _ => unfold d1 in H
  end.

(** A short string of known length, character by character. *)
Ltac by_length s :=
  match goal with
  | H : digits _ _ s |- _ =>
      destruct H as (? & ? & ?);
      repeat (let x := fresh "x" in destruct s as [|x s]; simpl in *; try lia)
  end.

Ltac digits_goal :=
  split; [repeat constructor; apply is_digit_spec; lia | simpl; lia].

Ltac decimals :=
  unfold decimal in *; cbn [fold_left] in *;
  rewrite ?digit_val_zcode in *; zcodes.

Ltac decimal_goal := decimals; lia.

Ltac lit_goal := apply lang_lit; apply lit_matches_plain; reflexivity.
Ltac cls_goal := apply lang_cls; apply in_range_spec; zcodes; lia.

Lemma zcode_eq c n :
  zcode c = n -> 0 <= n < 256 -> c = ascii_of_N (Z.to_N n).
Proof.
  intros H Hn. apply zcode_inj. by rewrite zcode_of_N.
Qed.

(** The character [x] has code point [n]. *)
Ltac char_is x n :=
  let Hx := fresh "Hx" in
  assert (Hx : zcode x = n) by lia;
  apply zcode_eq in Hx; [|lia]; vm_compute in Hx; subst x; zcodes.

Ltac seq2 := apply (lang_seq _ _ [_] [_] [] []).

Lemma lang_month r s c :
  directive "m" = Some (Grp "m" r) ->
  lang r s c <-> c = [] /\ digits 1 2 s /\ 1 <= decimal s <= 12.
Proof.
  intros Hr. injection Hr as <-. split.
  - intros H. lang_inv; chars; simpl; (split; [done|]);
      (split; [digits_goal | decimal_goal]).
  - intros (-> & Hd & Hv). by_length s; chars; decimals.
    + apply lang_alt_r, lang_alt_r. cls_goal.
    + assert (zcode x = 48 \/ zcode x = 49) as [Hx|Hx] by lia.
      * char_is x 48. apply lang_alt_r, lang_alt_l.
        seq2; [lit_goal | cls_goal].
      * char_is x 49. apply lang_alt_l. seq2; [lit_goal | cls_goal].
Qed.

Lemma lang_day r s c :
  directive "d" = Some (Grp "d" r) ->
  lang r s c
  <-> c = [] /\ ((digits 1 2 s /\ 1 <= decimal s <= 31) \/ padded s).
Proof.
  intros Hr. injection Hr as <-. split.
  - intros H. lang_inv; chars; simpl; (split; [done|]).
    1-4: left; (split; [digits_goal | decimal_goal]).
    right. eexists. split; [reflexivity|]. apply in_range_spec.
    zcodes. lia.
  - intros (-> & [[Hd Hv]|(x & -> & Hx)]).
    + by_length s; chars; decimals.
      * do 3 apply lang_alt_r. apply lang_alt_l. cls_goal.
      * assert (zcode x = 48 \/ (49 <= zcode x <= 50) \/ zcode x = 51)
          as [Hx|[Hx|Hx]] by lia.
        -- char_is x 48. do 2 apply lang_alt_r. apply lang_alt_l.
           seq2; [lit_goal | cls_goal].
        -- apply lang_alt_r, lang_alt_l. seq2; cls_goal.
        -- char_is x 51. apply lang_alt_l. seq2; [lit_goal | cls_goal].
    + do 4 apply lang_alt_r. seq2; [lit_goal | by apply lang_cls].
Qed.

Lemma lang_hour r s c :
  directive "H" = Some (Grp "H" r) ->
  lang r s c <-> c = [] /\ digits 1 2 s /\ decimal s <= 23.
Proof.
  intros Hr. injection Hr as <-. split.
  - intros H. lang_inv; chars; simpl; (split; [done|]);
      (split; [digits_goal | decimal_goal]).
  - intros (-> & Hd & Hv). by_length s; chars; decimals.
    + apply lang_alt_r, lang_alt_r. cls_goal.
    + assert (zcode x <= 49 \/ zcode x = 50) as [Hx|Hx] by lia.
      * apply lang_alt_r, lang_alt_l. seq2; cls_goal.
      * char_is x 50. apply lang_alt_l. seq2; [lit_goal | cls_goal].
Qed.

Lemma lang_minute r s c :
  directive "M" = Some (Grp "M" r) ->
  lang r s c <-> c = [] /\ digits 1 2 s /\ decimal s <= 59.
Proof.
  intros Hr. injection Hr as <-. split.
  - intros H. lang_inv; chars; simpl; (split; [done|]);
      (split; [digits_goal | decimal_goal]).
  - intros (-> & Hd & Hv). by_length s; chars; decimals.
    + apply lang_alt_r. cls_goal.
    + apply lang_alt_l. seq2; cls_goal.
Qed.

Lemma lang_second r s c :
  directive "S" = Some (Grp "S" r) ->
  lang r s c <-> c = [] /\ digits 1 2 s /\ decimal s <= 61.
Proof.
  intros Hr. injection Hr as <-. split.
  - intros H. lang_inv; chars; simpl; (split; [done|]);
      (split; [digits_goal | decimal_goal]).
  - intros (-> & Hd & Hv). by_length s; chars; decimals.
    + apply lang_alt_r, lang_alt_r. cls_goal.
    + assert (zcode x <= 53 \/ zcode x = 54) as [Hx|Hx] by lia.
      * apply lang_alt_r, lang_alt_l. seq2; cls_goal.
      * char_is x 54. apply lang_alt_l. seq2; [lit_goal | cls_goal].
Qed.

Lemma lang_year r s c :
  directive "Y" = Some (Grp "Y" r) ->
  lang r s c <-> c = [] /\ digits 4 4 s.
Proof.
  intros Hr. injection Hr as <-. split.
  - intros H. lang_inv; chars; simpl; (split; [done|]); digits_goal.
  - intros (-> & Hd). by_length s; chars.
    apply (lang_seq _ _ [_] [_; _; _] [] []); [cls_goal|].
    apply (lang_seq _ _ [_] [_; _] [] []); [cls_goal|].
    seq2; cls_goal.
Qed.

(** A run of digits against the unfolded repetition. *)
Ltac digit_run :=
  first [ apply lang_eps
        | apply lang_alt_r; apply lang_eps
        | apply lang_alt_l; apply (lang_seq _ _ [_] _ [] []);
          [cls_goal | digit_run]
        | apply (lang_seq _ _ [_] _ [] []); [cls_goal | digit_run] ].

Lemma lang_fraction r s c :
  directive "f" = Some (Grp "f" r) ->
  lang r s c <-> c = [] /\ digits 1 6 s.
Proof.
  intros Hr. injection Hr as <-. cbv [rep rep_upto]. split.
  - intros H. lang_inv; chars; simpl; (split; [done|]); digits_goal.
  - intros (-> & Hd). by_length s; chars; digit_run.
Qed.

(* ===================================================================== *)
(** ** The language of the format *)
(* ===================================================================== *)

Lemma pattern_format :
  pattern (list_ascii_of_string "%Y-%m-%dT%H:%M:%S.%fZ") = Some format_regex.
Proof. reflexivity. Qed.

(** Take a match of the format apart, down to its fields. *)
Ltac format_inv :=
  repeat match goal with
  | H : lang (Seq (Grp _ _) _) _ _ |- _ => inversion H; subst; clear H
  | H : lang (Seq (Lit _) _) _ _ |- _ => inversion H; subst; clear H
  | H : lang (Grp _ _) _ _ |- _ => inversion H; subst; clear H
  | H : lang (Lit _) _ _ |- _ => inversion H; subst; clear H
  | H : lang Eps _ _ |- _ => inversion H; subst; clear H
  end.

Lemma lang_format s c :
  lang format_regex s c
  <-> exists p, s = stamp_text p /\ stamp_matches p /\ c = stamp_captures p.
Proof.
  split.
  - intros H. vm_compute in H. format_inv.
    repeat match goal with
    | H : lit_matches "T" _ = true |- _ => apply lit_T in H
    | H : lit_matches "Z" _ = true |- _ => apply lit_Z in H
    | H : lit_matches _ _ = true |- _ =>
        apply lit_matches_plain in H; [subst | reflexivity | reflexivity]
    end.
    match goal with
    | HY : lang _ ?Y ?cY, Hm : lang _ ?m ?cm, Hd : lang _ ?d ?cd,
      HH : lang _ ?H ?cH, HM : lang _ ?M ?cM, HS : lang _ ?S ?cS,
      Hf : lang _ ?f ?cf, HT : ?T = "T"%char \/ _, HZ : ?Z = "Z"%char \/ _
      |- exists _, ?Y ++ _ = _ /\ _ =>
        apply (lang_year _ _ _ eq_refl) in HY as [-> HY];
        apply (lang_month _ _ _ eq_refl) in Hm as [-> Hm];
        apply (lang_day _ _ _ eq_refl) in Hd as [-> Hd];
        apply (lang_hour _ _ _ eq_refl) in HH as [-> HH];
        apply (lang_minute _ _ _ eq_refl) in HM as [-> HM];
        apply (lang_second _ _ _ eq_refl) in HS as [-> HS];
        apply (lang_fraction _ _ _ eq_refl) in Hf as [-> Hf];
        exists (mk_stamp Y m d T H M S f Z)
    end.
    split; [|split].
    + reflexivity.
    + unfold stamp_matches. simpl. tauto.
    + reflexivity.
  - intros (p & -> & Hp & ->). destruct p as [Y m d T H M S f Z].
    unfold stamp_matches in Hp. simpl in Hp.
    destruct Hp as (HY & Hm & Hd & HT & HH & HM & HS & Hf & HZ).
    unfold stamp_text, stamp_captures. simpl.
    apply (lang_seq _ _ Y _ [_] _).
    { apply lang_grp. by apply (lang_year _ _ _ eq_refl). }
    apply (lang_seq _ _ [_] _ [] _); [lit_goal|].
    apply (lang_seq _ _ m _ [_] _).
    { apply lang_grp. by apply (lang_month _ _ _ eq_refl). }
    apply (lang_seq _ _ [_] _ [] _); [lit_goal|].
    apply (lang_seq _ _ d _ [_] _).
    { apply lang_grp. by apply (lang_day _ _ _ eq_refl). }
    apply (lang_seq _ _ [_] _ [] _); [by apply lang_lit, lit_T|].
    apply (lang_seq _ _ H _ [_] _).
    { apply lang_grp. by apply (lang_hour _ _ _ eq_refl). }
    apply (lang_seq _ _ [_] _ [] _); [lit_goal|].
    apply (lang_seq _ _ M _ [_] _).
    { apply lang_grp. by apply (lang_minute _ _ _ eq_refl). }
    apply (lang_seq _ _ [_] _ [] _); [lit_goal|].
    apply (lang_seq _ _ S _ [_] _).
    { apply lang_grp. by apply (lang_second _ _ _ eq_refl). }
    apply (lang_seq _ _ [_] _ [] _); [lit_goal|].
    apply (lang_seq _ _ f _ [_] _).
    { apply lang_grp. by apply (lang_fraction _ _ _ eq_refl). }
    apply (lang_seq _ _ [_] [] [] []); [by apply lang_lit, lit_Z|].
    apply lang_eps.
Qed.

(* ===================================================================== *)
(** ** A text has one reading *)
(* ===================================================================== *)

Lemma split_unique (a : list ascii) : forall a' x x' r r',
  Forall field_char a -> Forall field_char a' ->
  ~ field_char x -> ~ field_char x' ->
  a ++ x :: r = a' ++ x' :: r' ->
  a = a' /\ x = x' /\ r = r'.
Proof.
  induction a as [|c a IH]; intros a' x x' r r' Ha Ha' Hx Hx' Heq.
  - destruct a' as [|c' a']; simpl in Heq.
    + by injection Heq as -> ->.
    + injection Heq as -> _. apply Forall_cons in Ha' as [Hc _]. done.
  - destruct a' as [|c' a']; simpl in Heq.
    + injection Heq as -> _. apply Forall_cons in Ha as [Hc _]. done.
    + injection Heq as -> Heq.
      apply Forall_cons in Ha as [_ Ha]. apply Forall_cons in Ha' as [_ Ha'].
      destruct (IH a' x x' r r' Ha Ha' Hx Hx' Heq) as (-> & -> & ->). done.
Qed.

Lemma digits_field_chars lo hi s : digits lo hi s -> Forall field_char s.
Proof.
  intros [H _]. eapply Forall_impl; [exact H|]. intros c Hc. by left.
Qed.

Lemma padded_field_chars s : padded s -> Forall field_char s.
Proof.
  intros (c & -> & Hc). apply Forall_cons. split; [by right|].
  apply Forall_cons. split; [|by apply Forall_nil].
  left. apply is_digit_spec. apply in_range_spec in Hc. zcodes. lia.
Qed.

Lemma not_field_char c :
  ~ (48 <= zcode c <= 57) -> zcode c <> 32 -> ~ field_char c.
Proof.
  intros Hd Hs [H| ->].
  - by apply is_digit_spec in H.
  - by apply Hs.
Qed.

Ltac separator :=
  apply not_field_char; zcodes; lia.

Lemma stamp_text_unique p p' t t' :
  stamp_matches p -> stamp_matches p' ->
  stamp_text p ++ t = stamp_text p' ++ t' ->
  p = p' /\ t = t'.
Proof.
  destruct p as [Y m d T H M S f Z].
  destruct p' as [Y' m' d' T' H' M' S' f' Z'].
  unfold stamp_matches, stamp_text. simpl.
  intros (HY & [Hm _] & Hd & HT & [HH _] & [HM _] & [HS _] & Hf & HZ).
  intros (HY' & [Hm' _] & Hd' & HT' & [HH' _] & [HM' _] & [HS' _] & Hf' & HZ').
  repeat (rewrite <- ?app_assoc, <- ?app_comm_cons).
  assert (Hdc : Forall field_char d).
  { destruct Hd as [[Hd _]|Hd];
      [by eapply digits_field_chars | by apply padded_field_chars]. }
  assert (Hdc' : Forall field_char d').
  { destruct Hd' as [[Hd' _]|Hd'];
      [by eapply digits_field_chars | by apply padded_field_chars]. }
  assert (HTc : ~ field_char T) by (destruct HT as [-> | ->]; separator).
  assert (HTc' : ~ field_char T') by (destruct HT' as [-> | ->]; separator).
  assert (HZc : ~ field_char Z) by (destruct HZ as [-> | ->]; separator).
  assert (HZc' : ~ field_char Z') by (destruct HZ' as [-> | ->]; separator).
  intros Heq.
  apply split_unique in Heq as (-> & _ & Heq);
    [|by eapply digits_field_chars..|separator|separator].
  apply split_unique in Heq as (-> & _ & Heq);
    [|by eapply digits_field_chars..|separator|separator].
  apply split_unique in Heq as (-> & -> & Heq); [|done..].
  apply split_unique in Heq as (-> & _ & Heq);
    [|by eapply digits_field_chars..|separator|separator].
  apply split_unique in Heq as (-> & _ & Heq);
    [|by eapply digits_field_chars..|separator|separator].
  apply split_unique in Heq as (-> & _ & Heq);
    [|by eapply digits_field_chars..|separator|separator].
  apply split_unique in Heq as (-> & -> & Heq);
    [|by eapply digits_field_chars..|done|done].
  simpl in Heq. by subst.
Qed.

(** What [re.match] finds for the format, against the readings of the
    whole string. *)
Lemma format_match s :
  match re_match format_regex s (fun caps rest => Some (caps, rest)) with
  | Some (c, []) =>
      exists p, s = stamp_text p /\ stamp_matches p /\ c = stamp_captures p
  | _ => ~ exists p, s = stamp_text p /\ stamp_matches p
  end.
Proof.
  destruct (re_match format_regex s _) as [[c rest]|] eqn:Hm.
  - apply re_match_sound in Hm as (s1 & s2 & c' & -> & Hl & Hk).
    injection Hk as -> ->.
    apply lang_format in Hl as (p1 & -> & Hp1 & ->).
    destruct rest as [|x rest].
    + exists p1. by rewrite app_nil_r.
    + intros (p & Heq & Hp).
      rewrite <- (app_nil_r (stamp_text p)) in Heq.
      by destruct (stamp_text_unique _ _ _ _ Hp1 Hp Heq) as [_ ?].
  - intros (p & -> & Hp).
    assert (Hl : lang format_regex (stamp_text p) (stamp_captures p)).
    { apply lang_format. by exists p. }
    destruct (re_match_complete _ _ _ Hl []
                (fun caps rest => Some (caps, rest))) as [a Ha]; [done|].
    rewrite app_nil_r in Ha. congruence.
Qed.

(* ===================================================================== *)
(** ** [int] on the captured groups *)
(* ===================================================================== *)

Lemma is_int_space_spec c :
  is_int_space c = true
  <-> 9 <= zcode c <= 13 \/ zcode c = 32
      \/ zcode c = 133 \/ zcode c = 160.
Proof.
  unfold is_int_space, zcode.
  rewrite !orb_true_iff, !andb_true_iff, !N.leb_le, !N.eqb_eq. lia.
Qed.

Lemma digit_not_space c : is_digit c = true -> is_int_space c = false.
Proof.
  intros Hc. apply is_digit_spec in Hc.
  destruct (is_int_space c) eqn:Hs; [|done].
  apply is_int_space_spec in Hs. lia.
Qed.

Lemma strip_left_digits s :
  Forall (fun c => is_digit c = true) s -> strip_left s = s.
Proof.
  destruct 1 as [|c s Hc _]; simpl; [done|].
  by rewrite (digit_not_space c Hc).
Qed.

Lemma strip_digits s :
  Forall (fun c => is_digit c = true) s -> strip s = s.
Proof.
  intros Hs. unfold strip. rewrite (strip_left_digits s Hs).
  rewrite strip_left_digits by (by apply Forall_reverse).
  apply reverse_involutive.
Qed.

Lemma digits_value_digits s : forall acc prev,
  Forall (fun c => is_digit c = true) s ->
  digits_value s acc prev
  = match s with
    | [] => if prev then Some acc else None
    | _ => Some (fold_left (fun a c => a * 10 + digit_val c) s acc)
    end.
Proof.
  induction s as [|c s IH]; intros acc prev Hs; simpl; [done|].
  apply Forall_cons in Hs as [Hc Hs]. rewrite Hc, (IH _ _ Hs).
  by destruct s.
Qed.

Lemma digit_not_sign c :
  is_digit c = true -> Ascii.eqb c "-" = false /\ Ascii.eqb c "+" = false.
Proof.
  intros Hc. split.
  - destruct (Ascii.eqb_spec c "-") as [->|]; [discriminate Hc | done].
  - destruct (Ascii.eqb_spec c "+") as [->|]; [discriminate Hc | done].
Qed.

Lemma int_of_str_digits s :
  Forall (fun c => is_digit c = true) s -> s <> [] ->
  int_of_str s = Ok (decimal s).
Proof.
  intros Hs Hne. unfold int_of_str. rewrite (strip_digits s Hs).
  destruct s as [|c s]; [done|].
  pose proof Hs as Hs'. apply Forall_cons in Hs' as [Hc _].
  destruct (digit_not_sign c Hc) as [-> ->].
  by rewrite (digits_value_digits _ _ _ Hs).
Qed.

Lemma digits_nonempty lo hi s : digits (S lo) hi s -> s <> [].
Proof. intros (_ & Hlen & _) ->. simpl in Hlen. lia. Qed.

Lemma int_of_str_day d :
  digits 1 2 d \/ padded d -> int_of_str d = Ok (decimal (strip_left d)).
Proof.
  intros [Hd|(c & -> & Hc)].
  - rewrite (strip_left_digits d) by apply Hd.
    apply int_of_str_digits; [apply Hd | by eapply digits_nonempty].
  - assert (Hdc : is_digit c = true).
    { apply is_digit_spec. apply in_range_spec in Hc. zcodes. lia. }
    unfold int_of_str, strip.
    change (strip_left [" "%char; c]) with (strip_left [c]).
    rewrite (strip_left_digits [c]) by (by repeat constructor).
    change (reverse [c]) with [c].
    rewrite (strip_left_digits [c]) by (by repeat constructor).
    change (reverse [c]) with [c].
    destruct (digit_not_sign c Hdc) as [-> ->]. simpl. by rewrite Hdc.
Qed.

Lemma decimal_zeros s n :
  decimal (s ++ replicate n "0"%char) = decimal s * 10 ^ Z.of_nat n.
Proof.
  unfold decimal. rewrite fold_left_app.
  generalize (fold_left (fun a c => a * 10 + digit_val c) s 0).
  induction n as [|n IH]; intros z.
  - simpl. lia.
  - cbn [replicate fold_left]. rewrite IH.
    change (digit_val "0") with 0.
    rewrite Nat2Z.inj_succ, Z.pow_succ_r by lia. lia.
Qed.

Lemma int_of_str_fraction f :
  digits 1 6 f ->
  int_of_str (f ++ replicate (6 - length f) "0"%char)
  = Ok (decimal f * 10 ^ Z.of_nat (6 - length f)).
Proof.
  intros Hf. rewrite int_of_str_digits.
  - by rewrite decimal_zeros.
  - apply Forall_app. split; [apply Hf|]. by apply Forall_replicate.
  - pose proof (digits_nonempty _ _ _ Hf). by destruct f.
Qed.

(* ===================================================================== *)
(** ** [datetime_new] *)
(* ===================================================================== *)

Lemma datetime_new_spec y m d hh mm ss us t dt :
  datetime_new y m d hh mm ss us t = Ok dt
  <-> (1 <= y <= 9999 /\ 1 <= m <= 12 /\ 1 <= d <= _days_in_month y m
       /\ 0 <= hh <= 23 /\ 0 <= mm <= 59 /\ 0 <= ss <= 59
       /\ 0 <= us <= 999999)
      /\ dt = mk_datetime y m d hh mm ss us t.
Proof.
  unfold datetime_new, MINYEAR, MAXYEAR.
  repeat match goal with
  | |- context [?a <=? ?b] => destruct (Z.leb_spec a b); simpl
  end;
  (split; [intros Hdt; try discriminate Hdt | intros [Hr ->]; try lia]).
  - injection Hdt as <-. split; [lia|done].
  - done.
Qed.

Lemma datetime_new_raises y m d hh mm ss us t e :
  datetime_new y m d hh mm ss us t = Raise e -> e = ValueError.
Proof.
  unfold datetime_new.
  repeat match goal with
  | |- context [negb ?b] => destruct b; simpl
  end; intros H; by inversion H.
Qed.

Lemma days_in_month_le_31 y m : 1 <= m <= 12 -> _days_in_month y m <= 31.
Proof.
  intros Hm. unfold _days_in_month.
  destruct ((m =? 2) && _is_leap y); [lia|].
  assert (m = 1 \/ m = 2 \/ m = 3 \/ m = 4 \/ m = 5 \/ m = 6 \/ m = 7
          \/ m = 8 \/ m = 9 \/ m = 10 \/ m = 11 \/ m = 12) as Hcases by lia.
  repeat (destruct Hcases as [->|Hcases]; [simpl; lia|]).
  subst m. simpl. lia.
Qed.

(* ===================================================================== *)
(** ** [datetime_from_str] *)
(* ===================================================================== *)

Lemma strptime_unfold s :
  strptime s "%Y-%m-%dT%H:%M:%S.%fZ"
  = match re_match format_regex (list_ascii_of_string s)
                   (fun caps rest => Some (caps, rest)) with
    | Some (found, []) => datetime_of_groups found
    | _ => Raise ValueError
    end.
Proof.
  unfold strptime. rewrite pattern_format.
  by destruct (re_match format_regex _ _) as [[found [|x rest]]|].
Qed.

Lemma groups_of_stamp p :
  stamp_matches p ->
  datetime_of_groups (stamp_captures p)
  = datetime_new (decimal (st_year p)) (decimal (st_month p))
                 (decimal (strip_left (st_day p)))
                 (decimal (st_hour p)) (decimal (st_minute p))
                 (decimal (st_second p))
                 (decimal (st_fraction p)
                  * 10 ^ Z.of_nat (6 - length (st_fraction p)))
                 None.
Proof.
  destruct p as [Y m d T H M S f Z]. unfold stamp_matches. simpl.
  intros (HY & [Hm _] & Hd & _ & [HH _] & [HM _] & [HS _] & Hf & _).
  unfold datetime_of_groups, int_group, fraction_group, stamp_captures.
  cbn.
  rewrite (int_of_str_digits Y) by (apply HY || by eapply digits_nonempty).
  rewrite (int_of_str_digits m) by (apply Hm || by eapply digits_nonempty).
  rewrite (int_of_str_day d).
  2:{ destruct Hd as [[Hd _]|Hd]; [by left | by right]. }
  rewrite (int_of_str_digits H) by (apply HH || by eapply digits_nonempty).
  rewrite (int_of_str_digits M) by (apply HM || by eapply digits_nonempty).
  rewrite (int_of_str_digits S) by (apply HS || by eapply digits_nonempty).
  rewrite (int_of_str_fraction f Hf). reflexivity.
Qed.

Lemma matches_well_formed p : stamp_matches p -> stamp_well_formed p.
Proof. unfold stamp_matches, stamp_well_formed. tauto. Qed.

(** A well-formed text whose numbers are a date and a time of day is in
    the language of the format. *)
Lemma well_formed_valid_matches p dt :
  stamp_well_formed p -> stamp_datetime p = Ok dt -> stamp_matches p.
Proof.
  destruct p as [Y m d T H M S f Z].
  unfold stamp_well_formed, stamp_datetime, stamp_matches. simpl.
  intros (HY & Hm & Hd & HT & HH & HM & HS & Hf & HZ) Hdt.
  apply datetime_new_spec in Hdt as [(_ & Hvm & Hvd & HvH & HvM & HvS & _) _].
  pose proof (days_in_month_le_31 (decimal Y) _ Hvm).
  split; [done|]. split; [split; [done|lia]|]. split.
  { destruct Hd as [Hd|Hd]; [left|by right].
    rewrite (strip_left_digits d) in Hvd by apply Hd. split; [done|lia]. }
  split; [done|]. split; [split; [done|lia]|].
  split; [split; [done|lia]|]. split; [split; [done|lia]|]. done.
Qed.

Lemma datetime_from_str_reads s dt :
  datetime_from_str s = Ok dt
  <-> exists p, list_ascii_of_string s = stamp_text p
                /\ stamp_well_formed p /\ stamp_datetime p = Ok dt.
Proof.
  unfold datetime_from_str. rewrite strptime_unfold.
  pose proof (format_match (list_ascii_of_string s)) as Hm.
  assert (Hnone : (~ exists p, list_ascii_of_string s = stamp_text p
                              /\ stamp_matches p) ->
                  Raise ValueError = Ok dt
                  <-> exists p, list_ascii_of_string s = stamp_text p
                        /\ stamp_well_formed p /\ stamp_datetime p = Ok dt).
  { intros Hno. split; [done|]. intros (p & Hs & Hwf & Hdt).
    exfalso. apply Hno. exists p. split; [done|].
    by eapply well_formed_valid_matches. }
  destruct (re_match format_regex _ _) as [[found [|x rest]]|];
    [|by apply Hnone..].
  destruct Hm as (p & Hs & Hp & ->). rewrite (groups_of_stamp p Hp).
  split.
  - intros Hdt.
    destruct (datetime_new _ _ _ _ _ _ _ None) as [dt0|e] eqn:Hn;
      [|discriminate Hdt].
    simpl in Hdt. injection Hdt as <-.
    exists p. split; [done|]. split; [by apply matches_well_formed|].
    unfold stamp_datetime.
    apply datetime_new_spec in Hn as [Hr ->].
    by apply datetime_new_spec.
  - intros (p' & Hs' & Hwf' & Hdt').
    assert (Hp' : stamp_matches p') by (by eapply well_formed_valid_matches).
    assert (p = p') as <-.
    { rewrite Hs' in Hs.
      rewrite <- (app_nil_r (stamp_text p)), <- (app_nil_r (stamp_text p'))
        in Hs.
      symmetry in Hs. by destruct (stamp_text_unique _ _ _ _ Hp Hp' Hs). }
    unfold stamp_datetime in Hdt'.
    apply datetime_new_spec in Hdt' as [Hr ->].
    by rewrite (proj2 (datetime_new_spec _ _ _ _ _ _ _ None _)
                      (conj Hr eq_refl)).
Qed.

Lemma int_of_str_raises s e : int_of_str s = Raise e -> e = ValueError.
Proof.
  unfold int_of_str.
  destruct (match strip s with
            | [] => (false, strip s)
            | c :: r => _
            end) as [neg ds].
  destruct (digits_value ds 0 false); intros H; by inversion H.
Qed.

Lemma rbind_raises {A B} (r : result A) (f : A -> result B) e :
  (r = Raise e -> e = ValueError) ->
  (forall a, f a = Raise e -> e = ValueError) ->
  rbind r f = Raise e -> e = ValueError.
Proof.
  destruct r as [a|e']; simpl; intros Hr Hf H.
  - exact (Hf a H).
  - apply Hr. by injection H as ->.
Qed.

Lemma int_group_raises name dflt found e :
  int_group name dflt found = Raise e -> e = ValueError.
Proof.
  unfold int_group. destruct (group name found).
  - apply int_of_str_raises.
  - intros H. inversion H.
Qed.

Lemma datetime_of_groups_raises found e :
  datetime_of_groups found = Raise e -> e = ValueError.
Proof.
  unfold datetime_of_groups.
  repeat (apply rbind_raises; [apply int_group_raises|intros ?]).
  apply rbind_raises.
  - unfold fraction_group. destruct (group "f" found).
    + apply int_of_str_raises.
    + intros H. inversion H.
  - intros us. apply datetime_new_raises.
Qed.

Lemma datetime_from_str_raises s e :
  datetime_from_str s = Raise e -> e = ValueError.
Proof.
  unfold datetime_from_str. rewrite strptime_unfold.
  apply rbind_raises; [|intros dt H; inversion H].
  destruct (re_match format_regex _ _) as [[found [|x rest]]|];
    try (intros H; by inversion H).
  apply datetime_of_groups_raises.
Qed.

Lemma stamp_text_last p : last (stamp_text p) = Some (st_Z p).
Proof.
  unfold stamp_text.
  repeat (rewrite ?last_app, ?last_cons). reflexivity.
Qed.

Lemma february_30_matches : matches_format "2021-02-30T00:00:00.000000Z".
Proof.
  exists (mk_stamp (list_ascii_of_string "2021") (list_ascii_of_string "02")
            (list_ascii_of_string "30") "T" (list_ascii_of_string "00")
            (list_ascii_of_string "00") (list_ascii_of_string "00")
            (list_ascii_of_string "000000") "Z").
  split; [reflexivity|].
  repeat split; simpl; try lia; repeat constructor.
Qed.

Lemma small_letters_do_not_match :
  ~ matches_format "2021-06-15t12:00:00.000000z".
Proof.
  intros (p & Hs & _ & _ & _ & _ & _ & _ & _ & _ & HZ).
  pose proof (stamp_text_last p) as Hl.
  rewrite <- Hs, HZ in Hl. vm_compute in Hl. discriminate Hl.
Qed.

(** C5, as stated, fails in both directions.  The thirtieth of February
    is written in the format, digit for digit, and is refused; a string
    with small [t] and [z] in place of the literal [T] and [Z] is
    accepted. *)
Lemma datetime_from_str_not_exactly_the_format :
  (matches_format "2021-02-30T00:00:00.000000Z"
   /\ datetime_from_str "2021-02-30T00:00:00.000000Z" = Raise ValueError)
  /\ (~ matches_format "2021-06-15t12:00:00.000000z"
      /\ datetime_from_str "2021-06-15t12:00:00.000000z"
         = Ok (mk_datetime 2021 6 15 12 0 0 0 (Some UTC)))
  /\ ~ (forall s, is_Ok (datetime_from_str s) <-> matches_format s).
Proof.
  assert (Hfeb : datetime_from_str "2021-02-30T00:00:00.000000Z"
                 = Raise ValueError) by (vm_compute; reflexivity).
  split; [split; [apply february_30_matches | exact Hfeb]|].
  split; [split; [apply small_letters_do_not_match|]|].
  - vm_compute. reflexivity.
  - intros Hall. pose proof february_30_matches as Hm.
    apply Hall in Hm. by rewrite Hfeb in Hm.
Qed.

(** C5, amended.  On the strings of characters below code point 256,
    every ASCII string among them, [datetime_from_str] succeeds exactly
    on the texts made of a year of four digits ["0"] to ["9"], ["-"], a
    month of one or two digits, ["-"], a day of one or two digits or of
    a space and a digit, ["T"] or ["t"], an hour, [":"], a minute,
    [":"], a second of one or two digits each, ["."], a fraction of one
    to six digits and ["Z"] or ["z"], whose numbers are a date and a
    time of day (year from 1, month 1 to 12, day within the month, hour
    to 23, minute and second to 59); it returns that instant, the
    fraction padded to microseconds, tagged UTC.  On every other string
    of such characters it raises [ValueError], and nothing else.  The
    type [string] is that of these strings; nothing is stated about a
    string with a character from code point 256 on, where [strptime]
    also reads the decimal digits of other scripts. *)
Theorem datetime_from_str_reads_timestamps :
  forall s : string,
    (forall dt,
       datetime_from_str s = Ok dt
       <-> exists p, list_ascii_of_string s = stamp_text p
                     /\ stamp_well_formed p /\ stamp_datetime p = Ok dt)
    /\ (forall dt, datetime_from_str s = Ok dt -> tzinfo dt = Some UTC)
    /\ (forall e, datetime_from_str s = Raise e -> e = ValueError).
Proof.
  intros s. split; [|split].
  - intros dt. apply datetime_from_str_reads.
  - intros dt Hdt. apply datetime_from_str_reads in Hdt as (p & _ & _ & Hdt).
    unfold stamp_datetime in Hdt.
    by apply datetime_new_spec in Hdt as [_ ->].
  - apply datetime_from_str_raises.
Qed.

Lemma datetime_from_str_reads_timestamps_witness :
  datetime_from_str "2021-6-5t1:2:3.5z"
  = Ok (mk_datetime 2021 6 5 1 2 3 500000 (Some UTC)).
Proof.
  apply (proj1 (datetime_from_str_reads_timestamps "2021-6-5t1:2:3.5z")).
  exists (mk_stamp (list_ascii_of_string "2021") (list_ascii_of_string "6")
            (list_ascii_of_string "5") "t" (list_ascii_of_string "1")
            (list_ascii_of_string "2") (list_ascii_of_string "3")
            (list_ascii_of_string "5") "z").
  split; [reflexivity|]. split; [|reflexivity].
  unfold stamp_well_formed, digits. simpl.
  repeat split; try lia; try (by right); try (left; repeat constructor);
    repeat constructor.
Defined.

(* ===================================================================== *)
(** ** Further properties of the wrappers *)
(* ===================================================================== *)

Lemma dict_set_same k v d : dict_get k d = Some v -> dict_set k v d = d.
Proof.
  induction d as [|[k' v'] d IH]; simpl; [done|].
  destruct (String.eqb k' k); intros H.
  - by injection H as ->.
  - by rewrite IH.
Qed.

Lemma dict_get_None_keys k d : k ∉ dict_keys d -> dict_get k d = None.
Proof.
  induction d as [|[k' v'] d IH]; simpl; [done|].
  rewrite not_elem_of_cons. intros [Hne H].
  destruct (String.eqb_spec k' k); [congruence | by apply IH].
Qed.

(** Two dicts with the same keys in the same order and the same value
    under every key are the same dict. *)
Lemma dict_ext : forall a b : dict,
  dict_keys a = dict_keys b ->
  NoDup (dict_keys a) ->
  (forall k, dict_get k a = dict_get k b) ->
  a = b.
Proof.
  induction a as [|[k1 v1] a IH]; intros [|[k2 v2] b] Hk Hnd Hget;
    try done.
  simpl in Hk. injection Hk as <- Hk.
  change (dict_keys ((k1, v1) :: a)) with (k1 :: dict_keys a) in Hnd.
  apply NoDup_cons in Hnd as [Hk1 Hnd].
  pose proof (Hget k1) as H1. simpl in H1. rewrite String.eqb_refl in H1.
  injection H1 as <-. f_equal. apply IH; [done|done|].
  intros k. destruct (String.eqb_spec k1 k) as [<-|Hne].
  - rewrite !dict_get_None_keys; [done| by rewrite <- Hk | done].
  - specialize (Hget k). simpl in Hget.
    destruct (String.eqb_spec k1 k); [done|]. exact Hget.
Qed.

(** A [try] whose handler does not raise [e] does not raise [e]. *)
Lemma try_except_never {A} (body handler : M A) e h :
  fst (handler (snd (body h))) <> Raise e ->
  fst (try_except body e handler h) <> Raise e.
Proof.
  unfold try_except. destruct (body h) as [[a|e'] h1]; simpl; [done|].
  destruct (exn_eqb e' e) eqn:He; [done|]. simpl.
  intros Hh [= ->]. by destruct e.
Qed.

Lemma inner_step_not_KeyError func data k (h : heap) :
  fst (inner_step func data k h) <> Raise KeyError.
Proof. unfold inner_step. by apply try_except_never. Qed.

Lemma for_each_never {A} (body : A -> M unit) e :
  (forall x h, fst (body x h) <> Raise e) ->
  forall xs h, fst (for_each xs body h) <> Raise e.
Proof.
  intros Hb. induction xs as [|x xs IH]; intros h; simpl; [done|].
  unfold bind. specialize (Hb x h).
  destruct (body x h) as [[[]|e'] h1]; simpl in *; [apply IH | done].
Qed.

(** One step on a dict writes that dict only, keeps its keys, and raises
    only what [func] raises on the field. *)
Lemma inner_step_frame func (r : loc) (h : heap) record k :
  h !! r = Some (ODict record) ->
  exists record',
    snd (inner_step func (VRef r) k h) = <[r := ODict record']> h
    /\ dict_keys record' = dict_keys record
    /\ forall e, fst (inner_step func (VRef r) k h) = Raise e ->
         record' = record
         /\ exists v, dict_get k record = Some v /\ func v = Raise e.
Proof.
  intros Hrec. destruct (dict_get k record) as [v|] eqn:Hk.
  - destruct (func v) as [w|e] eqn:Hf.
    + rewrite (inner_step_ok func r h record Hrec k v w Hk Hf).
      exists (dict_set k w record). split; [done|]. split; [|done].
      apply dict_set_present. by eapply dict_get_Some_keys.
    + rewrite (inner_step_raise func r h record Hrec k v e Hk Hf).
      exists record. split; [|split; [done|]].
      * rewrite insert_id by done. by destruct (exn_eqb e KeyError).
      * intros e'. destruct (exn_eqb e KeyError); [done|].
        intros [= <-]. split; [done|]. by exists v.
  - rewrite (inner_step_absent func r h record Hrec k Hk).
    exists record. split; [by rewrite insert_id|]. done.
Qed.

Lemma inner_loop_frame func (r : loc) : forall keys (h : heap) record,
  h !! r = Some (ODict record) ->
  exists record',
    snd (for_each keys (inner_step func (VRef r)) h)
      = <[r := ODict record']> h
    /\ dict_keys record' = dict_keys record
    /\ forall e, fst (for_each keys (inner_step func (VRef r)) h) = Raise e ->
         exists before k after v,
           keys = before ++ k :: after
           /\ for_each before (inner_step func (VRef r)) h
              = (Ok tt, <[r := ODict record']> h)
           /\ dict_get k record' = Some v
           /\ func v = Raise e.
Proof.
  induction keys as [|k keys IH]; intros h record Hrec.
  - exists record. simpl. split; [by rewrite insert_id|]. done.
  - rewrite for_each_cons. unfold bind.
    destruct (inner_step_frame func r h record k Hrec)
      as (record1 & Hh1 & Hkeys1 & Hraise1).
    destruct (inner_step func (VRef r) k h) as [[[]|e1] h1] eqn:Hstep;
      simpl in *.
    + subst h1.
      destruct (IH (<[r := ODict record1]> h) record1
                  (lookup_insert_eq _ _ _))
        as (record' & Hh' & Hkeys' & Hraise').
      exists record'. rewrite Hh', insert_insert_eq.
      split; [done|]. split; [congruence|].
      intros e He.
      destruct (Hraise' e He) as (before & k' & after & v & -> & Hrun & Hv & Hf).
      exists (k :: before), k', after, v.
      split; [done|]. split; [|done].
      rewrite for_each_cons. unfold bind.
      by rewrite Hstep, Hrun, insert_insert_eq.
    + exists record1. split; [done|]. split; [done|].
      intros e [= <-].
      destruct (Hraise1 e1 eq_refl) as (-> & v & Hv & Hf).
      exists [], k, keys, v. split; [done|]. split; [|done].
      simpl. by rewrite insert_id.
Qed.

(** X1. [rating_history] returns an entry exactly on an iterable of four
    elements, which become the fields [year], [month], [day] and
    [rating] in that order; an iterable of any other length raises
    [TypeError], and so does a value that cannot be iterated.  The call
    never writes the heap. *)
Theorem rating_history_takes_four :
  forall (data : pyval) (h : heap),
    snd (rating_history data h) = h
    /\ (forall xs, py_iter data h = (Ok xs, h) ->
          (length xs = 4%nat ->
             exists e, rating_history data h = (Ok e, h)
                       /\ Entry.fields e = xs)
          /\ (length xs <> 4%nat ->
                rating_history data h = (Raise TypeError, h)))
    /\ (forall e, fst (rating_history data h) = Ok e ->
          py_iter data h = (Ok (Entry.fields e), h))
    /\ (scalar data = true ->
          rating_history data h = (Raise TypeError, h)).
Proof.
  intros data h.
  assert (Hheap : forall r h', py_iter data h = (r, h') -> h' = h).
  { unfold py_iter. intros r h'. destruct data; try (by intros [= _ <-]).
    destruct (h !! l) as [[d|xs]|]; by intros [= _ <-]. }
  unfold rating_history, bind.
  destruct (py_iter data h) as [[xs|e] h1] eqn:Hiter;
    pose proof (Hheap _ _ eq_refl) as ->.
  - split; [|split; [|split]].
    + by destruct xs as [|y [|m [|d [|r [|z xs]]]]].
    + intros xs' [= <-]. split; intros Hlen.
      * destruct xs as [|y [|m [|d [|r [|z xs]]]]]; try done.
        by exists (Entry.mk y m d r).
      * by destruct xs as [|y [|m [|d [|r [|z xs]]]]].
    + intros e.
      destruct xs as [|y [|m [|d [|r [|z xs]]]]]; try done.
      simpl. by intros [= <-].
    + intros Hs. by destruct data.
  - split; [done|]. split; [done|]. split; [done|].
    intros Hs. unfold py_iter in Hiter.
    destruct data; try done; by injection Hiter as <-.
Qed.

Lemma rating_history_takes_four_witness :
  exists e,
    rating_history (VRef 4%nat) one_two_three = (Raise TypeError, one_two_three)
    /\ rating_history (VStr "2019") one_two_three = (Ok e, one_two_three)
    /\ Entry.fields e = [VStr "2"; VStr "0"; VStr "1"; VStr "9"].
Proof.
  destruct (rating_history_takes_four (VRef 4%nat) one_two_three)
    as (_ & Hlist & _).
  destruct (Hlist [VInt 1; VInt 2; VInt 3] eq_refl) as [_ Hshort].
  destruct (rating_history_takes_four (VStr "2019") one_two_three)
    as (_ & Hstr & _).
  destruct (Hstr [VStr "2"; VStr "0"; VStr "1"; VStr "9"] eq_refl)
    as [[e [Hrun Hfields]] _]; [reflexivity|].
  exists e. split; [apply Hshort; simpl; lia|]. by split.
Defined.

(** X2. On a dict, [inner] writes that one object and nothing else, also
    when it fails half way: the heap after the call is the heap before
    it with the record replaced, and the record has the keys it had, in
    the same order (no key is added or removed).  The call never raises
    [KeyError].  An exception it raises is the one that [func] raised on
    a field of the record: the keys are some keys [before], a key [k]
    and the keys [after]; the call on the keys [before] alone returns
    and leaves the heap that the failed call leaves; in the record of
    that heap the field [k] holds a value [v]; and [func v] raised the
    exception.  When the call returns, it returns the record it was
    given. *)
Theorem inner_writes_only_the_record :
  forall (func : pyfun) (keys : list string) (h : heap) (r : loc)
         (record : dict),
    h !! r = Some (ODict record) ->
    exists record',
      snd (inner func keys (VRef r) h) = <[r := ODict record']> h
      /\ dict_keys record' = dict_keys record
      /\ (forall l, l <> r -> snd (inner func keys (VRef r) h) !! l = h !! l)
      /\ fst (inner func keys (VRef r) h) <> Raise KeyError
      /\ (forall e, fst (inner func keys (VRef r) h) = Raise e ->
            exists before k after v,
              keys = before ++ k :: after
              /\ inner func before (VRef r) h
                 = (Ok (VRef r), <[r := ODict record']> h)
              /\ dict_get k record' = Some v
              /\ func v = Raise e)
      /\ (forall a, fst (inner func keys (VRef r) h) = Ok a -> a = VRef r).
Proof.
  intros func keys h r record Hrec.
  destruct (inner_loop_frame func r keys h record Hrec)
    as (record' & Hh & Hkeys & Hraise).
  pose proof (for_each_never (inner_step func (VRef r)) KeyError
                (inner_step_not_KeyError func (VRef r)) keys h) as Hnk.
  rewrite inner_unfold.
  destruct (for_each keys (inner_step func (VRef r)) h) as [[[]|e] h'];
    simpl in *; subst h'; exists record';
    (split; [done|]; split; [done|]; split;
     [intros l Hl; by rewrite lookup_insert_ne|]).
  - split; [done|]. split; [by intros e' [=]|]. by intros a [= <-].
  - split; [intros [= ->]; by apply Hnk|]. split; [|by intros a [=]].
    intros e' [= <-].
    destruct (Hraise e eq_refl) as (before & k & after & v & Hk & Hrun & Hv & Hf).
    exists before, k, after, v. split; [done|]. split; [|done].
    by rewrite inner_unfold, Hrun.
Qed.

Lemma inner_writes_only_the_record_witness :
  exists record',
    snd (inner py_int ["name"; "rating"] (VRef 7%nat) rating_record)
    = <[7%nat := ODict record']> rating_record
    /\ dict_keys record' = ["rating"; "name"]%string.
Proof.
  destruct (inner_writes_only_the_record py_int ["name"; "rating"]%string
              rating_record 7%nat
              [("rating", VStr "1500"); ("name", VStr "x")] eq_refl)
    as (record' & Hh & Hkeys & _).
  by exists record'.
Defined.

(** X3. [inner] does not undo what it has done when [func] fails.  If
    the keys before [k] have been converted, leaving the heap [h1], and
    [func] raises an exception other than [KeyError] on the field [k],
    the call raises that exception and the heap stays [h1]: the fields
    converted so far remain converted and the keys after [k] are not
    visited.  With [int] and the keys ["rating"], ["name"], the record
    with rating ["1500"] and name ["x"] raises [ValueError] at the name
    and is left with the rating [1500]. *)
Theorem inner_failure_keeps_earlier_conversions :
  (forall (func : pyfun) (before : list string) (k : string)
          (after : list string) (h h1 : heap) (r : loc) (record : dict)
          (v : pyval) (e : exn),
      inner func before (VRef r) h = (Ok (VRef r), h1) ->
      h1 !! r = Some (ODict record) ->
      dict_get k record = Some v ->
      func v = Raise e ->
      e <> KeyError ->
      inner func (before ++ k :: after) (VRef r) h = (Raise e, h1))
  /\ inner py_int ["rating"; "name"; "rating"] (VRef 7%nat) rating_record
     = (Raise ValueError,
        <[7%nat := ODict [("rating", VInt 1500); ("name", VStr "x")]]>
          rating_record).
Proof.
  split.
  - intros func before k after h h1 r record v e Hbefore Hrec Hk Hf He.
    rewrite inner_unfold in Hbefore. rewrite inner_unfold, for_each_app.
    unfold bind.
    destruct (for_each before (inner_step func (VRef r)) h) as [[[]|e0] h0];
      [|done].
    injection Hbefore as ->. rewrite for_each_cons. unfold bind.
    rewrite (inner_step_raise func r h1 record Hrec k v e Hk Hf).
    by destruct e.
  - vm_compute. reflexivity.
Qed.

Lemma inner_failure_keeps_earlier_conversions_witness :
  inner py_int (["rating"] ++ ["name"; "rating"]) (VRef 7%nat) rating_record
  = (Raise ValueError,
     <[7%nat := ODict [("rating", VInt 1500); ("name", VStr "x")]]>
       rating_record).
Proof.
  apply (proj1 inner_failure_keeps_earlier_conversions py_int
           ["rating"]%string "name"%string ["rating"]%string rating_record
           (<[7%nat := ODict [("rating", VInt 1500); ("name", VStr "x")]]>
              rating_record)
           7%nat [("rating", VInt 1500); ("name", VStr "x")] (VStr "x")
           ValueError).
  - vm_compute. reflexivity.
  - reflexivity.
  - reflexivity.
  - vm_compute. reflexivity.
  - discriminate.
Defined.

(** X4. [inner] on a value that is not a dict (a scalar, a str or a
    list): with no keys the value comes back as it is, without any
    check; with at least one key the first lookup raises [TypeError],
    which the [except KeyError] does not catch.  The heap is as it
    was. *)
Theorem inner_needs_a_dict :
  forall (func : pyfun) (data : pyval) (h : heap),
    not_mapping h data ->
    inner func [] data h = (Ok data, h)
    /\ (forall k keys, inner func (k :: keys) data h = (Raise TypeError, h)).
Proof.
  intros func data h Hnm. split; [done|]. intros k keys.
  rewrite inner_unfold, for_each_cons.
  assert (Hstep : inner_step func data k h = (Raise TypeError, h)).
  { unfold inner_step, try_except, bind, getitem.
    destruct data; try done. destruct Hnm as [xs ->]. done. }
  unfold bind. by rewrite Hstep.
Qed.

Lemma inner_needs_a_dict_witness :
  inner py_int [] (VRef 4%nat) one_two_three = (Ok (VRef 4%nat), one_two_three)
  /\ inner py_int ["rating"] (VRef 4%nat) one_two_three
     = (Raise TypeError, one_two_three).
Proof.
  destruct (inner_needs_a_dict py_int (VRef 4%nat) one_two_three) as [H0 H1].
  - exists [VInt 1; VInt 2; VInt 3]. reflexivity.
  - split; [exact H0 | apply H1].
Defined.

Lemma occurrences_NoDup k keys n :
  NoDup keys -> (n < occurrences k keys)%nat -> n = 0%nat /\ k ∈ keys.
Proof.
  intros Hnd Hn. destruct (decide (k ∈ keys)) as [Hin|Hout].
  - rewrite occurrences_1 in Hn by done. split; [lia | done].
  - rewrite occurrences_0 in Hn by done. lia.
Qed.

(** The record that a conversion over distinct keys leaves. *)
Lemma inner_run_NoDup func (f : pyval -> pyval) keys r (h : heap) record :
  h !! r = Some (ODict record) ->
  NoDup keys ->
  (forall k v, k ∈ keys -> dict_get k record = Some v -> func v = Ok (f v)) ->
  exists record',
    inner func keys (VRef r) h = (Ok (VRef r), <[r := ODict record']> h)
    /\ dict_keys record' = dict_keys record
    /\ (forall k, k ∈ keys -> dict_get k record' = f <$> dict_get k record)
    /\ (forall k, k ∉ keys -> dict_get k record' = dict_get k record).
Proof.
  intros Hrec Hnd Hf.
  destruct (inner_loop func f keys r h record Hrec)
    as (record' & Hrun & Hkeys & Hget).
  { intros k v n Hk Hn.
    destruct (occurrences_NoDup k keys n Hnd Hn) as [-> Hin].
    by apply (Hf k). }
  exists record'. split; [|split; [done|split]].
  - rewrite inner_unfold, Hrun. done.
  - intros k Hin. by rewrite Hget, occurrences_1.
  - intros k Hout. rewrite Hget, occurrences_0 by done.
    by destruct (dict_get k record).
Qed.

(** X5. Conversions compose.  Converting the keys [keys1] and then the
    keys [keys2] of the same record is one conversion over
    [keys1 ++ keys2], whatever [func] does.  And over distinct keys of a
    dict, when [func1] returns on the value of every listed field that
    the record has and [func2] returns on what [func1] returned,
    converting with [func1] and then with [func2] is one conversion with
    [lambda v: func2(func1(v))]: both leave the same heap and return the
    same record.  The condition on [func1] and [func2] cannot be
    dropped: with a [func1] that raises [KeyError] and [int] as [func2],
    the two conversions in turn leave the rating [1500], the first
    skipping the field and the second converting it, and the single
    conversion leaves it ["1500"]. *)
Theorem inner_conversions_compose :
  (forall (func : pyfun) (keys1 keys2 : list string) (data : pyval)
          (h : heap),
      (let* d := inner func keys1 data in inner func keys2 d) h
      = inner func (keys1 ++ keys2) data h)
  /\ (forall (func1 func2 : pyfun) (keys : list string) (h : heap)
             (r : loc) (record : dict),
        h !! r = Some (ODict record) ->
        NoDup (dict_keys record) ->
        NoDup keys ->
        (forall k v, k ∈ keys -> dict_get k record = Some v ->
           exists w u, func1 v = Ok w /\ func2 w = Ok u) ->
        (let* d := inner func1 keys (VRef r) in inner func2 keys d) h
        = inner (and_then func1 func2) keys (VRef r) h)
  /\ ((let* d := inner (fun _ => Raise KeyError) ["rating"] (VRef 7%nat) in
       inner py_int ["rating"] d) rating_record
      = (Ok (VRef 7%nat),
         <[7%nat := ODict [("rating", VInt 1500); ("name", VStr "x")]]>
           rating_record)
      /\ inner (and_then (fun _ => Raise KeyError) py_int) ["rating"]
           (VRef 7%nat) rating_record
         = (Ok (VRef 7%nat), rating_record)).
Proof.
  split; [|split].
  - intros func keys1 keys2 data h.
    rewrite (inner_unfold func (keys1 ++ keys2)), for_each_app.
    unfold bind. rewrite inner_unfold.
    destruct (for_each keys1 (inner_step func data) h) as [[[]|e] h1];
      [|done].
    by rewrite inner_unfold.
  - intros func1 func2 keys h r record Hrec Hndr Hnd Hret.
    set (f := fun v => match func1 v with Ok w => w | Raise _ => v end).
    set (g := fun v => match func2 v with Ok w => w | Raise _ => v end).
    assert (Hf : forall k v, k ∈ keys -> dict_get k record = Some v ->
                   func1 v = Ok (f v) /\ func2 (f v) = Ok (g (f v))).
    { intros k v Hin Hk. destruct (Hret k v Hin Hk) as (w & u & H1 & H2).
      unfold f, g. rewrite H1. by rewrite H2. }
    destruct (inner_run_NoDup func1 f keys r h record Hrec Hnd)
      as (record1 & Hrun1 & Hkeys1 & Hin1 & Hout1).
    { intros k v Hin Hk. by apply (Hf k). }
    destruct (inner_run_NoDup func2 g keys r (<[r := ODict record1]> h)
                record1 (lookup_insert_eq _ _ _) Hnd)
      as (record2 & Hrun2 & Hkeys2 & Hin2 & Hout2).
    { intros k v Hin Hk. rewrite Hin1 in Hk by done.
      destruct (dict_get k record) as [v0|] eqn:Hk0; [|done].
      injection Hk as <-. by apply (Hf k). }
    destruct (inner_run_NoDup (and_then func1 func2) (fun v => g (f v))
                keys r h record Hrec Hnd)
      as (record12 & Hrun12 & Hkeys12 & Hin12 & Hout12).
    { intros k v Hin Hk. unfold and_then.
      destruct (Hf k v Hin Hk) as [-> H2]. exact H2. }
    unfold bind. rewrite Hrun1, Hrun2, Hrun12, insert_insert_eq.
    f_equal. f_equal. f_equal. apply dict_ext.
    + congruence.
    + congruence.
    + intros k. destruct (decide (k ∈ keys)) as [Hin|Hout].
      * rewrite Hin2, Hin1, Hin12 by done.
        by destruct (dict_get k record).
      * by rewrite Hout2, Hout1, Hout12.
  - split; vm_compute; reflexivity.
Qed.

Lemma inner_conversions_compose_witness :
  (let* d := inner py_int ["rating"] (VRef 7%nat) in
   inner py_str ["rating"] d) rating_record
  = inner (and_then py_int py_str) ["rating"] (VRef 7%nat) rating_record.
Proof.
  apply (proj1 (proj2 inner_conversions_compose) py_int py_str
           ["rating"]%string rating_record 7%nat
           [("rating", VStr "1500"); ("name", VStr "x")]).
  - reflexivity.
  - apply (bool_decide_unpack _). vm_compute. exact I.
  - apply NoDup_singleton.
  - intros k v Hin Hk.
    apply list_elem_of_singleton in Hin as ->.
    injection Hk as <-. exists (VInt 1500), (VStr "1500").
    split; vm_compute; reflexivity.
Defined.

(* ===================================================================== *)
(** ** Further properties of [listing] and [noop] *)
(* ===================================================================== *)

Lemma py_iter_frame items (h h2 : heap) xs :
  py_iter items h = (Ok xs, h) -> h ⊆ h2 -> py_iter items h2 = (Ok xs, h2).
Proof.
  intros Hiter Hext. unfold py_iter in *. destruct items; try done.
  - by injection Hiter as <-.
  - destruct (h !! l) as [o|] eqn:Ho; [|done].
    rewrite (lookup_weaken _ _ _ _ Ho Hext).
    destruct o; by injection Hiter as <-.
Qed.

(** The loop of [listing] up to the first element on which [func]
    raises. *)
Lemma listing_loop_fails func (f : pyval -> pyval) (l : loc) before x after
    e acc (h : heap) :
  h !! l = Some (OList acc) ->
  (forall y, y ∈ before -> func y = Ok (f y)) ->
  func x = Raise e ->
  for_each (before ++ x :: after)
           (fun item => let* y := lift (func item) in
                        list_append (VRef l) y) h
  = (Raise e, <[l := OList (acc ++ map f before)]> h).
Proof.
  intros Hl Hf Hx. rewrite for_each_app. unfold bind at 1.
  rewrite (listing_loop func f l before acc h Hl Hf).
  rewrite for_each_cons. unfold bind, lift. by rewrite Hx.
Qed.

Lemma listing_start func items (h : heap) xs :
  py_iter items h = (Ok xs, h) ->
  listing func items h
  = match for_each xs (fun item => let* y := lift (func item) in
                                   list_append (VRef (fresh (dom h))) y)
                   (<[fresh (dom h) := OList []]> h) with
    | (Ok _, h') => (Ok (VRef (fresh (dom h))), h')
    | (Raise e, h') => (Raise e, h')
    end.
Proof.
  intros Hiter. unfold listing, listing_convert.
  erewrite bind_ok; [|reflexivity].
  erewrite bind_ok.
  2:{ apply (py_iter_frame items h _ xs Hiter).
      apply insert_subseteq, fresh_unallocated. }
  unfold bind, ret. by destruct (for_each xs _ _) as [[[]|e] h'].
Qed.

Lemma listing_run func (f : pyval -> pyval) (h : heap) items xs :
  py_iter items h = (Ok xs, h) ->
  (forall x, x ∈ xs -> func x = Ok (f x)) ->
  listing func items h
  = (Ok (VRef (fresh (dom h))), <[fresh (dom h) := OList (map f xs)]> h).
Proof.
  intros Hiter Hf. rewrite (listing_start func items h xs Hiter).
  rewrite (listing_loop func f (fresh (dom h)) xs [] _
             (lookup_insert_eq _ _ _) Hf).
  by rewrite insert_insert_eq.
Qed.

(** X6. [listing] catches nothing.  When [func] raises on an element,
    [KeyError] included, the call raises that exception at the first
    such element and returns no list; the only object written is the
    list under construction, at a location unused before the call, so
    every object that existed is as it was.  On a value that cannot be
    iterated ([None], a bool, a number) the call raises [TypeError]. *)
Theorem listing_raises_what_func_raises :
  (forall (func : pyfun) (f : pyval -> pyval) (h : heap) (items : pyval)
          (before : list pyval) (x : pyval) (after : list pyval) (e : exn),
      py_iter items h = (Ok (before ++ x :: after), h) ->
      (forall y, y ∈ before -> func y = Ok (f y)) ->
      func x = Raise e ->
      exists l,
        h !! l = None
        /\ listing func items h = (Raise e, <[l := OList (map f before)]> h)
        /\ h ⊆ <[l := OList (map f before)]> h)
  /\ (forall (func : pyfun) (items : pyval) (h : heap),
        scalar items = true ->
        exists l,
          h !! l = None
          /\ listing func items h = (Raise TypeError, <[l := OList []]> h)).
Proof.
  split.
  - intros func f h items before x after e Hiter Hf Hx.
    exists (fresh (dom h)).
    pose proof (fresh_unallocated h) as Hl.
    split; [done|]. split; [|by apply insert_subseteq].
    rewrite (listing_start func items h _ Hiter).
    rewrite (listing_loop_fails func f (fresh (dom h)) before x after e []
               _ (lookup_insert_eq _ _ _) Hf Hx).
    by rewrite insert_insert_eq.
  - intros func items h Hs. exists (fresh (dom h)).
    split; [apply fresh_unallocated|].
    unfold listing, listing_convert. erewrite bind_ok; [|reflexivity].
    unfold bind, py_iter. by destruct items.
Qed.

Lemma listing_raises_what_func_raises_witness :
  exists l,
    one_two_three !! l = None
    /\ listing py_int (VStr "12x4") one_two_three
       = (Raise ValueError, <[l := OList [VInt 1; VInt 2]]> one_two_three).
Proof.
  destruct (proj1 listing_raises_what_func_raises py_int
              (fun v => match py_int v with Ok w => w | Raise _ => v end)
              one_two_three (VStr "12x4") [VStr "1"; VStr "2"] (VStr "x")
              [VStr "4"] ValueError)
    as (l & Hl & Hrun & _).
  - reflexivity.
  - intros y Hy.
    repeat (apply elem_of_cons in Hy as [->|Hy]; [vm_compute; reflexivity|]).
    by apply elem_of_nil in Hy.
  - vm_compute. reflexivity.
  - by exists l.
Defined.

(** X7. Conversions of lists compose: [listing(func2)] applied to the
    list that [listing(func1)] returns yields a list with the same
    contents as [listing(lambda v: func2(func1(v)))] applied to the
    input, namely [func2(func1(x))] for each element [x], in order. *)
Theorem listing_conversions_compose :
  forall (func1 func2 : pyfun) (f g : pyval -> pyval) (h : heap)
         (items : pyval) (xs : list pyval),
    py_iter items h = (Ok xs, h) ->
    (forall x, x ∈ xs -> func1 x = Ok (f x) /\ func2 (f x) = Ok (g (f x))) ->
    observe ((let* ys := listing func1 items in listing func2 ys) h)
    = Ok (Some (OList (map g (map f xs))))
    /\ observe (listing (and_then func1 func2) items h)
       = Ok (Some (OList (map g (map f xs)))).
Proof.
  intros func1 func2 f g h items xs Hiter Hf. split.
  - unfold bind.
    rewrite (listing_run func1 f h items xs Hiter)
      by (intros x Hx; by apply Hf).
    set (l := fresh (dom h)). set (h1 := <[l := OList (map f xs)]> h).
    rewrite (listing_run func2 g h1 (VRef l) (map f xs)).
    + simpl. by rewrite lookup_insert_eq.
    + unfold py_iter, h1. by rewrite lookup_insert_eq.
    + intros y Hy. apply list_elem_of_fmap in Hy as (x & -> & Hx).
      by apply Hf.
  - rewrite (listing_run (and_then func1 func2) (fun x => g (f x)) h items xs
               Hiter).
    + simpl. by rewrite lookup_insert_eq, map_map.
    + intros x Hx. unfold and_then. destruct (Hf x Hx) as [-> H2]. exact H2.
Qed.

Lemma listing_conversions_compose_witness :
  observe ((let* ys := listing py_str (VRef 4%nat) in listing py_int ys)
             one_two_three)
  = Ok (Some (OList [VInt 1; VInt 2; VInt 3])).
Proof.
  apply (proj1 (listing_conversions_compose py_str py_int
           (fun v => match py_str v with Ok w => w | Raise _ => v end)
           (fun v => match py_int v with Ok w => w | Raise _ => v end)
           one_two_three (VRef 4%nat) [VInt 1; VInt 2; VInt 3]
           eq_refl
           (fun x Hx => ltac:(
              repeat (apply elem_of_cons in Hx as [->|Hx];
                      [split; vm_compute; reflexivity|]);
              by apply elem_of_nil in Hx)))).
Defined.

(** X8. [noop] as a converter changes nothing: [inner(noop, ...)] on a
    dict returns it and leaves the whole heap as it was, whatever the
    keys, and [listing(noop)] returns a new list with the elements the
    input yields, so on a list a copy that shares the elements and is a
    different object. *)
Theorem noop_converts_nothing :
  (forall (keys : list string) (h : heap) (r : loc) (record : dict),
      h !! r = Some (ODict record) ->
      inner py_noop keys (VRef r) h = (Ok (VRef r), h))
  /\ (forall (h : heap) (items : pyval) (xs : list pyval),
        py_iter items h = (Ok xs, h) ->
        exists l,
          h !! l = None
          /\ items <> VRef l
          /\ listing py_noop items h = (Ok (VRef l), <[l := OList xs]> h)).
Proof.
  split.
  - intros keys. induction keys as [|k keys IH]; intros h r record Hrec;
      [done|].
    rewrite inner_unfold, for_each_cons. unfold bind.
    assert (Hstep : inner_step py_noop (VRef r) k h = (Ok tt, h)).
    { destruct (dict_get k record) as [v|] eqn:Hk.
      - rewrite (inner_step_ok py_noop r h record Hrec k v v Hk eq_refl).
        by rewrite (dict_set_same k v record Hk), insert_id.
      - by apply (inner_step_absent py_noop r h record Hrec). }
    rewrite Hstep. specialize (IH h r record Hrec).
    by rewrite inner_unfold in IH.
  - intros h items xs Hiter. exists (fresh (dom h)).
    pose proof (fresh_unallocated h) as Hl.
    split; [done|]. split.
    + intros ->. unfold py_iter in Hiter. by rewrite Hl in Hiter.
    + rewrite (listing_run py_noop (fun v => v) h items xs Hiter)
        by done.
      by rewrite map_id.
Qed.

Lemma noop_converts_nothing_witness :
  inner py_noop ["rating"; "name"; "title"] (VRef 7%nat) rating_record
  = (Ok (VRef 7%nat), rating_record)
  /\ exists l,
       VRef 4%nat <> VRef l
       /\ listing py_noop (VRef 4%nat) one_two_three
          = (Ok (VRef l), <[l := OList [VInt 1; VInt 2; VInt 3]]> one_two_three).
Proof.
  split.
  - apply (proj1 noop_converts_nothing _ rating_record 7%nat
             [("rating", VStr "1500"); ("name", VStr "x")] eq_refl).
  - destruct (proj2 noop_converts_nothing one_two_three (VRef 4%nat)
                [VInt 1; VInt 2; VInt 3] eq_refl) as (l & _ & Hne & Hrun).
    by exists l.
Defined.

(* ===================================================================== *)
(** ** Further properties of the adapter *)
(* ===================================================================== *)

Lemma prefix_sep_of c x s :
  String.prefix (sep_of c) (String x s) = if Ascii.eqb x c then true else false.
Proof.
  unfold sep_of. simpl. destruct (ascii_dec c x) as [->|Hne].
  - rewrite Ascii.eqb_refl. by destruct s.
  - destruct (Ascii.eqb_spec x c); [congruence | done].
Qed.

(** Splitting on one character distributes over a join with that
    character. *)
Lemma split_from_char_app c s2 : forall s1 cur,
  split_from (sep_of c) (s1 +:+ String c s2) 0 cur
  = split_from (sep_of c) s1 0 cur
    ++ split_from (sep_of c) s2 0 EmptyString.
Proof.
  induction s1 as [|x s1 IH]; intros cur.
  - rewrite string_app_nil_l. cbn [split_from].
    by rewrite prefix_sep_of, Ascii.eqb_refl.
  - rewrite string_app_cons. cbn [split_from]. rewrite !prefix_sep_of.
    destruct (Ascii.eqb x c).
    + cbn [sep_of String.length Nat.sub]. by rewrite IH.
    + apply IH.
Qed.

(** A string without the separating character is a single piece. *)
Lemma split_from_char_absent c : forall s cur,
  occurs c s = false ->
  split_from (sep_of c) s 0 cur = [cur +:+ s].
Proof.
  induction s as [|x s IH]; intros cur Hs.
  - by rewrite string_app_nil_r.
  - simpl in Hs. apply orb_false_iff in Hs as [Hx Hs].
    cbn [split_from]. rewrite prefix_sep_of, Hx.
    rewrite (IH _ Hs).
    by rewrite string_app_assoc, string_app_cons, string_app_nil_l.
Qed.

Lemma walk_app path2 : forall path1 v (h : heap),
  walk v (path1 ++ path2) h = (let* w := walk v path1 in walk w path2) h.
Proof.
  induction path1 as [|key path1 IH]; intros v h; [done|].
  simpl. unfold bind.
  destruct (getitem v key h) as [[x|e] h1]; [|done].
  rewrite IH. done.
Qed.

(** X9. Paths nest.  For a separator of one character, as the default
    ["."], looking up the location [s1 + sep + s2] in a document is
    looking up [s1] in it and then [s2] in what was found, with the same
    value or the same exception. *)
Theorem get_follows_nested_paths :
  forall (c : ascii) (data : pyval) (s1 s2 : string) (h : heap),
    get (sep_of c) data (VStr (s1 +:+ sep_of c +:+ s2)) h
    = (let* v := get (sep_of c) data (VStr s1) in
       get (sep_of c) v (VStr s2)) h.
Proof.
  intros c data s1 s2 h.
  rewrite (get_str (sep_of c) data _
             (split_from (sep_of c) s1 0 EmptyString
              ++ split_from (sep_of c) s2 0 EmptyString)).
  - rewrite walk_app. unfold bind.
    rewrite (get_str (sep_of c) data s1 _ h eq_refl).
    pose proof (walk_heap data (split_from (sep_of c) s1 0 EmptyString) h)
      as Hh.
    destruct (walk data _ h) as [[v|e] h1]; simpl in Hh; subst h1; [|done].
    by rewrite (get_str (sep_of c) v s2 _ h eq_refl).
  - unfold str_split, sep_of. f_equal.
    apply (split_from_char_app c s2 s1 EmptyString).
Qed.

(** X10. A location that does not contain the separating character
    names a key of the document itself: [get] is the single lookup
    [data[location]], with its result, its exception and its heap.  The
    empty location is such a name, the key [""]. *)
Theorem get_reads_a_top_level_key :
  forall (c : ascii) (data : pyval) (s : string) (h : heap),
    occurs c s = false ->
    get (sep_of c) data (VStr s) h = getitem data s h.
Proof.
  intros c data s h Hs.
  rewrite (get_str (sep_of c) data s [s]).
  - simpl. unfold bind. by destruct (getitem data s h) as [[v|e] h1].
  - unfold str_split, sep_of. f_equal.
    apply (split_from_char_absent c s EmptyString Hs).
Qed.

Lemma get_reads_a_top_level_key_witness :
  get "." (VRef 2%nat) (VStr "x") adapter_heap = (Ok (VRef 1%nat), adapter_heap)
  /\ get "." (VRef 2%nat) (VStr "") adapter_heap
     = (Raise KeyError, adapter_heap).
Proof.
  split.
  - apply (get_reads_a_top_level_key "." (VRef 2%nat) "x" adapter_heap
             eq_refl).
  - apply (get_reads_a_top_level_key "." (VRef 2%nat) "" adapter_heap
             eq_refl).
Defined.

(** The first field of the mapping ends the call when its lookup raises
    an exception other than [KeyError]. *)
Lemma build_adapter_first_raises (h : heap) m key location items sep data
    default fill e :
  h !! m = Some (ODict ((key, location) :: items)) ->
  get sep data location (<[fresh (dom h) := ODict []]> h)
    = (Raise e, <[fresh (dom h) := ODict []]> h) ->
  e <> KeyError ->
  build_adapter (VRef m) sep data default fill h
  = (Raise e, <[fresh (dom h) := ODict []]> h).
Proof.
  intros Hm Hget He.
  rewrite (build_adapter_unfold h m _ sep data default fill Hm).
  rewrite for_each_cons. unfold bind.
  rewrite (adapter_step_run sep _ data default fill key location _ []
             (Raise e) (lookup_insert_eq _ _ _) Hget).
  by destruct e.
Qed.

(** X11. The separator is checked when the adapter is called, not when
    it is built, and only when there is a field to look up: with an
    empty separator and a mapping whose first location is a str, every
    call raises [ValueError], whatever the document, [default] and
    [fill] are.  No record is returned. *)
Theorem build_adapter_rejects_empty_separator :
  forall (h : heap) (m : loc) (key s : string) (items : dict)
         (data default : pyval) (fill : bool),
    h !! m = Some (ODict ((key, VStr s) :: items)) ->
    exists l,
      h !! l = None
      /\ build_adapter (VRef m) "" data default fill h
         = (Raise ValueError, <[l := ODict []]> h).
Proof.
  intros h m key s items data default fill Hm.
  exists (fresh (dom h)). split; [apply fresh_unallocated|].
  by apply (build_adapter_first_raises h m key (VStr s) items).
Qed.

Lemma build_adapter_rejects_empty_separator_witness :
  exists l,
    adapter_heap !! l = None
    /\ build_adapter (VRef 0%nat) "" (VRef 2%nat) VNone true adapter_heap
       = (Raise ValueError, <[l := ODict []]> adapter_heap).
Proof.
  apply (build_adapter_rejects_empty_separator adapter_heap 0%nat "a" "x.y"
           [] (VRef 2%nat) VNone true eq_refl).
Defined.

(** X12. The document must be a dict as soon as there is a field to look
    up.  With an empty mapping the adapter returns a new empty record for
    any document whatever.  With a mapping whose first location is a str
    and a non-empty separator, a document that is a scalar, a str or a
    list raises [TypeError], for every location, the empty one included:
    each location has at least one key. *)
Theorem build_adapter_needs_a_dict_document :
  (forall (h : heap) (m : loc) (sep : string) (data default : pyval)
          (fill : bool),
      h !! m = Some (ODict []) ->
      exists l,
        h !! l = None
        /\ build_adapter (VRef m) sep data default fill h
           = (Ok (VRef l), <[l := ODict []]> h))
  /\ (forall (h : heap) (m : loc) (key s : string) (items : dict)
             (sep : string) (data default : pyval) (fill : bool),
        h !! m = Some (ODict ((key, VStr s) :: items)) ->
        sep <> EmptyString ->
        not_mapping h data ->
        exists l,
          h !! l = None
          /\ build_adapter (VRef m) sep data default fill h
             = (Raise TypeError, <[l := ODict []]> h)).
Proof.
  split.
  - intros h m sep data default fill Hm. exists (fresh (dom h)).
    split; [apply fresh_unallocated|].
    by rewrite (build_adapter_unfold h m [] sep data default fill Hm).
  - intros h m key s items sep data default fill Hm Hsep Hnm.
    exists (fresh (dom h)).
    pose proof (fresh_unallocated h) as Hl. split; [done|].
    apply (build_adapter_first_raises h m key (VStr s) items); [done| |done].
    destruct sep as [|c sep]; [done|].
    rewrite (get_str (String c sep) data s
               (split_from (String c sep) s 0 EmptyString) _ eq_refl).
    pose proof (split_from_nonempty (String c sep) s 0 EmptyString) as Hne.
    destruct (split_from (String c sep) s 0 EmptyString) as [|k path];
      [done|].
    apply walk_malformed.
    apply (malformed_mono h); [by apply insert_subseteq|].
    by apply malformed_here.
Qed.

Lemma build_adapter_needs_a_dict_document_witness :
  exists l,
    adapter_heap !! l = None
    /\ build_adapter (VRef 0%nat) "." (VInt 5) VNone true adapter_heap
       = (Raise TypeError, <[l := ODict []]> adapter_heap).
Proof.
  apply (proj2 build_adapter_needs_a_dict_document adapter_heap 0%nat
           "a" "x.y" [] "." (VInt 5) VNone true eq_refl).
  - discriminate.
  - exact I.
Defined.

Lemma setitem_not_KeyError v key x (h : heap) :
  fst (setitem v key x h) <> Raise KeyError.
Proof.
  unfold setitem. destruct v; try done.
  by destruct (h !! l) as [[d|xs]|].
Qed.

(** X13. The adapter never raises [KeyError], whatever the mapping, the
    separator, the document, [default] and [fill] are: a missing key is
    always skipped or filled. *)
Theorem build_adapter_never_raises_KeyError :
  forall (mapper : pyval) (sep : string) (data default : pyval)
         (fill : bool) (h : heap),
    fst (build_adapter mapper sep data default fill h) <> Raise KeyError.
Proof.
  intros mapper sep data default fill h.
  unfold build_adapter, adapter.
  erewrite bind_ok; [|reflexivity].
  set (l := fresh (dom h)). set (h1 := <[l := ODict []]> h).
  unfold bind at 1.
  destruct (dict_items mapper h1) as [[items|e] h2] eqn:Hitems.
  - unfold bind.
    pose proof (for_each_never
                  (adapter_step sep (VRef l) data default fill) KeyError)
      as Hloop.
    specialize (Hloop ltac:(
      intros [key location] h0; unfold adapter_step;
      apply try_except_never; destruct fill;
      [apply setitem_not_KeyError | done]) items h2).
    destruct (for_each items _ h2) as [[[]|e] h3]; simpl in *; [done|].
    intros [= ->]. by apply Hloop.
  - simpl. unfold dict_items in Hitems. destruct mapper; try by inversion Hitems.
    destruct (h1 !! l0) as [[d|xs]|]; by inversion Hitems.
Qed.

Lemma adapted_status outcome default fill fill' : forall items acc acc',
  fst (adapted outcome default fill items acc)
  = fst (adapted outcome default fill' items acc').
Proof.
  induction items as [|[key location] items IH]; intros acc acc'; [done|].
  simpl. destruct (outcome location) as [v|e]; [apply IH|].
  destruct (exn_eqb e KeyError); [apply IH | done].
Qed.

(** X14. [fill] only adds.  On a closed heap the adapter fails with
    [fill] exactly when it fails without, with the same exception; and
    when it returns, every field bound without [fill] is bound to the
    same value with [fill], while each key of the mapping left out
    without [fill] is bound to [default] with it.  No key outside the
    mapping is bound either way. *)
Theorem build_adapter_fill_only_adds :
  forall (h : heap) (m : loc) (items : dict) (sep : string)
         (data default : pyval),
    heap_closed h -> val_ok h data ->
    h !! m = Some (ODict items) ->
    NoDup (dict_keys items) ->
    match observe (build_adapter (VRef m) sep data default false h),
          observe (build_adapter (VRef m) sep data default true h) with
    | Ok (Some (ODict res)), Ok (Some (ODict res')) =>
        forall k,
          (forall v, dict_get k res = Some v -> dict_get k res' = Some v)
          /\ (dict_get k res = None ->
              dict_get k res'
              = if bool_decide (k ∈ dict_keys items)
                then Some default else None)
    | Raise e, Raise e' => e = e'
    | _, _ => False
    end.
Proof.
  intros h m items sep data default Hc Hv Hm Hnd.
  rewrite !(adapter_observe h h m items sep data _ _ Hc Hv Hm) by done.
  set (outcome := fun location => fst (get sep data location h)).
  pose proof (adapted_status outcome default false true items [] [])
    as Hst.
  pose proof (adapted_lookup outcome default false items [] Hnd) as Hoff.
  pose proof (adapted_lookup outcome default true items [] Hnd) as Hon.
  destruct (adapted outcome default false items []) as [[[]|e] res];
    destruct (adapted outcome default true items []) as [[[]|e'] res'];
    simpl in *; try done; [|by injection Hst].
  destruct (Hoff eq_refl) as [Hout Hin].
  destruct (Hon eq_refl) as [Hout' Hin'].
  intros k. destruct (decide (k ∈ dict_keys items)) as [Hk|Hk].
  - rewrite bool_decide_eq_true_2 by done.
    apply list_elem_of_fmap in Hk as ([k0 location] & -> & Hitem).
    specialize (Hin _ _ Hitem). specialize (Hin' _ _ Hitem). simpl.
    destruct (outcome location) as [v|e].
    + rewrite Hin, Hin'. split; [done|]. done.
    + destruct Hin as [_ Hin]. destruct Hin' as [_ Hin'].
      rewrite Hin, Hin'. simpl. split; [done|]. done.
  - rewrite bool_decide_eq_false_2 by done.
    rewrite (Hout k Hk), (Hout' k Hk). simpl. split; done.
Qed.

Lemma build_adapter_fill_only_adds_witness :
  match observe (build_adapter (VRef 0%nat) "." (VRef 1%nat) VNone false
                   order_heap),
        observe (build_adapter (VRef 0%nat) "." (VRef 1%nat) VNone true
                   order_heap) with
  | Ok (Some (ODict res)), Ok (Some (ODict res')) =>
      forall k,
        (forall v, dict_get k res = Some v -> dict_get k res' = Some v)
        /\ (dict_get k res = None ->
            dict_get k res'
            = if bool_decide (k ∈ ["b"; "a"; "c"]%string)
              then Some VNone else None)
  | Raise e, Raise e' => e = e'
  | _, _ => False
  end.
Proof.
  apply (build_adapter_fill_only_adds order_heap 0%nat
           [("b", VStr "q"); ("a", VStr "p"); ("c", VStr "r.s")] "."
           (VRef 1%nat) VNone).
  - apply (bool_decide_unpack _). vm_compute. exact I.
  - by exists (ODict [("p", VInt 1); ("q", VInt 2)]).
  - reflexivity.
  - apply (bool_decide_unpack _). vm_compute. exact I.
Defined.

(** What a call of the adapter leaves: the heap it found with one new
    object, the record, which it returns if it returns. *)
Lemma build_adapter_frame (h : heap) m items sep data default fill :
  h !! m = Some (ODict items) ->
  exists res,
    snd (build_adapter (VRef m) sep data default fill h)
    = <[fresh (dom h) := ODict res]> h
    /\ forall a, fst (build_adapter (VRef m) sep data default fill h) = Ok a ->
         a = VRef (fresh (dom h)).
Proof.
  intros Hm. rewrite (build_adapter_unfold h m items) by done.
  set (l := fresh (dom h)).
  destruct (for_each items (adapter_step sep (VRef l) data default fill)
              (<[l := ODict []]> h)) as [r h'] eqn:Hrun.
  destruct (adapter_loop_frame sep l data default fill items [] _ r h'
              (lookup_insert_eq _ _ _) Hrun) as (res & ->).
  exists res. rewrite insert_insert_eq.
  destruct r as [[]|e]; simpl; split; try done.
  by intros a [= <-].
Qed.

(** X15. Adapting a document and then converting fields of the adapted
    record with [inner] writes the new record only: the heap after the
    two calls is the heap before them with one object added at a
    location unused before, so the document, the mapping and every other
    object are as they were, whether the calls return or raise.  [func]
    is a converter that does not write the heap itself. *)
Theorem adapt_then_convert_spares_the_document :
  forall (h : heap) (m : loc) (items : dict) (sep : string)
         (data default : pyval) (fill : bool) (func : pyfun)
         (keys : list string),
    h !! m = Some (ODict items) ->
    exists l res,
      h !! l = None
      /\ snd ((let* record := build_adapter (VRef m) sep data default fill in
               inner func keys record) h)
         = <[l := ODict res]> h
      /\ (forall l' o, h !! l' = Some o ->
            snd ((let* record :=
                    build_adapter (VRef m) sep data default fill in
                  inner func keys record) h) !! l' = Some o).
Proof.
  intros h m items sep data default fill func keys Hm.
  set (l := fresh (dom h)).
  pose proof (fresh_unallocated h) as Hl. fold l in Hl.
  assert (Hgoal : exists res,
    snd ((let* record := build_adapter (VRef m) sep data default fill in
          inner func keys record) h) = <[l := ODict res]> h).
  { destruct (build_adapter_frame h m items sep data default fill Hm)
      as (res & Hh & Hret). fold l in Hh, Hret.
    unfold bind.
    destruct (build_adapter (VRef m) sep data default fill h)
      as [[a|e] h1]; simpl in *; subst h1; [|by exists res].
    rewrite (Hret a eq_refl).
    destruct (inner_loop_frame func l keys (<[l := ODict res]> h) res
                (lookup_insert_eq _ _ _)) as (res' & Hh' & _).
    exists res'. rewrite inner_unfold.
    destruct (for_each keys (inner_step func (VRef l)) _) as [[[]|e] h2];
      simpl in *; subst h2; by rewrite insert_insert_eq. }
  destruct Hgoal as (res & Hres).
  exists l, res. split; [done|]. split; [done|].
  intros l' o Ho. rewrite Hres, lookup_insert_ne; [done|].
  intros <-. congruence.
Qed.

Lemma adapt_then_convert_spares_the_document_witness :
  exists l res,
    adapter_heap !! l = None
    /\ snd ((let* record :=
               build_adapter (VRef 0%nat) "." (VRef 2%nat) VNone false in
             inner py_str ["a"] record) adapter_heap)
       = <[l := ODict res]> adapter_heap.
Proof.
  destruct (adapt_then_convert_spares_the_document adapter_heap 0%nat
              [("a", VStr "x.y")] "." (VRef 2%nat) VNone false py_str
              ["a"]%string eq_refl) as (l & res & Hl & Hh & _).
  by exists l, res.
Defined.

(** X22. The lookup [get] is described exactly by the three ways a
    traversal can go.  On a closed heap, for a location that splits into
    the path [path], it returns [w] exactly when indexing along the path
    succeeds at every step and ends at [w]; it raises [KeyError] exactly
    when a step meets a dict that lacks the next key; it raises
    [TypeError] exactly when a step meets a value that is not a dict;
    nothing else can happen, and the heap is never written. *)
Theorem get_follows_the_path :
  forall (h : heap) (sep : string) (data : pyval) (s : string)
         (path : list string),
    str_split s sep = Ok path ->
    heap_closed h -> val_ok h data ->
    snd (get sep data (VStr s) h) = h
    /\ (forall w, fst (get sep data (VStr s) h) = Ok w
                  <-> reaches h data path w)
    /\ (fst (get sep data (VStr s) h) = Raise KeyError
        <-> key_absent h data path)
    /\ (fst (get sep data (VStr s) h) = Raise TypeError
        <-> malformed h data path)
    /\ (forall e, fst (get sep data (VStr s) h) = Raise e ->
          e = KeyError \/ e = TypeError).
Proof.
  intros h sep data s path Hs Hc Hv.
  rewrite (get_str sep data s path h Hs).
  pose proof (walk_heap data path h) as Hh.
  pose proof (walk_outcome h path data) as Ho.
  pose proof (walk_closed h Hc path data Hv) as Hns.
  split; [exact Hh|]. split; [|split; [|split]].
  - intros w. split.
    + intros Hw. by rewrite Hw in Ho.
    + intros Hr. by rewrite (walk_reaches h _ _ _ Hr).
  - split.
    + intros Hw. by rewrite Hw in Ho.
    + intros Hr. by rewrite (walk_key_absent h _ _ Hr).
  - split.
    + intros Hw. by rewrite Hw in Ho.
    + intros Hr. by rewrite (walk_malformed h _ _ Hr).
  - intros e He. rewrite He in Ho, Hns.
    destruct e; try done; [by left | by right].
Qed.

Lemma get_follows_the_path_witness :
  fst (get "." (VRef 2%nat) (VStr "x.y") adapter_heap) = Ok (VInt 5)
  <-> reaches adapter_heap (VRef 2%nat) ["x"; "y"]%string (VInt 5).
Proof.
  apply (get_follows_the_path adapter_heap "." (VRef 2%nat) "x.y"
           ["x"; "y"]%string eq_refl).
  - apply (bool_decide_unpack _). vm_compute. exact I.
  - by exists (ODict [("x", VRef 1%nat)]).
Defined.

(** The record of a mapping whose fields all resolve binds every field
    that is found to the value reached. *)
Lemma build_adapter_resolved (h : heap) m items sep data default fill :
  h !! m = Some (ODict items) ->
  NoDup (dict_keys items) ->
  resolves h sep data items ->
  exists res,
    build_adapter (VRef m) sep data default fill h
    = (Ok (VRef (fresh (dom h))), <[fresh (dom h) := ODict res]> h)
    /\ forall key s path v,
         (key, VStr s) ∈ items -> str_split s sep = Ok path ->
         reaches h data path v -> dict_get key res = Some v.
Proof.
  intros Hm Hnd Hres.
  set (l := fresh (dom h)).
  assert (Hl : h !! l = None) by apply fresh_unallocated.
  remember (fun location => fst (get sep data location h)) as outcome
    eqn:Hout.
  destruct (resolves_loop h sep data default fill items l [] outcome
              Hout Hres Hl) as [Hok Hloop].
  destruct (adapted_lookup outcome default fill items [] Hnd Hok)
    as [_ Hitems].
  exists (snd (adapted outcome default fill items [])).
  subst outcome. split.
  - rewrite (build_adapter_unfold h m items) by done. fold l.
    by rewrite Hloop.
  - intros key s path v Hin Hs Hv. specialize (Hitems key (VStr s) Hin).
    cbv beta in Hitems. rewrite (get_str _ _ _ _ _ Hs) in Hitems.
    by rewrite (walk_reaches h _ _ _ Hv) in Hitems.
Qed.

(** X23. The adapter does not copy what it finds.  When the value
    reached for a field is a nested dict of the document, the record
    binds the field to that very object; converting the field's own
    fields in place with [inner] then changes the nested dict of the
    document, while the record itself is not written again. *)
Theorem adapter_shares_nested_objects :
  forall (h : heap) (m : loc) (items : dict) (sep : string)
         (data default : pyval) (fill : bool) (key s : string)
         (path : list string) (n : loc) (nested : dict) (func : pyfun)
         (k : string) (v w : pyval),
    h !! m = Some (ODict items) ->
    NoDup (dict_keys items) ->
    resolves h sep data items ->
    (key, VStr s) ∈ items ->
    str_split s sep = Ok path ->
    reaches h data path (VRef n) ->
    h !! n = Some (ODict nested) ->
    dict_get k nested = Some v ->
    func v = Ok w ->
    exists l res,
      h !! l = None
      /\ dict_get key res = Some (VRef n)
      /\ (let* record := build_adapter (VRef m) sep data default fill in
          let* sub := getitem record key in
          inner func [k] sub) h
         = (Ok (VRef n),
            <[n := ODict (dict_set k w nested)]> (<[l := ODict res]> h)).
Proof.
  intros h m items sep data default fill key s path n nested func k v w
         Hm Hnd Hres Hin Hs Hreach Hn Hk Hf.
  destruct (build_adapter_resolved h m items sep data default fill
              Hm Hnd Hres) as (res & Hrun & Hfields).
  set (l := fresh (dom h)) in *.
  assert (Hl : h !! l = None) by apply fresh_unallocated.
  assert (Hkey : dict_get key res = Some (VRef n))
    by (by apply (Hfields key s path (VRef n))).
  exists l, res. split; [done|]. split; [done|].
  assert (Hne : l <> n) by (intros ->; congruence).
  erewrite bind_ok; [|exact Hrun].
  erewrite bind_ok.
  2:{ unfold getitem. by rewrite lookup_insert_eq, Hkey. }
  rewrite inner_unfold, for_each_cons.
  erewrite bind_ok.
  2:{ apply (inner_step_ok func n (<[l := ODict res]> h) nested
               ltac:(by rewrite lookup_insert_ne) k v w Hk Hf). }
  done.
Qed.

Lemma adapter_shares_nested_objects_witness :
  exists l res,
    nested_heap !! l = None
    /\ dict_get "player" res = Some (VRef 1%nat)
    /\ (let* record :=
          build_adapter (VRef 0%nat) "." (VRef 2%nat) VNone false in
        let* sub := getitem record "player" in
        inner py_int ["rating"] sub) nested_heap
       = (Ok (VRef 1%nat),
          <[1%nat := ODict (dict_set "rating" (VInt 1500)
                              [("rating", VStr "1500")])]>
            (<[l := ODict res]> nested_heap)).
Proof.
  apply (adapter_shares_nested_objects nested_heap 0%nat
           [("player", VStr "white")] "." (VRef 2%nat) VNone false
           "player" "white" ["white"]%string 1%nat
           [("rating", VStr "1500")] py_int "rating" (VStr "1500")
           (VInt 1500)).
  - reflexivity.
  - apply NoDup_singleton.
  - intros key location Hin. apply list_elem_of_singleton in Hin.
    injection Hin as -> ->. exists "white"%string, ["white"]%string.
    split; [reflexivity|]. split; [reflexivity|]. left.
    exists (VRef 1%nat).
    eapply reaches_cons; [reflexivity|reflexivity|]. apply reaches_nil.
  - apply list_elem_of_here.
  - reflexivity.
  - eapply reaches_cons; [reflexivity|reflexivity|]. apply reaches_nil.
  - reflexivity.
  - reflexivity.
  - vm_compute. reflexivity.
Defined.

(* ===================================================================== *)
(** ** Exact binary64 arithmetic on integers *)
(* ===================================================================== *)

Lemma digits2_size p : digits2_pos p = Pos.size p.
Proof. induction p; simpl; congruence. Qed.

Lemma digits_log2 p : Zpos (digits2_pos p) = Z.log2 (Zpos p) + 1.
Proof. rewrite digits2_size. destruct p; simpl; lia. Qed.

Lemma digits_bounds p :
  2 ^ (Zpos (digits2_pos p) - 1) <= Zpos p < 2 ^ Zpos (digits2_pos p).
Proof.
  rewrite digits_log2.
  replace (Z.log2 (Z.pos p) + 1 - 1) with (Z.log2 (Z.pos p)) by lia.
  replace (Z.log2 (Z.pos p) + 1) with (Z.succ (Z.log2 (Z.pos p))) by lia.
  apply Z.log2_spec. lia.
Qed.

Lemma digits_unique p d :
  2 ^ (d - 1) <= Zpos p < 2 ^ d -> Zpos (digits2_pos p) = d.
Proof.
  intros H. rewrite digits_log2.
  assert (0 <= d - 1).
  { destruct (Z.le_gt_cases 0 (d - 1)); [done|].
    destruct (Z.eq_dec d 0) as [->|]; [simpl in H; lia|].
    rewrite (Z.pow_neg_r 2 d) in H by lia. lia. }
  rewrite (Z.log2_unique (Zpos p) (d - 1)); [lia|lia|].
  replace (Z.succ (d - 1)) with d by lia. done.
Qed.

(** The digits of a product of a number and a power of two. *)
Lemma digits_shift p q t :
  0 <= t -> Zpos q = Zpos p * 2 ^ t ->
  Zpos (digits2_pos q) = Zpos (digits2_pos p) + t.
Proof.
  intros Ht Hq. apply digits_unique. rewrite Hq.
  pose proof (digits_bounds p) as [Hlo Hhi].
  replace (Zpos (digits2_pos p) + t - 1)
    with ((Zpos (digits2_pos p) - 1) + t) by lia.
  rewrite !Z.pow_add_r by lia.
  assert (0 < 2 ^ t) by (apply Z.pow_pos_nonneg; lia).
  split; nia.
Qed.

(** The digits of a product. *)
Lemma digits_mul p q :
  Zpos (digits2_pos p) + Zpos (digits2_pos q) - 1
  <= Zpos (digits2_pos (p * q))
  <= Zpos (digits2_pos p) + Zpos (digits2_pos q).
Proof.
  rewrite !digits_log2. rewrite Pos2Z.inj_mul.
  pose proof (Z.log2_mul_below (Zpos p) (Zpos q) ltac:(lia) ltac:(lia)).
  pose proof (Z.log2_mul_above (Zpos p) (Zpos q) ltac:(lia) ltac:(lia)).
  lia.
Qed.

Lemma iter_pos_nat {A} (f : A -> A) p : forall x,
  SpecFloat.iter_pos f p x = Nat.iter (Pos.to_nat p) f x.
Proof.
  induction p as [p IH|p IH|]; intros x; cbn [SpecFloat.iter_pos].
  - rewrite !IH, Pos2Nat.inj_xI.
    rewrite <- Nat.iter_add, <- Nat.iter_succ_r. f_equal. lia.
  - rewrite !IH, Pos2Nat.inj_xO. rewrite <- Nat.iter_add. f_equal. lia.
  - done.
Qed.

(** Shifting out zero bits records nothing. *)
Lemma shr_1_iter_exact : forall (k : nat) (q : positive),
  Nat.iter k shr_1 (Build_shr_record (Zpos q * 2 ^ Z.of_nat k) false false)
  = Build_shr_record (Zpos q) false false.
Proof.
  induction k as [|k IH]; intros q.
  - cbn [Nat.iter]. change (Z.of_nat 0) with 0.
    by rewrite Z.pow_0_r, Z.mul_1_r.
  - replace (Zpos q * 2 ^ Z.of_nat (S k)) with (Zpos (q~0) * 2 ^ Z.of_nat k).
    + simpl Nat.iter. by rewrite IH.
    + rewrite Nat2Z.inj_succ, Z.pow_succ_r by lia.
      rewrite (Pos2Z.inj_xO q). ring.
Qed.

Lemma shr_exact q t e :
  0 <= t ->
  shr (Build_shr_record (Zpos q * 2 ^ t) false false) e t
  = (Build_shr_record (Zpos q) false false, e + t).
Proof.
  intros Ht. unfold shr. destruct t as [|pt|pt]; [| |lia].
  - rewrite Z.pow_0_r, Z.mul_1_r, Z.add_0_r. done.
  - rewrite iter_pos_nat. f_equal.
    rewrite <- (positive_nat_Z pt). apply shr_1_iter_exact.
Qed.

(** Rounding a mantissa of 53 bits followed by zero bits is exact. *)
Lemma round_aux_exact s q t e :
  Zpos (digits2_pos q) = 53 ->
  0 <= t ->
  -1074 <= e + t <= 971 ->
  binary_round_aux 53 1024 s (Zpos q * 2 ^ t) e loc_Exact
  = S754_finite s q (e + t).
Proof.
  intros Hq Ht He.
  assert (Hpos : exists m, Zpos m = Zpos q * 2 ^ t).
  { assert (0 < 2 ^ t) by (apply Z.pow_pos_nonneg; lia).
    exists (Z.to_pos (Zpos q * 2 ^ t)). rewrite Z2Pos.id; [done | nia]. }
  destruct Hpos as [m Hm].
  pose proof (digits_shift q m t Ht Hm) as Hdm.
  unfold binary_round_aux, shr_fexp. rewrite <- Hm. simpl Zdigits2.
  replace (fexp 53 1024 (Zpos (digits2_pos m) + e) - e) with t
    by (unfold fexp, emin; lia).
  simpl shr_record_of_loc. rewrite Hm, (shr_exact q t e Ht).
  simpl shr_m. simpl loc_of_shr_record. simpl round_nearest_even.
  simpl Zdigits2.
  replace (fexp 53 1024 (Zpos (digits2_pos q) + (e + t)) - (e + t)) with 0
    by (unfold fexp, emin; lia).
  simpl. destruct (Z.leb_spec (e + t) (1024 - 53)); [done | lia].
Qed.

Lemma digits_pos p : 1 <= Zpos (digits2_pos p).
Proof. lia. Qed.

Lemma norm_mantissa_spec p :
  Zpos (digits2_pos p) <= 53 ->
  Zpos (norm_mantissa p) = Zpos p * 2 ^ (53 - Zpos (digits2_pos p))
  /\ Zpos (digits2_pos (norm_mantissa p)) = 53.
Proof.
  intros Hd. unfold norm_mantissa.
  assert (0 < 2 ^ (53 - Zpos (digits2_pos p)))
    by (apply Z.pow_pos_nonneg; lia).
  assert (Hm : Zpos (Z.to_pos (Zpos p * 2 ^ (53 - Zpos (digits2_pos p))))
               = Zpos p * 2 ^ (53 - Zpos (digits2_pos p)))
    by (rewrite Z2Pos.id; [done | nia]).
  split; [exact Hm|].
  rewrite (digits_shift p _ (53 - Zpos (digits2_pos p)) ltac:(lia) Hm). lia.
Qed.

(** Rounding an integer of at most 53 bits, given with [a] zero bits
    behind it, yields the float of that integer. *)
Lemma round_exact s p a :
  Zpos (digits2_pos p) <= 53 ->
  53 - Zpos (digits2_pos p) <= a ->
  binary_round_aux 53 1024 s (Zpos p * 2 ^ a) (- a) loc_Exact
  = exact_float s p.
Proof.
  intros Hd Ha. destruct (norm_mantissa_spec p Hd) as [Hm Hdm].
  pose proof (digits_pos p).
  replace (Zpos p * 2 ^ a)
    with (Zpos (norm_mantissa p) * 2 ^ (a - (53 - Zpos (digits2_pos p)))).
  - rewrite round_aux_exact by lia. unfold exact_float. f_equal. lia.
  - rewrite Hm, <- Z.mul_assoc, <- Z.pow_add_r by lia. do 2 f_equal. lia.
Qed.

Lemma pos_iter_xO p k : Zpos (Pos.iter xO p k) = Zpos p * 2 ^ Zpos k.
Proof.
  induction k as [|k IH] using Pos.peano_ind.
  - simpl. lia.
  - rewrite Pos.iter_succ, Pos2Z.inj_xO, IH, Pos2Z.inj_succ.
    rewrite Z.pow_succ_r by lia. ring.
Qed.

Lemma binary_round_exact s p :
  Zpos (digits2_pos p) <= 53 ->
  binary_round 53 1024 s p 0 = exact_float s p.
Proof.
  intros Hd. pose proof (digits_pos p).
  unfold binary_round, shl_align.
  replace (fexp 53 1024 (Zpos (digits2_pos p) + 0) - 0)
    with (Zpos (digits2_pos p) - 53) by (unfold fexp, emin; lia).
  destruct (Zpos (digits2_pos p) - 53) as [|k|k] eqn:Hk; [|lia|].
  - replace (Zpos p) with (Zpos p * 2 ^ 0) by (rewrite Z.pow_0_r; lia).
    change 0 with (- 0) at 2. apply round_exact; lia.
  - replace (fexp 53 1024 (Zpos (digits2_pos p) + 0)) with (- Zpos k)
      by (unfold fexp, emin; lia).
    rewrite pos_iter_xO. apply round_exact; lia.
Qed.

(** [float(n)] for an int of at most 53 bits. *)
Lemma of_Z_exact p :
  Zpos (digits2_pos p) <= 53 ->
  F64.of_Z (Zpos p) = exact_float false p
  /\ F64.of_Z (Zneg p) = exact_float true p.
Proof.
  intros Hd. unfold F64.of_Z, binary_normalize, F64.prec, F64.emax.
  by rewrite !binary_round_exact.
Qed.

(** [int(x)] gives the integer back. *)
Lemma trunc_exact s p :
  Zpos (digits2_pos p) <= 53 ->
  F64.trunc (exact_float s p) = Ok (cond_Zopp s (Zpos p)).
Proof.
  intros Hd. destruct (norm_mantissa_spec p Hd) as [Hm _].
  pose proof (digits_pos p).
  unfold F64.trunc, exact_float, F64.mag_floor. do 2 f_equal.
  destruct (Zpos (digits2_pos p) - 53) as [|k|k] eqn:Hk; [|lia|].
  - rewrite Z.shiftl_0_r, Hm.
    replace (53 - Zpos (digits2_pos p)) with 0 by lia.
    rewrite Z.pow_0_r. lia.
  - rewrite Z.shiftr_div_pow2, Hm by lia.
    replace (53 - Zpos (digits2_pos p)) with (Zpos k) by lia.
    apply Z.div_mul. apply Z.pow_nonzero; lia.
Qed.

(** [math.modf(x)]: no fractional part. *)
Lemma modf_exact s p :
  Zpos (digits2_pos p) <= 53 ->
  F64.modf (exact_float s p) = (S754_zero s, exact_float s p).
Proof.
  intros Hd. destruct (norm_mantissa_spec p Hd) as [Hm _].
  pose proof (digits_pos p).
  unfold F64.modf. unfold exact_float at 1.
  assert (Hfrac : F64.mag_frac (norm_mantissa p) (Zpos (digits2_pos p) - 53)
                  = 0).
  { unfold F64.mag_frac.
    destruct (Zpos (digits2_pos p) - 53) as [|k|k] eqn:Hk; [done|done|].
    rewrite Z.land_ones, Hm by lia.
    replace (53 - Zpos (digits2_pos p)) with (Zpos k) by lia.
    apply Z.mod_mul. apply Z.pow_nonzero; lia. }
  assert (Hfloor : F64.mag_floor (norm_mantissa p)
                     (Zpos (digits2_pos p) - 53) = Zpos p).
  { pose proof (trunc_exact false p Hd) as Ht.
    unfold F64.trunc, exact_float in Ht. by injection Ht. }
  rewrite Hfrac, Hfloor. f_equal.
  - by destruct s.
  - unfold F64.prec, F64.emax. destruct s; simpl cond_Zopp;
      unfold binary_normalize; by apply binary_round_exact.
Qed.

(** The product of two such integers, when it has at most 53 bits. *)
Lemma mul_exact s1 p1 s2 p2 :
  Zpos (digits2_pos p1) <= 53 ->
  Zpos (digits2_pos p2) <= 53 ->
  Zpos (digits2_pos (p1 * p2)) <= 53 ->
  F64.mul (exact_float s1 p1) (exact_float s2 p2)
  = exact_float (xorb s1 s2) (p1 * p2).
Proof.
  intros H1 H2 H12.
  destruct (norm_mantissa_spec p1 H1) as [Hm1 _].
  destruct (norm_mantissa_spec p2 H2) as [Hm2 _].
  pose proof (digits_mul p1 p2). pose proof (digits_pos p1).
  pose proof (digits_pos p2).
  unfold F64.mul, exact_float at 1 2, SFmul, F64.prec, F64.emax.
  rewrite Pos2Z.inj_mul, Hm1, Hm2.
  set (d1 := Zpos (digits2_pos p1)) in *.
  set (d2 := Zpos (digits2_pos p2)) in *.
  replace (Zpos p1 * 2 ^ (53 - d1) * (Zpos p2 * 2 ^ (53 - d2)))
    with (Zpos (p1 * p2) * 2 ^ (106 - d1 - d2)).
  - replace (d1 - 53 + (d2 - 53)) with (- (106 - d1 - d2)) by lia.
    apply round_exact; lia.
  - rewrite Pos2Z.inj_mul.
    replace (106 - d1 - d2) with ((53 - d1) + (53 - d2)) by lia.
    rewrite Z.pow_add_r by lia. ring.
Qed.

(** The quotient of a multiple of [c] by [c]. *)
Lemma div_exact s p c :
  Zpos (digits2_pos p) <= 53 ->
  Zpos (digits2_pos c) <= 64 ->
  F64.div (S754_finite s (p * c) 0) (S754_finite false c 0)
  = exact_float s p.
Proof.
  intros Hp Hc. pose proof (digits_mul p c) as Hpc.
  pose proof (digits_pos p). pose proof (digits_pos c).
  unfold F64.div, SFdiv, SFdiv_core_binary, F64.prec, F64.emax.
  simpl Zdigits2.
  set (d1 := Zpos (digits2_pos (p * c))) in *.
  set (d2 := Zpos (digits2_pos c)) in *.
  set (d := Zpos (digits2_pos p)) in *.
  replace (Z.min (fexp 53 1024 (d1 + 0 - (d2 + 0))) (0 - 0))
    with (d1 - d2 - 53) by (unfold fexp, emin; lia).
  replace (0 - 0 - (d1 - d2 - 53)) with (53 + d2 - d1) by lia.
  assert (Hshift : match 53 + d2 - d1 with
                   | 0 => Zpos (p * c)
                   | Zpos _ => Z.shiftl (Zpos (p * c)) (53 + d2 - d1)
                   | Zneg _ => 0
                   end = (Zpos p * 2 ^ (53 + d2 - d1)) * Zpos c).
  { destruct (53 + d2 - d1) as [|k|k] eqn:Hk; [| |lia].
    - rewrite Z.pow_0_r. lia.
    - rewrite Z.shiftl_mul_pow2 by lia. lia. }
  rewrite Hshift.
  rewrite (surjective_pairing (Z.div_eucl _ (Zpos c))).
  change (fst (Z.div_eucl ?a ?b)) with (a / b).
  change (snd (Z.div_eucl ?a ?b)) with (a mod b).
  rewrite Z.div_mul, Z.mod_mul by lia.
  assert (Hloc : new_location (Zpos c) 0 = loc_Exact).
  { unfold new_location. by destruct (Z.even (Zpos c)). }
  rewrite Hloc, xorb_false_r.
  replace (d1 - d2 - 53) with (- (53 + d2 - d1)) by lia.
  apply round_exact; lia.
Qed.

(* ===================================================================== *)
(** ** The proleptic Gregorian calendar *)
(* ===================================================================== *)

Lemma upto_spec n z : 1 <= z <= n -> In z (upto n).
Proof.
  intros Hz. unfold upto. apply in_map_iff. exists (Z.to_nat z).
  split; [lia|]. apply in_seq. lia.
Qed.

(** [_ord2ymd] undoes [_ymd2ord] on every date of the cycle, by
    evaluation. *)
Lemma cycle_round_trips : forallb date_round_trips cycle_dates = true.
Proof. vm_cast_no_check (eq_refl true). Qed.

Lemma cycle_dates_spec y m d :
  1 <= y <= 400 -> 1 <= m <= 12 -> 1 <= d <= _days_in_month y m ->
  In (y, m, d) cycle_dates.
Proof.
  intros Hy Hm Hd. unfold cycle_dates.
  apply in_flat_map. exists y. split; [by apply upto_spec|].
  apply in_flat_map. exists m. split; [by apply upto_spec|].
  apply in_map. by apply upto_spec.
Qed.

Lemma ord2ymd_ymd2ord_cycle y m d :
  1 <= y <= 400 -> 1 <= m <= 12 -> 1 <= d <= _days_in_month y m ->
  _ord2ymd (_ymd2ord y m d) = (y, m, d).
Proof.
  intros Hy Hm Hd.
  pose proof (proj1 (forallb_forall date_round_trips cycle_dates)
                cycle_round_trips (y, m, d)
                (cycle_dates_spec y m d Hy Hm Hd)) as H.
  revert H. unfold date_round_trips.
  generalize (_ord2ymd (_ymd2ord y m d)). intros [[y' m'] d'] H.
  apply andb_true_iff in H as [H Hd']. apply andb_true_iff in H as [Hy' Hm'].
  apply Z.eqb_eq in Hy', Hm', Hd'. by subst.
Qed.

(** The calendar repeats every 400 years, which are 146097 days. *)
Lemma is_leap_period y q : _is_leap (y + 400 * q) = _is_leap y.
Proof.
  unfold _is_leap.
  replace (y + 400 * q) with (y + (100 * q) * 4) at 1 by lia.
  replace (y + 400 * q) with (y + (4 * q) * 100) at 1 by lia.
  replace (y + 400 * q) with (y + q * 400) by lia.
  by rewrite !Z_mod_plus_full.
Qed.

Lemma days_before_year_period y q :
  _days_before_year (y + 400 * q) = _days_before_year y + 146097 * q.
Proof.
  unfold _days_before_year. cbv zeta.
  replace (y + 400 * q - 1) with (y - 1 + (100 * q) * 4) at 2 by lia.
  replace (y + 400 * q - 1) with (y - 1 + (4 * q) * 100) at 2 by lia.
  replace (y + 400 * q - 1) with (y - 1 + q * 400) at 2 by lia.
  rewrite !Z.div_add by lia. lia.
Qed.

Lemma days_in_month_period y q m :
  _days_in_month (y + 400 * q) m = _days_in_month y m.
Proof. unfold _days_in_month. by rewrite is_leap_period. Qed.

Lemma ymd2ord_period y q m d :
  _ymd2ord (y + 400 * q) m d = _ymd2ord y m d + 146097 * q.
Proof.
  unfold _ymd2ord, _days_before_month.
  rewrite days_before_year_period, is_leap_period. lia.
Qed.

Lemma ord2ymd_period n q :
  _ord2ymd (n + 146097 * q)
  = let '(y, m, d) := _ord2ymd n in (y + 400 * q, m, d).
Proof.
  unfold _ord2ymd, _DI400Y. cbv zeta.
  replace (n + 146097 * q - 1) with (n - 1 + q * 146097) by lia.
  rewrite Z.div_add by lia. rewrite Z_mod_plus_full.
  generalize ((n - 1) / 146097) ((n - 1) mod 146097). intros a r.
  assert (Htriple : forall y m d y' m' d' : Z,
            y = y' -> m = m' -> d = d' -> (y, m, d) = (y', m', d'))
    by (by intros; subst).
  destruct ((r mod _DI100Y mod _DI4Y / 365 =? 4) || (r / _DI100Y =? 4)).
  - apply Htriple; lia.
  - match goal with
    | |- (if ?c then _ else _) = _ => destruct c
    end; apply Htriple; lia.
Qed.

(** [_ord2ymd] undoes [_ymd2ord] on every valid date. *)
Lemma ord2ymd_ymd2ord y m d :
  1 <= y -> 1 <= m <= 12 -> 1 <= d <= _days_in_month y m ->
  _ord2ymd (_ymd2ord y m d) = (y, m, d).
Proof.
  intros Hy Hm Hd.
  set (q := (y - 1) / 400). set (y0 := (y - 1) mod 400 + 1).
  assert (Hy0 : 1 <= y0 <= 400)
    by (unfold y0; pose proof (Z.mod_pos_bound (y - 1) 400); lia).
  assert (Hyq : y = y0 + 400 * q)
    by (unfold y0, q; pose proof (Z.div_mod (y - 1) 400); lia).
  rewrite Hyq in Hd |- *. rewrite days_in_month_period in Hd.
  rewrite ymd2ord_period, ord2ymd_period.
  by rewrite (ord2ymd_ymd2ord_cycle y0 m d).
Qed.

Lemma month_cases m :
  1 <= m <= 12 ->
  m = 1 \/ m = 2 \/ m = 3 \/ m = 4 \/ m = 5 \/ m = 6
  \/ m = 7 \/ m = 8 \/ m = 9 \/ m = 10 \/ m = 11 \/ m = 12.
Proof. lia. Qed.

Lemma days_before_month_bounds y m :
  1 <= m <= 12 -> 0 <= _days_before_month y m <= 335.
Proof.
  intros Hm. unfold _days_before_month.
  destruct (_is_leap y);
    destruct (month_cases m Hm) as [->|[->|[->|[->|[->|[->|[->|[->|[->|[->|[->| ->]]]]]]]]]]];
    simpl; lia.
Qed.

Lemma days_in_month_bounds y m :
  1 <= m <= 12 -> 28 <= _days_in_month y m <= 31.
Proof.
  intros Hm. unfold _days_in_month.
  destruct (_is_leap y);
    destruct (month_cases m Hm) as [->|[->|[->|[->|[->|[->|[->|[->|[->|[->|[->| ->]]]]]]]]]]];
    simpl; lia.
Qed.

Lemma days_before_year_bounds y :
  1 <= y <= 9999 -> 0 <= _days_before_year y <= 3651695.
Proof.
  intros Hy. unfold _days_before_year. cbv zeta.
  pose proof (Z.div_mod (y - 1) 4). pose proof (Z.mod_pos_bound (y - 1) 4).
  pose proof (Z.div_mod (y - 1) 100).
  pose proof (Z.mod_pos_bound (y - 1) 100).
  pose proof (Z.div_mod (y - 1) 400).
  pose proof (Z.mod_pos_bound (y - 1) 400).
  lia.
Qed.

(** The seconds since the epoch of a valid instant. *)
Lemma seconds_bounds dt :
  valid_datetime dt ->
  -62135596800 <= seconds_since_epoch dt <= 253402473599.
Proof.
  intros (Hy & Hm & Hd & Hh & Hmi & Hs & Hus).
  unfold MINYEAR, MAXYEAR in Hy.
  pose proof (days_before_year_bounds (year dt) Hy).
  pose proof (days_before_month_bounds (year dt) (month dt) Hm).
  pose proof (days_in_month_bounds (year dt) (month dt) Hm).
  unfold seconds_since_epoch, toordinal, _ymd2ord.
  change (_days_before_year (year _EPOCH)
          + _days_before_month (year _EPOCH) (month _EPOCH) + day _EPOCH)
    with 719163.
  lia.
Qed.

(** [time.gmtime] reads the fields of a valid instant back from its
    seconds. *)
Lemma gmtime_seconds dt :
  valid_datetime dt ->
  gmtime (seconds_since_epoch dt)
  = (year dt, month dt, day dt, hour dt, minute dt, second dt).
Proof.
  intros (Hy & Hm & Hd & Hh & Hmi & Hs & Hus).
  unfold MINYEAR, MAXYEAR in Hy.
  unfold gmtime, seconds_since_epoch.
  set (sod := second dt + minute dt * 60 + hour dt * 3600).
  assert (Hsod : 0 <= sod < 86400) by (unfold sod; lia).
  set (days := toordinal dt - toordinal _EPOCH).
  assert (Hdays : (days * 86400 + sod) / 86400 = days).
  { symmetry. apply (Z.div_unique _ 86400 days sod); lia. }
  assert (Hrem : (days * 86400 + sod) mod 86400 = sod).
  { symmetry. apply (Z.mod_unique _ 86400 days sod); lia. }
  rewrite Hdays, Hrem.
  replace (toordinal _EPOCH + days) with (toordinal dt)
    by (unfold days; lia).
  unfold toordinal at 1. rewrite ord2ymd_ymd2ord by lia.
  assert (H1 : sod / 3600 = hour dt).
  { symmetry. apply (Z.div_unique sod 3600 (hour dt)
                       (second dt + minute dt * 60)); unfold sod; lia. }
  assert (H2 : sod mod 3600 = second dt + minute dt * 60).
  { symmetry. apply (Z.mod_unique sod 3600 (hour dt)); unfold sod; lia. }
  assert (H3 : (second dt + minute dt * 60) / 60 = minute dt).
  { symmetry. apply (Z.div_unique _ 60 (minute dt) (second dt)); lia. }
  assert (H4 : sod mod 60 = second dt).
  { symmetry.
    apply (Z.mod_unique sod 60 (minute dt + hour dt * 60)); unfold sod; lia. }
  by rewrite H1, H2, H3, H4.
Qed.

(* ===================================================================== *)
(** ** Time conversion on whole seconds *)
(* ===================================================================== *)

Lemma digits_le p n :
  0 <= n -> Zpos p < 2 ^ n -> Zpos (digits2_pos p) <= n.
Proof.
  intros Hn Hp. pose proof (digits_bounds p) as [Hlo _].
  destruct (Z.le_gt_cases (Zpos (digits2_pos p)) n) as [|Hgt]; [done|].
  assert (2 ^ n <= 2 ^ (Zpos (digits2_pos p) - 1))
    by (apply Z.pow_le_mono_r; lia).
  lia.
Qed.

(** [float(n)], [int(float(n))] and the arithmetic of the module on ints
    below [2^53]. *)
Lemma trunc_of_Z n :
  Z.abs n < 2 ^ 53 -> F64.trunc (F64.of_Z n) = Ok n.
Proof.
  intros Hn. destruct n as [|p|p]; [done| |].
  - assert (Hd : Zpos (digits2_pos p) <= 53) by (apply digits_le; lia).
    rewrite (proj1 (of_Z_exact p Hd)). by rewrite trunc_exact.
  - assert (Hd : Zpos (digits2_pos p) <= 53) by (apply digits_le; lia).
    rewrite (proj2 (of_Z_exact p Hd)). by rewrite trunc_exact.
Qed.

Lemma int_truediv_exact n c :
  Z.abs n < 2 ^ 53 -> Zpos c < 2 ^ 64 ->
  F64.int_truediv (n * Zpos c) (Zpos c) = Ok (F64.of_Z n).
Proof.
  intros Hn Hc.
  assert (Hdc : Zpos (digits2_pos c) <= 64) by (apply digits_le; lia).
  destruct n as [|p|p]; [done| |].
  - assert (Hd : Zpos (digits2_pos p) <= 53) by (apply digits_le; lia).
    rewrite (proj1 (of_Z_exact p Hd)).
    change (Zpos p * Zpos c) with (Zpos (p * c)). unfold F64.int_truediv.
    by rewrite div_exact.
  - assert (Hd : Zpos (digits2_pos p) <= 53) by (apply digits_le; lia).
    rewrite (proj2 (of_Z_exact p Hd)).
    change (Zneg p * Zpos c) with (Zneg (p * c)). unfold F64.int_truediv.
    by rewrite div_exact.
Qed.

Lemma mul_of_Z n k :
  Z.abs n < 2 ^ 53 -> Zpos k < 2 ^ 53 -> Z.abs (n * Zpos k) < 2 ^ 53 ->
  F64.mul (F64.of_Z n) (F64.of_Z (Zpos k)) = F64.of_Z (n * Zpos k).
Proof.
  intros Hn Hk Hnk.
  assert (Hdk : Zpos (digits2_pos k) <= 53) by (apply digits_le; lia).
  rewrite (proj1 (of_Z_exact k Hdk)).
  destruct n as [|p|p]; [done| |].
  - assert (Hd : Zpos (digits2_pos p) <= 53) by (apply digits_le; lia).
    assert (Hdpk : Zpos (digits2_pos (p * k)) <= 53)
      by (apply digits_le; lia).
    change (Zpos p * Zpos k) with (Zpos (p * k)).
    rewrite (proj1 (of_Z_exact p Hd)), (proj1 (of_Z_exact _ Hdpk)).
    by rewrite mul_exact.
  - assert (Hd : Zpos (digits2_pos p) <= 53) by (apply digits_le; lia).
    assert (Hdpk : Zpos (digits2_pos (p * k)) <= 53)
      by (apply digits_le; lia).
    change (Zneg p * Zpos k) with (Zneg (p * k)).
    rewrite (proj2 (of_Z_exact p Hd)), (proj2 (of_Z_exact _ Hdpk)).
    by rewrite mul_exact.
Qed.

(** [datetime.fromtimestamp] on a float that is an integer: no
    microseconds, and the calendar fields of that many seconds. *)
Lemma fromtimestamp_of_Z n :
  Z.abs n < 2 ^ 53 ->
  fromtimestamp_utc (F64.of_Z n)
  = let '(y, m, d, hh, mm, ss) := gmtime n in
    datetime_new y m d hh mm (Z.min ss 59) 0 (Some UTC).
Proof.
  intros Hn.
  assert (Hmillion : exists me ee,
            F64.of_Z 1000000 = S754_finite false me ee).
  { eexists _, _. vm_compute. reflexivity. }
  destruct Hmillion as (me & ee & Hmillion).
  unfold fromtimestamp_utc. rewrite Hmillion.
  destruct n as [|p|p].
  - reflexivity.
  - assert (Hd : Zpos (digits2_pos p) <= 53) by (apply digits_le; lia).
    rewrite (proj1 (of_Z_exact p Hd)), modf_exact by done.
    cbn [F64.mul SFmul F64.round rbind]. cbn [Z.leb Z.ltb Z.compare].
    rewrite trunc_exact by done. reflexivity.
  - assert (Hd : Zpos (digits2_pos p) <= 53) by (apply digits_le; lia).
    rewrite (proj2 (of_Z_exact p Hd)), modf_exact by done.
    cbn [F64.mul SFmul F64.round rbind]. cbn [Z.leb Z.ltb Z.compare].
    rewrite trunc_exact by done. reflexivity.
Qed.

Lemma micros_whole_seconds dt :
  micros_since_epoch dt
  = seconds_since_epoch dt * 1000000 + microsecond dt.
Proof.
  unfold micros_since_epoch, seconds_since_epoch.
  change (second _EPOCH + minute _EPOCH * 60 + hour _EPOCH * 3600) with 0.
  change (microsecond _EPOCH) with 0. lia.
Qed.

Lemma datetime_eta dt :
  dt = mk_datetime (year dt) (month dt) (day dt) (hour dt) (minute dt)
                   (second dt) (microsecond dt) (tzinfo dt).
Proof. by destruct dt. Qed.

Lemma fromtimestamp_whole dt :
  valid_datetime dt -> tzinfo dt = Some UTC -> microsecond dt = 0 ->
  fromtimestamp_utc (F64.of_Z (seconds_since_epoch dt)) = Ok dt.
Proof.
  intros Hv Htz Hus. pose proof (seconds_bounds dt Hv) as Hb.
  rewrite fromtimestamp_of_Z by lia.
  rewrite (gmtime_seconds dt Hv).
  destruct Hv as (Hy & Hm & Hd & Hh & Hmi & Hs & _).
  rewrite Z.min_l by lia.
  apply datetime_new_spec. split.
  - unfold MINYEAR, MAXYEAR in Hy. lia.
  - rewrite (datetime_eta dt) at 1. by rewrite Hus, Htz.
Qed.

Lemma to_millis_whole dt :
  valid_datetime dt -> tzinfo dt = Some UTC -> microsecond dt = 0 ->
  to_millis dt = Ok (seconds_since_epoch dt * 1000).
Proof.
  intros Hv Htz Hus. pose proof (seconds_bounds dt Hv) as Hb.
  unfold to_millis, timestamp. rewrite Htz.
  rewrite micros_whole_seconds, Hus, Z.add_0_r.
  rewrite int_truediv_exact by lia. cbn [rbind].
  rewrite mul_of_Z by lia. apply trunc_of_Z. lia.
Qed.

Lemma round_trip_whole dt :
  valid_datetime dt -> tzinfo dt = Some UTC -> microsecond dt = 0 ->
  rbind (to_millis dt) (fun n => datetime_from_millis (NInt n)) = Ok dt.
Proof.
  intros Hv Htz Hus. pose proof (seconds_bounds dt Hv) as Hb.
  rewrite to_millis_whole by done. cbn [rbind]. unfold datetime_from_millis.
  rewrite (int_truediv_exact (seconds_since_epoch dt) 1000) by lia.
  cbn [rbind]. by apply fromtimestamp_whole.
Qed.

(** X16. [datetime_from_seconds] is right on whole seconds: applied to
    the float of the number of seconds between the epoch and a valid
    UTC instant without microseconds, it returns that instant, for every
    date from year 1 to year 9999. *)
Theorem datetime_from_seconds_reads_whole_seconds :
  forall dt : datetime,
    valid_datetime dt ->
    tzinfo dt = Some UTC ->
    microsecond dt = 0 ->
    datetime_from_seconds (F64.of_Z (seconds_since_epoch dt)) = Ok dt.
Proof.
  intros dt Hv Htz Hus. unfold datetime_from_seconds.
  by apply fromtimestamp_whole.
Qed.

Lemma datetime_from_seconds_reads_whole_seconds_witness :
  datetime_from_seconds
    (F64.of_Z (seconds_since_epoch
                 (mk_datetime 2021 6 15 12 0 0 0 (Some UTC))))
  = Ok (mk_datetime 2021 6 15 12 0 0 0 (Some UTC)).
Proof.
  apply (datetime_from_seconds_reads_whole_seconds
           (mk_datetime 2021 6 15 12 0 0 0 (Some UTC))).
  - unfold valid_datetime. vm_compute. intuition discriminate.
  - reflexivity.
  - reflexivity.
Defined.

(** X17. [to_millis] is exact on whole seconds: for a valid UTC instant
    without microseconds it returns the number of seconds since the
    epoch times 1000, with no rounding error, for every date from year
    1 to year 9999. *)
Theorem to_millis_exact_on_whole_seconds :
  forall dt : datetime,
    valid_datetime dt ->
    tzinfo dt = Some UTC ->
    microsecond dt = 0 ->
    to_millis dt = Ok (seconds_since_epoch dt * 1000).
Proof. intros dt Hv Htz Hus. by apply to_millis_whole. Qed.

Lemma to_millis_exact_on_whole_seconds_witness :
  to_millis (mk_datetime 2004 1 10 13 37 4 0 (Some UTC))
  = Ok (seconds_since_epoch (mk_datetime 2004 1 10 13 37 4 0 (Some UTC))
        * 1000).
Proof.
  apply (to_millis_exact_on_whole_seconds
           (mk_datetime 2004 1 10 13 37 4 0 (Some UTC))).
  - unfold valid_datetime. vm_compute. intuition discriminate.
  - reflexivity.
  - reflexivity.
Defined.

(** X18. A number of milliseconds that is a multiple of 1000 is read as
    the whole seconds it stands for: [datetime_from_millis(1000 * n)]
    is [datetime_from_seconds(float(n))], in value or in exception, for
    every int [n] below [2^53] in magnitude. *)
Theorem datetime_from_millis_on_whole_seconds :
  forall n : Z,
    Z.abs n < 2 ^ 53 ->
    datetime_from_millis (NInt (n * 1000))
    = datetime_from_seconds (F64.of_Z n).
Proof.
  intros n Hn. unfold datetime_from_millis.
  by rewrite (int_truediv_exact n 1000 Hn).
Qed.

Lemma datetime_from_millis_on_whole_seconds_witness :
  datetime_from_millis (NInt (1623758400 * 1000))
  = datetime_from_seconds (F64.of_Z 1623758400).
Proof.
  apply (datetime_from_millis_on_whole_seconds 1623758400).
  vm_compute. reflexivity.
Defined.

(** X19. On whole seconds the round trip through milliseconds loses
    nothing: for a valid UTC instant without microseconds,
    [datetime_from_millis(to_millis(dt))] is [dt], for every date from
    year 1 to year 9999. *)
Theorem to_millis_round_trip_on_whole_seconds :
  forall dt : datetime,
    valid_datetime dt ->
    tzinfo dt = Some UTC ->
    microsecond dt = 0 ->
    rbind (to_millis dt) (fun n => datetime_from_millis (NInt n)) = Ok dt.
Proof. intros dt Hv Htz Hus. by apply round_trip_whole. Qed.

Lemma to_millis_round_trip_on_whole_seconds_witness :
  rbind (to_millis (mk_datetime 2004 1 10 13 37 4 0 (Some UTC)))
        (fun n => datetime_from_millis (NInt n))
  = Ok (mk_datetime 2004 1 10 13 37 4 0 (Some UTC)).
Proof.
  apply (to_millis_round_trip_on_whole_seconds
           (mk_datetime 2004 1 10 13 37 4 0 (Some UTC))).
  - unfold valid_datetime. vm_compute. intuition discriminate.
  - reflexivity.
  - reflexivity.
Defined.

(** X20. Whatever [datetime_from_seconds] and [datetime_from_millis]
    return is timezone-aware, tagged UTC, and has all its fields in the
    ranges of the [datetime] constructor.  On a NaN the first raises
    [ValueError] and on an infinity [OverflowError]. *)
Theorem datetime_from_seconds_returns_aware_instants :
  (forall (ts : F64.float) (dt : datetime),
      datetime_from_seconds ts = Ok dt ->
      tzinfo dt = Some UTC /\ valid_datetime dt)
  /\ (forall (millis : number) (dt : datetime),
        datetime_from_millis millis = Ok dt ->
        tzinfo dt = Some UTC /\ valid_datetime dt)
  /\ datetime_from_seconds S754_nan = Raise ValueError
  /\ (forall s, datetime_from_seconds (S754_infinity s) = Raise OverflowError).
Proof.
  assert (Hsec : forall (ts : F64.float) (dt : datetime),
            datetime_from_seconds ts = Ok dt ->
            tzinfo dt = Some UTC /\ valid_datetime dt).
  { intros ts dt. unfold datetime_from_seconds, fromtimestamp_utc.
    destruct (F64.modf ts) as [frac t].
    destruct (F64.round _) as [us|e]; [|done]. cbn [rbind].
    destruct (if 1000000 <=? us then _ else _) as [t' us'].
    destruct (F64.trunc t') as [secs|e]; [|done]. cbn [rbind].
    destruct (gmtime secs) as [[[[[y m] d] hh] mm] ss].
    intros Hnew. apply datetime_new_spec in Hnew as [Hr ->].
    split; [done|]. unfold valid_datetime, MINYEAR, MAXYEAR. simpl. lia. }
  split; [exact Hsec|]. split; [|split].
  - intros [n|x] dt; unfold datetime_from_millis.
    + destruct (F64.int_truediv n 1000) as [ts|e]; [|done]. apply Hsec.
    + apply Hsec.
  - reflexivity.
  - by intros [].
Qed.

Lemma datetime_from_seconds_returns_aware_instants_witness :
  tzinfo (mk_datetime 2021 6 15 12 0 0 0 (Some UTC)) = Some UTC
  /\ valid_datetime (mk_datetime 2021 6 15 12 0 0 0 (Some UTC)).
Proof.
  apply (proj1 datetime_from_seconds_returns_aware_instants
           (F64.of_Z 1623758400)).
  vm_compute. reflexivity.
Defined.

(** X21. What [datetime_from_str] returns is timezone-aware, tagged UTC,
    and a valid date and time; and when the text has no fraction of a
    second to keep (the microseconds are zero), [to_millis] of the
    parsed instant is exact and [datetime_from_millis] gives the parsed
    instant back. *)
Theorem datetime_from_str_then_to_millis :
  forall (s : string) (dt : datetime),
    datetime_from_str s = Ok dt ->
    (tzinfo dt = Some UTC /\ valid_datetime dt)
    /\ (microsecond dt = 0 ->
        to_millis dt = Ok (seconds_since_epoch dt * 1000)
        /\ rbind (to_millis dt) (fun n => datetime_from_millis (NInt n))
           = Ok dt).
Proof.
  intros s dt Hs.
  apply datetime_from_str_reads in Hs as (p & _ & _ & Hdt).
  unfold stamp_datetime in Hdt.
  apply datetime_new_spec in Hdt as [Hr ->].
  assert (Hv : valid_datetime
                 (mk_datetime (decimal (st_year p)) (decimal (st_month p))
                    (decimal (strip_left (st_day p)))
                    (decimal (st_hour p)) (decimal (st_minute p))
                    (decimal (st_second p))
                    (decimal (st_fraction p)
                     * 10 ^ Z.of_nat (6 - length (st_fraction p)))
                    (Some UTC)))
    by (unfold valid_datetime, MINYEAR, MAXYEAR; simpl; lia).
  split; [by split|]. intros Hus. split.
  - by apply to_millis_whole.
  - by apply round_trip_whole.
Qed.

Lemma datetime_from_str_then_to_millis_witness :
  to_millis (mk_datetime 2021 6 15 12 0 0 0 (Some UTC))
  = Ok (seconds_since_epoch (mk_datetime 2021 6 15 12 0 0 0 (Some UTC))
        * 1000).
Proof.
  apply (proj2 (datetime_from_str_then_to_millis
                  "2021-06-15T12:00:00.000000Z"
                  (mk_datetime 2021 6 15 12 0 0 0 (Some UTC))
                  ltac:(vm_compute; reflexivity))
           eq_refl).
Defined.
